(** * file-renamer: the sanitizer, the collision resolver, the backend
      selector and the rename orchestrator, embedded from the Python sources

    - [src/renamer/core/sanitizer.py]   -> [Module Sanitizer]
    - [src/renamer/factory.py]          -> [Module Factory]
    - [src/renamer/domain/models.py],
      [src/renamer/operations/base.py]  -> [Module Renamer]
    - [OperationStats], [get_stats] and
      the end of [main]
      ([src/renamer_cli.py])            -> [Module Stats]
    - [src/renamer/core/sidecar.py]     -> [Module Sidecar]
    - [src/renamer/core/hash_strategy.py],
      [src/renamer/operations/remote.py]
                                        -> [Module HashStrategy], [Module Rclone]

    What the sources take from the Python runtime stands before them:
    strings and their methods, UTF-8, [hashlib.sha256], the fragment of [re]
    they use, and the Unicode database as an interface ([Unicode]) with the
    laws the proofs rely on ([UnicodeLaws]).

    A Python [str] is a sequence of Unicode code points: here a [list N].
    Lengths are [nat]; where the source subtracts lengths (and may go below
    zero) the arithmetic is done in [Z], as Python integers do.  A call that
    may raise returns an [exc]; the orchestrator runs in a state-and-exception
    monad over the world of the backend and a log of the calls made on it. *)

From Stdlib Require Import String Ascii.
From Stdlib Require Import List NArith ZArith Lia Bool.
Import ListNotations.

Set Implicit Arguments.

(** ** Python strings and the built-ins the sources use *)

Definition codepoint := N.
Definition pystr := list codepoint.

Definition ord (a : ascii) : codepoint := N_of_ascii a.

(** An ASCII literal, code point by code point. *)
Definition lit (s : string) : pystr := map ord (list_ascii_of_string s).

Definition len (s : pystr) : Z := Z.of_nat (length s).

Definition pystr_eqb (s t : pystr) : bool :=
  if list_eq_dec N.eq_dec s t then true else false.

(** [c in chars] for a one-character [c]. *)
Definition in_str (c : codepoint) (chars : pystr) : bool := existsb (N.eqb c) chars.

(** [needle in s]: substring test. *)
Fixpoint starts_with (p s : pystr) : bool :=
  match p, s with
  | [], _ => true
  | a :: p', b :: s' => N.eqb a b && starts_with p' s'
  | _ :: _, [] => false
  end.

Fixpoint contains (needle s : pystr) : bool :=
  starts_with needle s ||
  match s with
  | [] => false
  | _ :: s' => contains needle s'
  end.

Fixpoint drop_while (p : codepoint -> bool) (s : pystr) : pystr :=
  match s with
  | [] => []
  | c :: s' => if p c then drop_while p s' else s
  end.

(** [s.lstrip(chars)] and [s.rstrip(chars)]. *)
Definition lstrip (chars s : pystr) : pystr := drop_while (fun c => in_str c chars) s.
Definition rstrip (chars s : pystr) : pystr := rev (lstrip chars (rev s)).

(** [s[:k]] for any integer [k]: a negative [k] counts from the end. *)
Definition slice_to (s : pystr) (k : Z) : pystr :=
  if (k <? 0)%Z then firstn (length s - Z.to_nat (- k)) s
  else firstn (Z.to_nat k) s.

(** [sep.join(parts)]. *)
Fixpoint join (sep : pystr) (parts : list pystr) : pystr :=
  match parts with
  | [] => []
  | [p] => p
  | p :: rest => p ++ sep ++ join sep rest
  end.

(** The first occurrence of the one-character separator: what is before it
    and what is after it. *)
Fixpoint break_at (sep : codepoint) (s : pystr) : option (pystr * pystr) :=
  match s with
  | [] => None
  | c :: s' =>
      if N.eqb c sep then Some ([], s')
      else match break_at sep s' with
           | Some (a, b) => Some (c :: a, b)
           | None => None
           end
  end.

(** [s.split(sep, maxsplit)] for a one-character [sep]. *)
Fixpoint split_max (sep : codepoint) (maxsplit : nat) (s : pystr) : list pystr :=
  match maxsplit with
  | O => [s]
  | S n =>
      match break_at sep s with
      | None => [s]
      | Some (a, b) => a :: split_max sep n b
      end
  end.

(** [s.rsplit(sep, maxsplit)]: the same, scanning from the right. *)
Definition rsplit (sep : codepoint) (maxsplit : nat) (s : pystr) : list pystr :=
  rev (map (@rev codepoint) (split_max sep maxsplit (rev s))).

(** [s.translate(table)] for a table from one character to a string. *)
Fixpoint table_get (table : list (codepoint * pystr)) (c : codepoint) : option pystr :=
  match table with
  | [] => None
  | (k, v) :: rest => if N.eqb c k then Some v else table_get rest c
  end.

Definition translate (table : list (codepoint * pystr)) (s : pystr) : pystr :=
  flat_map (fun c => match table_get table c with Some v => v | None => [c] end) s.

(** [re.sub(p, repl, s)] for the two shapes of pattern the sanitizer uses: a
    character class repeated one or more times ([[cls]+]), optionally
    anchored at the start ([^[cls]+]).  Every maximal run of class characters
    is replaced by [repl]; when anchored only a run at position 0 is. *)
Fixpoint sub_runs (cls : codepoint -> bool) (repl : pystr) (in_run : bool) (s : pystr) : pystr :=
  match s with
  | [] => []
  | c :: s' =>
      if cls c then (if in_run then [] else repl) ++ sub_runs cls repl true s'
      else c :: sub_runs cls repl false s'
  end.

Definition re_sub_class_plus (anchored : bool) (cls : codepoint -> bool) (repl s : pystr) : pystr :=
  if anchored then
    match s with
    | c :: _ => if cls c then repl ++ drop_while cls s else s
    | [] => []
    end
  else sub_runs cls repl false s.

(** ** What Python's Unicode database decides

    [unicodedata.normalize('NFKC', s)], [s.lower()] and the [\w] class of
    [re] are tables of the Python runtime, not of this repository: they are
    an interface here.  [UnicodeLaws] states what the Unicode standard fixes
    for ASCII and for the Latin-1 letters, which is all the proofs use. *)

Class Unicode : Type := {
  normalize_nfkc : pystr -> pystr;
  str_lower : pystr -> pystr;
  is_word : codepoint -> bool
}.

Definition in_range (lo hi c : codepoint) : bool := (N.leb lo c && N.leb c hi)%bool.
Arguments in_range (lo hi c)%_N_scope.

(** Lowercasing of one Latin-1 code point: A-Z and the capital letters
    U+00C0..U+00DE (U+00D7, the multiplication sign, apart). *)
Definition lower1 (c : codepoint) : codepoint :=
  if in_range 65 90 c then (c + 32)%N
  else if in_range 192 222 c && negb (N.eqb c 215%N) then (c + 32)%N
  else c.

(** ASCII, and the Latin-1 letters U+00C0..U+00FF: unchanged by NFKC. *)
Definition nfkc_fixed (c : codepoint) : bool := N.ltb c 128%N || in_range 192 255 c.

Definition ascii_word (c : codepoint) : bool :=
  in_range 97 122 c || in_range 65 90 c || in_range 48 57 c || N.eqb c 95%N.

Class UnicodeLaws (U : Unicode) : Prop := {
  nfkc_latin1 : forall s, forallb nfkc_fixed s = true -> normalize_nfkc s = s;
  lower_latin1 : forall s, forallb (fun c => N.ltb c 256%N) s = true -> str_lower s = map lower1 s;
  word_ascii : forall c, (c < 128)%N -> is_word c = ascii_word c
}.

(** Python restricted to Latin-1 text: the instance the concrete runs use. *)
Definition latin1 : Unicode := {|
  normalize_nfkc := fun s => s;
  str_lower := map lower1;
  is_word := ascii_word
|}.

(** ** Exceptions

    A Python call either returns a value or raises.  What is raised here is
    an [Exception], the kind [except Exception] catches; [str(e)] is all the
    orchestrator keeps of it. *)

Inductive exc (A : Type) : Type :=
| Ok (a : A)
| Raise (msg : pystr).
Arguments Ok {A} a.
Arguments Raise {A} msg.

(** [s.encode('utf-8')] with the default strict error handler: a surrogate
    code point (U+D800..U+DFFF) cannot be encoded and raises
    UnicodeEncodeError (its message is kept without the character and the
    position it names). *)
Definition utf8_char (c : codepoint) : option (list N) :=
  (if c <? 0x80 then Some [c]
   else if c <? 0x800 then
     Some [N.lor 0xC0 (N.shiftr c 6); N.lor 0x80 (N.land c 0x3F)]
   else if c <? 0x10000 then
     if in_range 0xD800 0xDFFF c then None
     else Some [N.lor 0xE0 (N.shiftr c 12);
                N.lor 0x80 (N.land (N.shiftr c 6) 0x3F);
                N.lor 0x80 (N.land c 0x3F)]
   else if c <? 0x110000 then
     Some [N.lor 0xF0 (N.shiftr c 18);
           N.lor 0x80 (N.land (N.shiftr c 12) 0x3F);
           N.lor 0x80 (N.land (N.shiftr c 6) 0x3F);
           N.lor 0x80 (N.land c 0x3F)]
   else None)%N.

Fixpoint utf8_encode (s : pystr) : exc (list N) :=
  match s with
  | [] => Ok []
  | c :: s' =>
      match utf8_char c, utf8_encode s' with
      | Some bs, Ok rest => Ok (bs ++ rest)
      | None, _ => Raise (lit "'utf-8' codec can't encode character: surrogates not allowed")
      | _, Raise m => Raise m
      end
  end.

(** ** hashlib.sha256 (FIPS 180-4), on 32-bit words kept in [N] *)

Module Sha256.

Local Open Scope N_scope.

Definition w32 (x : N) : N := N.land x 0xFFFFFFFF.
Definition add32 (a b : N) : N := w32 (a + b).
Definition rotr (n x : N) : N := N.lor (N.shiftr x n) (w32 (N.shiftl x (32 - n))).
Definition Ch (x y z : N) : N := N.lxor (N.land x y) (N.land (N.lxor x 0xFFFFFFFF) z).
Definition Maj (x y z : N) : N := N.lxor (N.lxor (N.land x y) (N.land x z)) (N.land y z).
Definition Sigma0 (x : N) : N := N.lxor (N.lxor (rotr 2 x) (rotr 13 x)) (rotr 22 x).
Definition Sigma1 (x : N) : N := N.lxor (N.lxor (rotr 6 x) (rotr 11 x)) (rotr 25 x).
Definition sigma0 (x : N) : N := N.lxor (N.lxor (rotr 7 x) (rotr 18 x)) (N.shiftr x 3).
Definition sigma1 (x : N) : N := N.lxor (N.lxor (rotr 17 x) (rotr 19 x)) (N.shiftr x 10).

(** The constants of the standard are defined by what they are: the first
    32 bits of the fractional parts of the cube roots (for [K]) and of the
    square roots (for [H0]) of the first primes. *)
Definition is_prime (n : nat) : bool :=
  forallb (fun d => negb (Nat.eqb (n mod d) 0)) (seq 2 (n - 2)).

Definition primes (count : nat) : list N :=
  map N.of_nat (firstn count (filter is_prime (seq 2 400))).

(** The integer cube root, one bit at a time from bit [bits - 1] down. *)
Fixpoint cube_root_bits (bits : nat) (n r : N) : N :=
  match bits with
  | O => r
  | S k =>
      let r' := r + N.shiftl 1 (N.of_nat k) in
      if r' * r' * r' <=? n then cube_root_bits k n r' else cube_root_bits k n r
  end.

Definition frac_cube_root (p : N) : N := w32 (cube_root_bits 40 (N.shiftl p 96) 0).
Definition frac_square_root (p : N) : N := w32 (N.sqrt (N.shiftl p 64)).

Definition K : list N := Eval vm_compute in map frac_cube_root (primes 64).

(** The hash state: eight words. *)
Record state : Type := mkState { ha : N; hb : N; hc : N; hd : N; he : N; hf : N; hg : N; hh : N }.

Definition state_of_list (l : list N) : state :=
  mkState (nth 0 l 0) (nth 1 l 0) (nth 2 l 0) (nth 3 l 0)
          (nth 4 l 0) (nth 5 l 0) (nth 6 l 0) (nth 7 l 0).

Definition H0 : state := Eval vm_compute in state_of_list (map frac_square_root (primes 8)).

(** [count] bytes of [n], most significant first. *)
Fixpoint be_bytes (count : nat) (n : N) : list N :=
  match count with
  | O => []
  | S k => N.land (N.shiftr n (8 * N.of_nat k)) 0xFF :: be_bytes k n
  end.

Definition pad (msg : list N) : list N :=
  let l := length msg in
  msg ++ [0x80] ++ repeat 0 ((119 - l mod 64) mod 64)%nat ++ be_bytes 8 (8 * N.of_nat l).

(** Big-endian words of a run of bytes, four bytes a word. *)
Fixpoint words (count : nat) (bs : list N) : list N :=
  match count with
  | O => []
  | S k =>
      match bs with
      | b0 :: b1 :: b2 :: b3 :: rest =>
          (N.shiftl b0 24 + N.shiftl b1 16 + N.shiftl b2 8 + b3) :: words k rest
      | _ => []
      end
  end.

(** The message schedule: sixteen words extended to sixty-four. *)
Fixpoint extend (count : nat) (w : list N) : list N :=
  match count with
  | O => w
  | S k =>
      let t := length w in
      let x := add32 (add32 (sigma1 (nth (t - 2) w 0)) (nth (t - 7) w 0))
                     (add32 (sigma0 (nth (t - 15) w 0)) (nth (t - 16) w 0)) in
      extend k (w ++ [x])
  end.

Definition round (s : state) (kw : N * N) : state :=
  let '(k, w) := kw in
  let t1 := add32 (add32 (add32 (hh s) (Sigma1 (he s))) (add32 (Ch (he s) (hf s) (hg s)) k)) w in
  let t2 := add32 (Sigma0 (ha s)) (Maj (ha s) (hb s) (hc s)) in
  mkState (add32 t1 t2) (ha s) (hb s) (hc s) (add32 (hd s) t1) (he s) (hf s) (hg s).

Definition compress (s : state) (block : list N) : state :=
  let w := extend 48 (words 16 block) in
  let r := fold_left round (combine K w) s in
  mkState (add32 (ha s) (ha r)) (add32 (hb s) (hb r)) (add32 (hc s) (hc r)) (add32 (hd s) (hd r))
          (add32 (he s) (he r)) (add32 (hf s) (hf r)) (add32 (hg s) (hg r)) (add32 (hh s) (hh r)).

Fixpoint blocks (count : nat) (s : state) (bs : list N) : state :=
  match count with
  | O => s
  | S k => blocks k (compress s (firstn 64 bs)) (skipn 64 bs)
  end.

Definition digest (msg : list N) : state :=
  let p := pad msg in
  blocks (length p / 64) H0 p.

Definition hex_digit (d : N) : codepoint := nth (N.to_nat d) (lit "0123456789abcdef") 48.

(** Eight lowercase hexadecimal digits of a word, most significant first. *)
Definition hex8 (x : N) : pystr :=
  map (fun i => hex_digit (N.land (N.shiftr x (4 * i)) 0xF)) [7; 6; 5; 4; 3; 2; 1; 0].

(** [hashlib.sha256(msg).hexdigest()]. *)
Definition hexdigest (msg : list N) : pystr :=
  let s := digest msg in
  hex8 (ha s) ++ hex8 (hb s) ++ hex8 (hc s) ++ hex8 (hd s) ++
  hex8 (he s) ++ hex8 (hf s) ++ hex8 (hg s) ++ hex8 (hh s).

End Sha256.

(** ** Regular expressions: the fragment of [re] the sources use *)

Module Re.

Inductive regex : Type :=
| Void
| Eps
| Cls (p : codepoint -> bool)
| Seq (r1 r2 : regex)
| Alt (r1 r2 : regex)
| Star (r : regex).

Definition plus (r : regex) : regex := Seq r (Star r).
Definition opt (r : regex) : regex := Alt r Eps.

(** What a regular expression denotes. *)
Inductive lang : regex -> pystr -> Prop :=
| L_eps : lang Eps []
| L_cls p c : p c = true -> lang (Cls p) [c]
| L_seq r1 r2 s1 s2 : lang r1 s1 -> lang r2 s2 -> lang (Seq r1 r2) (s1 ++ s2)
| L_alt_l r1 r2 s : lang r1 s -> lang (Alt r1 r2) s
| L_alt_r r1 r2 s : lang r2 s -> lang (Alt r1 r2) s
| L_star_nil r : lang (Star r) []
| L_star_app r s1 s2 : lang r s1 -> lang (Star r) s2 -> lang (Star r) (s1 ++ s2).

(** The matcher: Brzozowski derivatives. *)
Fixpoint nullable (r : regex) : bool :=
  match r with
  | Void => false
  | Eps => true
  | Cls _ => false
  | Seq r1 r2 => nullable r1 && nullable r2
  | Alt r1 r2 => nullable r1 || nullable r2
  | Star _ => true
  end.

Fixpoint deriv (c : codepoint) (r : regex) : regex :=
  match r with
  | Void => Void
  | Eps => Void
  | Cls p => if p c then Eps else Void
  | Seq r1 r2 =>
      if nullable r1 then Alt (Seq (deriv c r1) r2) (deriv c r2)
      else Seq (deriv c r1) r2
  | Alt r1 r2 => Alt (deriv c r1) (deriv c r2)
  | Star r1 => Seq (deriv c r1) (Star r1)
  end.

Fixpoint fullmatch (r : regex) (s : pystr) : bool :=
  match s with
  | [] => nullable r
  | c :: s' => fullmatch (deriv c r) s'
  end.

(** [re.match('^r$', s)] is not None, without re.MULTILINE: [$] matches at
    the end of the string and also just before a newline that ends it. *)
Definition match_to_end (r : regex) (s : pystr) : bool :=
  fullmatch (Seq r (opt (Cls (N.eqb 10%N)))) s.

(** [re.match('^r(?![cls])', s)] is not None: some prefix of [s] matches
    [r] and is not followed by a character of the class. *)
Fixpoint match_not_followed (r : regex) (cls : codepoint -> bool) (s : pystr) : bool :=
  (nullable r && negb (match s with c :: _ => cls c | [] => false end)) ||
  match s with
  | [] => false
  | c :: s' => match_not_followed (deriv c r) cls s'
  end.

End Re.

(** ** src/renamer/core/sanitizer.py *)

Module Sanitizer.

Definition SYSTEM_FILES : list pystr :=
  [ lit ".DS_Store"; lit "Thumbs.db"; lit "desktop.ini"; lit ".localized";
    lit "thumbs.db"; lit "Desktop.ini"; lit "$RECYCLE.BIN"; lit "System Volume Information" ].

Definition RESERVED_NAMES : list pystr :=
  [ lit "con"; lit "prn"; lit "aux"; lit "nul";
    lit "com1"; lit "com2"; lit "com3"; lit "com4"; lit "com5";
    lit "com6"; lit "com7"; lit "com8"; lit "com9";
    lit "lpt1"; lit "lpt2"; lit "lpt3"; lit "lpt4"; lit "lpt5";
    lit "lpt6"; lit "lpt7"; lit "lpt8"; lit "lpt9" ].

Definition TRANSLITERATION_MAP : list (codepoint * pystr) :=
  [ (224, lit "a"); (225, lit "a"); (226, lit "a"); (227, lit "a"); (228, lit "a");
    (229, lit "a"); (230, lit "ae");
    (231, lit "c"); (232, lit "e"); (233, lit "e"); (234, lit "e"); (235, lit "e");
    (236, lit "i"); (237, lit "i"); (238, lit "i"); (239, lit "i");
    (241, lit "n"); (242, lit "o"); (243, lit "o"); (244, lit "o"); (245, lit "o");
    (246, lit "o"); (248, lit "o");
    (249, lit "u"); (250, lit "u"); (251, lit "u"); (252, lit "u");
    (253, lit "y"); (255, lit "y"); (223, lit "ss") ]%N.

Definition MAX_FILENAME_LENGTH : Z := 180.

Definition mem_str (s : pystr) (l : list pystr) : bool := existsb (pystr_eqb s) l.

Definition is_system_file (filename : pystr) : bool := mem_str filename SYSTEM_FILES.

Definition normalize_unicode `{Unicode} (text : pystr) : pystr := normalize_nfkc text.

Definition transliterate (text : pystr) : pystr := translate TRANSLITERATION_MAP text.

Definition split_filename (filename : pystr) : pystr * pystr :=
  let parts := rsplit (ord ".") 2 filename in
  if (length parts =? 3)%nat && mem_str (nth 1 parts []) [lit "tar"; lit "backup"] then
    (nth 0 parts [], lit "." ++ nth 1 parts [] ++ lit "." ++ nth 2 parts [])
  else if (2 <=? length parts)%nat then
    (join (lit ".") (removelast parts), lit "." ++ last parts [])
  else
    (filename, []).

Definition ALNUM : pystr := lit "abcdefghijklmnopqrstuvwxyz0123456789".
Definition is_alnum (c : codepoint) : bool := in_str c ALNUM.
Definition is_sep (c : codepoint) : bool := in_str c (lit "-_").

(** The character loop of [sanitize_base_name]: the state is [result] and
    [prev_sep]. *)
Definition base_step (st : pystr * bool) (char : codepoint) : pystr * bool :=
  let '(result, prev_sep) := st in
  if in_str char ALNUM then (result ++ [char], false)
  else if in_str char (lit "-_") then
    match result with
    | _ :: _ => if negb prev_sep then (result ++ lit "-", true) else st
    | [] => st
    end
  else if in_str char [32; 9; 10; 13]%N then
    match result with
    | _ :: _ => if negb prev_sep then (result ++ lit "-", true) else st
    | [] => st
    end
  else st.

Definition base_loop (name : pystr) : pystr := fst (fold_left base_step name ([], false)).

Definition sanitize_base_name `{Unicode} (name : pystr) : pystr :=
  let name := str_lower (normalize_unicode name) in
  let name := transliterate name in
  let sanitized := base_loop name in
  let sanitized := rstrip (lit "-_") sanitized in
  let sanitized := re_sub_class_plus true (fun c => negb (is_alnum c)) [] sanitized in
  let sanitized := re_sub_class_plus false is_sep (lit "-") sanitized in
  match sanitized with
  | [] => lit "file"
  | _ => sanitized
  end.

Definition sanitize_extension `{Unicode} (ext : pystr) : pystr :=
  match ext with
  | [] => []
  | _ =>
      let ext := lstrip (lit ".") ext in
      let ext := str_lower ext in
      let ext := filter is_alnum ext in
      match ext with
      | [] => []
      | _ => lit "." ++ ext
      end
  end.

Definition check_reserved_name `{Unicode} (base_name : pystr) : pystr :=
  if mem_str (str_lower base_name) RESERVED_NAMES then lit "file_" ++ base_name
  else base_name.

Definition truncate_if_needed (base_name extension : pystr) : pystr :=
  let max_base_len := (MAX_FILENAME_LENGTH - len extension)%Z in
  if (max_base_len <? len base_name)%Z then rstrip (lit "-_") (slice_to base_name max_base_len)
  else base_name.

(** The patterns of [is_safe_filename]:
    [^\.[a-z0-9]+(\.[a-z0-9]+)?$] and [^[a-z0-9][a-z0-9_-]*[a-z0-9]$|^[a-z0-9]$]. *)
Definition cls_alnum (c : codepoint) : bool := in_range 97 122 c || in_range 48 57 c.
Definition cls_alnum_sep (c : codepoint) : bool :=
  in_range 97 122 c || in_range 48 57 c || N.eqb c (ord "_") || N.eqb c (ord "-").
Definition cls_dot (c : codepoint) : bool := N.eqb c (ord ".").

Definition EXT_RE : Re.regex :=
  Re.Seq (Re.Cls cls_dot)
    (Re.Seq (Re.plus (Re.Cls cls_alnum))
       (Re.opt (Re.Seq (Re.Cls cls_dot) (Re.plus (Re.Cls cls_alnum))))).
Definition BASE_RE_MANY : Re.regex :=
  Re.Seq (Re.Cls cls_alnum) (Re.Seq (Re.Star (Re.Cls cls_alnum_sep)) (Re.Cls cls_alnum)).
Definition BASE_RE_ONE : Re.regex := Re.Cls cls_alnum.

Definition is_safe_filename `{Unicode} (filename : pystr) : bool :=
  if negb (pystr_eqb filename (str_lower filename)) then false
  else
    let '(base, ext) := split_filename filename in
    if match ext with [] => false | _ => negb (Re.match_to_end EXT_RE ext) end then false
    else if negb (Re.match_to_end BASE_RE_MANY base || Re.match_to_end BASE_RE_ONE base) then false
    else if contains (lit "--") base || contains (lit "__") base
            || contains (lit "-_") base || contains (lit "_-") base then false
    else if (MAX_FILENAME_LENGTH <? len filename)%Z then false
    else true.

(** The eight-character suffix: the start of the SHA-256 of the original
    name's UTF-8 bytes. *)
Definition hash_suffix (original_name : pystr) : exc pystr :=
  match utf8_encode original_name with
  | Ok bytes => Ok (firstn 8 (Sha256.hexdigest bytes))
  | Raise m => Raise m
  end.

Definition add_collision_suffix (base_name extension original_name : pystr) : exc pystr :=
  match hash_suffix original_name with
  | Raise m => Raise m
  | Ok hash_suffix =>
      let suffix_part := lit "--" ++ hash_suffix in
      let max_base_len := (MAX_FILENAME_LENGTH - len extension - len suffix_part)%Z in
      let base_name :=
        if (max_base_len <? len base_name)%Z then rstrip (lit "-_") (slice_to base_name max_base_len)
        else base_name in
      Ok (base_name ++ suffix_part ++ extension)
  end.

Definition sanitize `{Unicode} (filename : pystr) : pystr :=
  let '(base, ext) := split_filename filename in
  let safe_base := sanitize_base_name base in
  let safe_ext := sanitize_extension ext in
  let safe_base := check_reserved_name safe_base in
  let safe_base := truncate_if_needed safe_base safe_ext in
  safe_base ++ safe_ext.

End Sanitizer.

(** ** src/renamer/factory.py *)

Module Factory.

(** [remote_pattern = r'^[a-zA-Z][\w-]*:(?![\\\/])']: the part before the
    lookahead, and the class the lookahead excludes. *)
Definition cls_letter (c : codepoint) : bool := in_range 97 122 c || in_range 65 90 c.
Definition cls_word_hyphen `{Unicode} (c : codepoint) : bool := is_word c || N.eqb c (ord "-").
Definition cls_colon (c : codepoint) : bool := N.eqb c (ord ":").
Definition cls_slash (c : codepoint) : bool := N.eqb c (ord "\") || N.eqb c (ord "/").

Definition REMOTE_RE `{Unicode} : Re.regex :=
  Re.Seq (Re.Cls cls_letter) (Re.Seq (Re.Star (Re.Cls cls_word_hyphen)) (Re.Cls cls_colon)).

(** [is_remote_path] on [path_str = str(path)]. *)
Definition is_remote_path `{Unicode} (path_str : pystr) : bool :=
  Re.match_not_followed REMOTE_RE cls_slash path_str.

End Factory.

(** ** src/renamer/domain/models.py and src/renamer/operations/base.py *)

Module Renamer.

Import Sanitizer.

(** A [pathlib.Path] as the orchestrator uses it: [.parent], [.name],
    [parent / name] and [Path(str(p) + suffix)]. *)
Record Path : Type := mkPath { parent : pystr; name : pystr }.

Definition path_join (parent : pystr) (name : pystr) : Path := mkPath parent name.
Definition path_add_suffix (p : Path) (suffix : pystr) : Path :=
  mkPath (parent p) (name p ++ suffix).

Definition path_eqb (p q : Path) : bool :=
  pystr_eqb (parent p) (parent q) && pystr_eqb (name p) (name q).

Record FileMetadata : Type := mkFileMetadata {
  original_name : pystr;
  safe_name : pystr;
  size_bytes : Z;
  hash_value : pystr;
  hash_algorithm : pystr;
  timestamp : pystr
}.

(** The constructor with its [__post_init__] check. *)
Definition FileMetadata_init (original_name safe_name : pystr) (size_bytes : Z)
    (hash_value hash_algorithm timestamp : pystr) : exc FileMetadata :=
  if mem_str hash_algorithm [lit "sha256"; lit "md5"] then
    Ok (mkFileMetadata original_name safe_name size_bytes hash_value hash_algorithm timestamp)
  else
    Raise (lit "Invalid hash algorithm: " ++ hash_algorithm ++ lit ". Must be 'sha256' or 'md5'").

Record SidecarContent : Type := mkSidecarContent {
  schema : pystr;
  original_filename : pystr;
  safe_filename : pystr;
  file_size_bytes : Z;
  hash : pystr;
  sc_hash_algorithm : pystr;
  renamed_at : pystr
}.

Definition from_metadata (m : FileMetadata) : SidecarContent :=
  mkSidecarContent (lit "it.infrastructures.filemeta.v1") (original_name m) (safe_name m)
    (size_bytes m) (hash_value m) (hash_algorithm m) (timestamp m).

Record RenameResult : Type := mkRenameResult {
  original_path : Path;
  success : bool;
  new_path : option Path;
  sidecar_path : option Path;
  error : option pystr;
  skipped : bool
}.

(** The three static constructors [RenameResult.success], [.skipped] and
    [.failure]. *)
Definition result_success (original_path new_path sidecar_path : Path) : RenameResult :=
  mkRenameResult original_path true (Some new_path) (Some sidecar_path) None false.
Definition result_skipped (original_path : Path) (reason : pystr) : RenameResult :=
  mkRenameResult original_path true None None (Some reason) true.
Definition result_failure (original_path : Path) (error : pystr) : RenameResult :=
  mkRenameResult original_path false None None (Some error) false.

(** The calls the orchestrator makes on what was injected into it. *)
Inductive Call : Type :=
| CallExists (p : Path)
| CallRename (old_path new_path : Path)
| CallHash (p : Path)
| CallSize (p : Path)
| CallSidecar (p : Path) (content : SidecarContent)
| CallList (directory : Path) (recursive : bool).

Section Orchestrator.

Context {U : Unicode}.

(** The state of whatever the backend talks to: a filesystem, a remote. *)
Variable W : Type.

(** The injected capabilities and the two hooks of the subclass.  Each may
    change the world and may raise. *)
Record Backend : Type := mkBackend {
  file_exists : Path -> W -> exc bool * W;
  list_files : Path -> bool -> W -> exc (list Path) * W;
  _perform_rename : Path -> Path -> W -> exc unit * W;
  _get_file_size : Path -> W -> exc Z * W;
  compute_hash : Path -> W -> exc pystr * W;
  algorithm_name : pystr;
  write_sidecar : Path -> SidecarContent -> W -> exc Path * W;
  now_isoformat : W -> pystr
}.

(** The world, and the log of the calls made so far. *)
Record St : Type := mkSt { world : W; log : list Call }.

Definition M (A : Type) : Type := St -> exc A * St.

Definition ret {A : Type} (a : A) : M A := fun st => (Ok a, st).

Definition bind {A B : Type} (m : M A) (k : A -> M B) : M B :=
  fun st =>
    match m st with
    | (Ok a, st') => k a st'
    | (Raise e, st') => (Raise e, st')
    end.

Definition lift_exc {A : Type} (r : exc A) : M A := fun st => (r, st).

(** [try: m except Exception as e: handler(str(e))]. *)
Definition try_except {A : Type} (m : M A) (handler : pystr -> M A) : M A :=
  fun st =>
    match m st with
    | (Ok a, st') => (Ok a, st')
    | (Raise e, st') => handler e st'
    end.

(** One call on the backend: it is logged, then run on the world. *)
Definition call {A : Type} (ev : Call) (op : W -> exc A * W) : M A :=
  fun st =>
    let '(r, w') := op (world st) in
    (r, mkSt w' (log st ++ [ev])).

Definition now (b : Backend) : M pystr := fun st => (Ok (now_isoformat b (world st)), st).

Notation "x <- m ;; k" := (bind m (fun x => k))
  (at level 61, m at next level, right associativity).

(** The body of the [try] block of [rename_file] (the logger calls apart). *)
Definition rename_file_body (b : Backend) (file_path : Path) (dry_run : bool) : M RenameResult :=
  let filename := name file_path in
  if is_system_file filename then ret (result_skipped file_path (lit "System file"))
  else if is_safe_filename filename then ret (result_skipped file_path (lit "Already safe"))
  else
    let safe_name := sanitize filename in
    let parent := parent file_path in
    let new_path := path_join parent safe_name in
    occupied <- call (CallExists new_path) (file_exists b new_path) ;;
    target <- (if occupied : bool then
                 let '(base, ext) := split_filename safe_name in
                 safe_name <- lift_exc (add_collision_suffix base ext filename) ;;
                 ret (safe_name, path_join parent safe_name)
               else ret (safe_name, new_path)) ;;
    let '(safe_name, new_path) := target in
    if dry_run then
      ret (result_success file_path new_path (path_add_suffix new_path (lit ".meta.json")))
    else
      _ <- call (CallRename file_path new_path) (_perform_rename b file_path new_path) ;;
      file_hash <- call (CallHash new_path) (compute_hash b new_path) ;;
      file_size <- call (CallSize new_path) (_get_file_size b new_path) ;;
      stamp <- now b ;;
      metadata <- lift_exc (FileMetadata_init filename safe_name file_size file_hash
                              (algorithm_name b) stamp) ;;
      let sidecar_content := from_metadata metadata in
      sidecar_path <- call (CallSidecar new_path sidecar_content)
                        (write_sidecar b new_path sidecar_content) ;;
      ret (result_success file_path new_path sidecar_path).

Definition rename_file (b : Backend) (file_path : Path) (dry_run : bool) : M RenameResult :=
  try_except (rename_file_body b file_path dry_run)
    (fun e => ret (result_failure file_path e)).

(** The [for] loop of [rename_directory]: [results] grows by one outcome a
    file; an exception leaves the loop with what [results] holds. *)
Fixpoint rename_loop (b : Backend) (dry_run : bool) (files : list Path)
    (results : list RenameResult) (st : St) : list RenameResult * option pystr * St :=
  match files with
  | [] => (results, None, st)
  | file_path :: rest =>
      match rename_file b file_path dry_run st with
      | (Ok result, st') => rename_loop b dry_run rest (results ++ [result]) st'
      | (Raise e, st') => (results, Some e, st')
      end
  end.

(** [rename_directory]: its [except Exception] clause logs the error and
    falls through to [return results]. *)
Definition rename_directory (b : Backend) (directory : Path) (recursive dry_run : bool)
    : M (list RenameResult) :=
  fun st =>
    match call (CallList directory recursive) (list_files b directory recursive) st with
    | (Ok files, st1) =>
        let '(results, _, st2) := rename_loop b dry_run files [] st1 in
        (Ok results, st2)
    | (Raise _, st1) => (Ok [], st1)
    end.

End Orchestrator.

(** An in-memory backend for the concrete runs: the world is the list of the
    paths that exist.  [fail_rename] says for which files the rename raises;
    [probe_fails] and [listing_fails] make the probe and the listing raise. *)
Definition memfs (fail_rename : Path -> bool) (probe_fails listing_fails : bool)
    (listing : list Path) : Backend (list Path) :=
  {| file_exists := fun p w =>
       if probe_fails then (Raise (lit "[Errno 2] No such file or directory: 'rclone'"), w)
       else (Ok (existsb (path_eqb p) w), w);
     list_files := fun _ _ w =>
       if listing_fails then (Raise (lit "directory unreachable"), w) else (Ok listing, w);
     _perform_rename := fun old_path new_path w =>
       if fail_rename old_path then (Raise (lit "Local rename failed: permission denied"), w)
       else (Ok tt, new_path :: filter (fun q => negb (path_eqb old_path q)) w);
     _get_file_size := fun _ w => (Ok 0%Z, w);
     compute_hash := fun _ w => (Ok (lit "e3b0c442"), w);
     algorithm_name := lit "sha256";
     write_sidecar := fun p _ w =>
       (Ok (path_add_suffix p (lit ".meta.json")), path_add_suffix p (lit ".meta.json") :: w);
     now_isoformat := fun _ => lit "2025-01-01T10:00:00" |}.

End Renamer.

(** ** src/renamer/domain/models.py ([OperationStats]), [get_stats] of
    src/renamer/operations/base.py, and the end of [main] in
    src/renamer_cli.py *)

Module Stats.

Import Renamer.

Record OperationStats : Type := mkOperationStats {
  total_files : Z;
  renamed : Z;
  skipped : Z;
  errors : Z
}.

Definition increment_total (self : OperationStats) : OperationStats :=
  mkOperationStats (total_files self + 1) (renamed self) (skipped self) (errors self).
Definition increment_renamed (self : OperationStats) : OperationStats :=
  mkOperationStats (total_files self) (renamed self + 1) (skipped self) (errors self).
Definition increment_skipped (self : OperationStats) : OperationStats :=
  mkOperationStats (total_files self) (renamed self) (skipped self + 1) (errors self).
Definition increment_errors (self : OperationStats) : OperationStats :=
  mkOperationStats (total_files self) (renamed self) (skipped self) (errors self + 1).

(** [sum(1 for r in results if cond(r))]. *)
Definition sum_ones {A : Type} (cond : A -> bool) (results : list A) : Z :=
  fold_left (fun acc r => if cond r then (acc + 1)%Z else acc) results 0%Z.

Definition get_stats (results : list RenameResult) : OperationStats :=
  mkOperationStats
    (Z.of_nat (length results))
    (sum_ones (fun r => success r && negb (Renamer.skipped r)) results)
    (sum_ones (fun r => Renamer.skipped r) results)
    (sum_ones (fun r => negb (success r)) results).

(** [main] from the call of [rename_directory] on, for the renamer the
    factory returned: the statistics, then the exit code (printing, logging
    and timing apart).  An exception would be caught and give 1. *)
Definition main `{Unicode} {W : Type} (renamer : Backend W) (target_path : Path)
    (dry_run : bool) (st : St W) : Z * St W :=
  match rename_directory renamer target_path true dry_run st with
  | (Ok results, st') =>
      let stats := get_stats results in
      (if (0 <? errors stats)%Z then 1%Z else 0%Z, st')
  | (Raise _, st') => (1%Z, st')
  end.

End Stats.

(** ** src/renamer/core/sidecar.py and [SidecarContent.to_dict] *)

Module Sidecar.

Import Renamer.

(** What [json.load] returns, and what [json.dump] takes. *)
#[warnings="-register-all"] Inductive json : Type :=
| JNull
| JBool (b : bool)
| JInt (n : Z)
| JFloat (repr : pystr)
| JStr (s : pystr)
| JList (items : list json)
| JDict (members : list (pystr * json)).

Definition type_name (v : json) : pystr :=
  match v with
  | JNull => lit "NoneType"
  | JBool _ => lit "bool"
  | JInt _ => lit "int"
  | JFloat _ => lit "float"
  | JStr _ => lit "str"
  | JList _ => lit "list"
  | JDict _ => lit "dict"
  end.

(** [d.get(key)] and [d.get(key, default)]. *)
Fixpoint dict_get (members : list (pystr * json)) (key : pystr) : option json :=
  match members with
  | [] => None
  | (k, v) :: rest => if pystr_eqb k key then Some v else dict_get rest key
  end.

Definition dict_get_default (members : list (pystr * json)) (key : pystr) (default : json)
    : json :=
  match dict_get members key with
  | Some v => v
  | None => default
  end.

Definition to_dict (self : SidecarContent) : list (pystr * json) :=
  [(lit "schema", JStr (Renamer.schema self));
   (lit "original_filename", JStr (Renamer.original_filename self));
   (lit "safe_filename", JStr (Renamer.safe_filename self));
   (lit "file_size_bytes", JInt (Renamer.file_size_bytes self));
   (lit "hash", JStr (Renamer.hash self));
   (lit "hash_algorithm", JStr (sc_hash_algorithm self));
   (lit "renamed_at", JStr (Renamer.renamed_at self))].

(** The [SidecarContent] a reader builds: its fields hold whatever the
    document holds under the keys. *)
Record SidecarRead : Type := mkSidecarRead {
  schema : json;
  original_filename : json;
  safe_filename : json;
  file_size_bytes : json;
  hash : json;
  hash_algorithm : json;
  renamed_at : json
}.

(** [read_sidecar] once the document [data] is loaded: the schema check and
    the construction.  [default_algorithm] is ['sha256'] in
    [LocalSidecarWriter] and ['md5'] in [RcloneSidecarWriter].  On a
    document that is not an object [data.get] raises [AttributeError],
    which the [except] clause does not list. *)
Definition read_sidecar_data (default_algorithm : pystr) (data : json)
    : exc (option SidecarRead) :=
  match data with
  | JDict members =>
      if negb (match dict_get members (lit "schema") with
               | Some (JStr s) => pystr_eqb s (lit "it.infrastructures.filemeta.v1")
               | _ => false
               end)
      then Ok None
      else
        Ok (Some (mkSidecarRead
                    (dict_get_default members (lit "schema") JNull)
                    (dict_get_default members (lit "original_filename") (JStr []))
                    (dict_get_default members (lit "safe_filename") (JStr []))
                    (dict_get_default members (lit "file_size_bytes") (JInt 0))
                    (dict_get_default members (lit "hash") (JStr []))
                    (dict_get_default members (lit "hash_algorithm") (JStr default_algorithm))
                    (dict_get_default members (lit "renamed_at") (JStr []))))
  | _ => Raise (lit "'" ++ type_name data ++ lit "' object has no attribute 'get'")
  end.

End Sidecar.

(** ** src/renamer/core/hash_strategy.py *)

Module HashStrategy.

Section Reading.

(** The sizes the platform or the machine does not serve: for those
    [f.read(n)] raises before it reads anything (OverflowError for a size
    outside the platform's size type or too large for a byte string,
    MemoryError), with this message. *)
Variable read_refused : Z -> option pystr.

(** [f.read(n)] on what is left of a file opened in binary mode: the chunk
    read and what is left after it.  A size of -1 reads all that is left, a
    size below -1 raises ValueError, any other size reads at most [n]
    bytes. *)
Definition file_read (n : Z) (rest : list N) : exc (list N * list N) :=
  match read_refused n with
  | Some msg => Raise msg
  | None =>
      if (n <? -1)%Z then Raise (lit "read length must be non-negative or -1")
      else if (n <? 0)%Z then Ok (rest, [])
      else Ok (firstn (Z.to_nat n) rest, skipn (Z.to_nat n) rest)
  end.

(** The loop of [SHA256HashComputer.compute_hash]:
    [while chunk := f.read(self._chunk_size): sha256.update(chunk)].
    The hash object is the bytes fed to it so far ([update] appends).  What
    [read] raises leaves the loop: the [except IOError] clause re-raises
    what it catches, and catches neither ValueError nor OverflowError. *)
Fixpoint read_loop (fuel : nat) (chunk_size : Z) (rest fed : list N)
    : option (exc (list N)) :=
  match fuel with
  | O => None
  | S fuel' =>
      match file_read chunk_size rest with
      | Raise msg => Some (Raise msg)
      | Ok ([], _) => Some (Ok fed)
      | Ok (chunk, rest') => read_loop fuel' chunk_size rest' (fed ++ chunk)
      end
  end.

(** [compute_hash] on a file that opens, of content [content]. *)
Definition sha256_compute_hash (fuel : nat) (chunk_size : Z) (content : list N)
    : option (exc pystr) :=
  match read_loop fuel chunk_size content [] with
  | Some (Ok fed) => Some (Ok (Sha256.hexdigest fed))
  | Some (Raise msg) => Some (Raise msg)
  | None => None
  end.

End Reading.

End HashStrategy.

(** ** rclone: src/renamer/operations/remote.py and [MD5HashComputer] *)

Module Rclone.

(** [c.isspace()]: general category Zs, or bidirectional class WS, B or S. *)
Definition isspace (c : codepoint) : bool :=
  in_range 9 13 c || in_range 28 32 c || N.eqb c 133 || N.eqb c 160 || N.eqb c 5760
  || in_range 8192 8202 c || N.eqb c 8232 || N.eqb c 8233 || N.eqb c 8239
  || N.eqb c 8287 || N.eqb c 12288.

(** [s.strip()]. *)
Definition strip (s : pystr) : pystr :=
  rev (drop_while isspace (rev (drop_while isspace s))).

(** [s.split()]: the maximal runs of characters that are not whitespace.
    [word] is the run being read. *)
Fixpoint split_from (word : pystr) (s : pystr) : list pystr :=
  match s with
  | [] => match word with [] => [] | _ => [word] end
  | c :: s' =>
      if isspace c then
        match word with
        | [] => split_from [] s'
        | _ => word :: split_from [] s'
        end
      else split_from (word ++ [c]) s'
  end.

Definition split (s : pystr) : list pystr := split_from [] s.

(** What [subprocess.run(cmd, capture_output=True, text=True, check=True)]
    does: it returns with the captured output, raises [CalledProcessError]
    (of which the code reads [stderr] and [str(e)]), or raises something
    else, as when the executable is missing. *)
Inductive outcome : Type :=
| Completed (stdout : pystr)
| CalledProcessError (stderr : pystr) (str_e : pystr)
| OtherError (str_e : pystr).

Section Remote.

(** The remote, and rclone run on it with the given arguments. *)
Variable R : Type.
Variable run_rclone : list pystr -> R -> outcome * R.

(** The state: the remote and the command lines run so far. *)
Definition RSt : Type := (R * list (list pystr))%type.

Definition _run_rclone (args : list pystr) (st : RSt) : outcome * RSt :=
  let '(r, w') := run_rclone args (fst st) in
  (r, (w', snd st ++ [args])).

(** [e.stderr.strip() if e.stderr else str(e)]. *)
Definition error_msg (stderr str_e : pystr) : pystr :=
  match stderr with
  | [] => str_e
  | _ => strip stderr
  end.

(** [RemoteFileRenamer._perform_rename], on [str(old_path)] and
    [str(new_path)]: copy, verify, delete. *)
Definition _perform_rename (old_path new_path : pystr) (st : RSt) : exc unit * RSt :=
  match _run_rclone [lit "copyto"; old_path; new_path] st with
  | (Completed _, st1) =>
      match _run_rclone [lit "lsf"; lit "--files-only"; new_path] st1 with
      | (Completed stdout, st2) =>
          match strip stdout with
          | [] => (Raise (lit "Copy verification failed: " ++ new_path ++ lit " not found"), st2)
          | _ =>
              match _run_rclone [lit "deletefile"; old_path] st2 with
              | (Completed _, st3) => (Ok tt, st3)
              | (CalledProcessError stderr str_e, st3) =>
                  (Raise (lit "Remote rename failed: " ++ error_msg stderr str_e), st3)
              | (OtherError str_e, st3) => (Raise str_e, st3)
              end
          end
      | (CalledProcessError stderr str_e, st2) =>
          (Raise (lit "Remote rename failed: " ++ error_msg stderr str_e), st2)
      | (OtherError str_e, st2) => (Raise str_e, st2)
      end
  | (CalledProcessError stderr str_e, st1) =>
      (Raise (lit "Remote rename failed: " ++ error_msg stderr str_e), st1)
  | (OtherError str_e, st1) => (Raise str_e, st1)
  end.

(** [RemoteFileOperations.file_exists]. *)
Definition file_exists (file_path : pystr) (st : RSt) : exc bool * RSt :=
  match _run_rclone [lit "lsf"; lit "--files-only"; file_path] st with
  | (Completed stdout, st1) =>
      (Ok (match strip stdout with [] => false | _ => true end), st1)
  | (CalledProcessError _ _, st1) => (Ok false, st1)
  | (OtherError str_e, st1) => (Raise str_e, st1)
  end.

(** [RemoteFileOperations.rename_file]: the same steps, the verification
    through [file_exists]. *)
Definition rename_file (old_path new_path : pystr) (st : RSt) : exc unit * RSt :=
  match _run_rclone [lit "copyto"; old_path; new_path] st with
  | (Completed _, st1) =>
      match file_exists new_path st1 with
      | (Ok true, st2) =>
          match _run_rclone [lit "deletefile"; old_path] st2 with
          | (Completed _, st3) => (Ok tt, st3)
          | (CalledProcessError stderr str_e, st3) =>
              (Raise (lit "Remote rename failed: " ++ error_msg stderr str_e), st3)
          | (OtherError str_e, st3) => (Raise str_e, st3)
          end
      | (Ok false, st2) =>
          (Raise (lit "Copy verification failed: " ++ new_path ++ lit " not found"), st2)
      | (Raise str_e, st2) => (Raise str_e, st2)
      end
  | (CalledProcessError stderr str_e, st1) =>
      (Raise (lit "Remote rename failed: " ++ error_msg stderr str_e), st1)
  | (OtherError str_e, st1) => (Raise str_e, st1)
  end.

(** [MD5HashComputer.compute_hash]: the first word of the output of
    [rclone md5sum].  The [IOError] for an empty output is raised inside the
    [try] and caught by its [except Exception] clause, which wraps it. *)
Definition compute_hash (file_path : pystr) (st : RSt) : exc pystr * RSt :=
  match _run_rclone [lit "md5sum"; file_path] st with
  | (Completed stdout, st1) =>
      let output := strip stdout in
      match output with
      | [] => (Raise (lit "Failed to compute MD5 hash: " ++
                      (lit "No MD5 hash returned for " ++ file_path)), st1)
      | _ =>
          match split output with
          | hash_value :: _ => (Ok hash_value, st1)
          | [] => (Raise (lit "Failed to compute MD5 hash: list index out of range"), st1)
          end
      end
  | (CalledProcessError stderr str_e, st1) =>
      (Raise (lit "Failed to compute MD5 hash: " ++ error_msg stderr str_e), st1)
  | (OtherError str_e, st1) => (Raise (lit "Failed to compute MD5 hash: " ++ str_e), st1)
  end.

End Remote.

End Rclone.

(** * The vocabulary of the statements *)

Unset Implicit Arguments.

Import Sanitizer.

(** ** Strings and patterns *)

Definition no_sep (sep : codepoint) (s : pystr) : Prop := forall c, In c s -> c <> sep.

(** What a negative lookahead for one character of [cls] asks of the rest
    of the string. *)
Definition not_followed_by (cls : codepoint -> bool) (rest : pystr) : bool :=
  negb (match rest with c :: _ => cls c | [] => false end).

(** All of [s] is ASCII or a Latin-1 letter. *)
Definition latin_text (s : pystr) : Prop := forall c, In c s -> nfkc_fixed c = true.

(** ** The shape of a sanitized name

    [seps_single sep prev s]: every character of [s] is alphanumeric or a
    separator of [sep], and no separator follows another ([prev] says
    whether one stands just before [s]). *)

Fixpoint seps_single (sep : codepoint -> bool) (prev_sep : bool) (s : pystr) : bool :=
  match s with
  | [] => true
  | c :: s' =>
      if is_alnum c then seps_single sep false s'
      else if sep c then negb prev_sep && seps_single sep true s'
      else false
  end.

(** Starts and ends with an alphanumeric character, separators single. *)
Definition shaped (sep : codepoint -> bool) (s : pystr) : bool :=
  seps_single sep true s && is_alnum (last s 0%N).

Definition is_dash (c : codepoint) : bool := N.eqb c (ord "-").

(** Whether a separator stands at the end of [r] ([prev_sep] when [r] is
    empty). *)
Definition end_flag (prev_sep : bool) (r : pystr) : bool :=
  match r with
  | [] => prev_sep
  | _ => negb (is_alnum (last r 0%N))
  end.

(** The invariant of the character loop of [sanitize_base_name]. *)
Definition loop_inv (st : pystr * bool) : Prop :=
  seps_single is_dash true (fst st) = true /\
  (fst st <> [] -> snd st = negb (is_alnum (last (fst st) 0%N))).

(** What [sanitize_base_name] does after the loop. *)
Definition finish (sanitized : pystr) : pystr :=
  let sanitized := rstrip (lit "-_") sanitized in
  let sanitized := re_sub_class_plus true (fun c => negb (is_alnum c)) [] sanitized in
  let sanitized := re_sub_class_plus false is_sep (lit "-") sanitized in
  match sanitized with
  | [] => lit "file"
  | _ => sanitized
  end.

(** Empty, or a dot and one or more alphanumeric characters. *)
Definition ext_shaped (e : pystr) : bool :=
  match e with
  | [] => true
  | d :: body =>
      N.eqb d (ord ".") && match body with [] => false | _ => true end && forallb is_alnum body
  end.

(** The characters of a sanitized base. *)
Definition plain (c : codepoint) : bool := is_alnum c || is_sep c.

(** Not a key of the transliteration table. *)
Definition unmapped (c : codepoint) : bool :=
  match table_get TRANSLITERATION_MAP c with
  | None => true
  | Some _ => false
  end.

(** The two parts [sanitize] concatenates: the base after the
    reserved-name check and the truncation, and the extension. *)
Definition safe_parts {U : Unicode} (filename : pystr) : pystr * pystr :=
  let '(base, ext) := split_filename filename in
  let safe_ext := sanitize_extension ext in
  (truncate_if_needed (check_reserved_name (sanitize_base_name base)) safe_ext, safe_ext).

(** The pattern of [is_remote_path] in the words of the specification: an
    initial letter, then word characters or hyphens, then a colon that is
    not immediately followed by a slash or a backslash. *)
Definition remote_form {U : Unicode} (s : pystr) : Prop :=
  exists l w rest,
    s = l :: w ++ ord ":" :: rest /\
    ((97 <= l <= 122)%N \/ (65 <= l <= 90)%N) /\
    (forall c, In c w -> is_word c = true \/ c = ord "-") /\
    (rest = [] \/ exists c rest', rest = c :: rest' /\ c <> ord "/" /\ c <> ord "\").

(** ** The characters of a sanitized name *)

(** The whitelist: a-z, 0-9, hyphen, underscore, dot. *)
Definition allowed (c : codepoint) : bool := is_alnum c || is_sep c || N.eqb c (ord ".").

(** The characters that can occur in a string a pattern matches. *)
Fixpoint may_occur (r : Re.regex) (c : codepoint) : bool :=
  match r with
  | Re.Void => false
  | Re.Eps => false
  | Re.Cls p => p c
  | Re.Seq r1 r2 => may_occur r1 c || may_occur r2 c
  | Re.Alt r1 r2 => may_occur r1 c || may_occur r2 c
  | Re.Star r1 => may_occur r1 c
  end.

(** ** The steps of the orchestrator *)

Import Renamer.

(** The name the orchestrator asks the resolver for: base and extension
    are those of the sanitized name, the hash is that of the original. *)
Definition collision_name {U : Unicode} (filename : pystr) : exc pystr :=
  let safe_name := sanitize filename in
  let '(base, ext) := split_filename safe_name in
  add_collision_suffix base ext filename.

Definition sidecar_of (p : Path) : Path := path_add_suffix p (lit ".meta.json").

(** The calls of a live run on one file, in the order of the source: the
    probe of the candidate, then the rename, the hash, the size and the
    sidecar write on the destination. *)
Definition live_calls (file_path target : Path) (content : SidecarContent) : list Call :=
  [CallRename file_path target; CallHash target; CallSize target; CallSidecar target content].

(** A content to stand where no sidecar call is made. *)
Definition no_content : SidecarContent := mkSidecarContent [] [] [] 0 [] [] [].

Definition protocol (file_path candidate target : Path) (content : SidecarContent) : list Call :=
  CallExists candidate :: live_calls file_path target content.

Definition is_exists_call (c : Call) : bool :=
  match c with
  | CallExists _ => true
  | _ => false
  end.

(** An outcome built by one of the three constructors of [RenameResult]. *)
Definition constructed (r : RenameResult) : Prop :=
  (exists new_path sidecar_path, r = result_success (original_path r) new_path sidecar_path) \/
  (exists reason, r = result_skipped (original_path r) reason) \/
  (exists error, r = result_failure (original_path r) error).

(** What the resolver keeps of the base: all of it when base, the ten
    characters of the suffix and the extension fit in the limit; else its
    first [180 - len(extension) - 10] characters, without the hyphens and
    underscores that end them. *)
Definition kept_base (base_name extension : pystr) : pystr :=
  let max_base_len := (MAX_FILENAME_LENGTH - len extension - 10)%Z in
  if (max_base_len <? len base_name)%Z
  then rstrip (lit "-_") (slice_to base_name max_base_len)
  else base_name.


(** The same backend with a hash computer of another algorithm name. *)
Definition with_algorithm {W : Type} (b : Backend W) (algorithm : pystr) : Backend W :=
  mkBackend (file_exists b) (list_files b) (_perform_rename b) (_get_file_size b)
    (compute_hash b) algorithm (write_sidecar b) (now_isoformat b).

Section Steps.

Context {U : Unicode} {W : Type}.
Variable b : Backend W.

(** The destination [rename_file] settles on, after the probe. *)
Definition resolve_target (file_path : Path) : M W (pystr * Path) :=
  let filename := name file_path in
  let candidate := path_join (parent file_path) (sanitize filename) in
  fun st =>
    match file_exists b candidate (world st) with
    | (Ok false, w) => (Ok (sanitize filename, candidate), mkSt w (log st ++ [CallExists candidate]))
    | (Ok true, w) =>
        match collision_name filename with
        | Ok n => (Ok (n, path_join (parent file_path) n), mkSt w (log st ++ [CallExists candidate]))
        | Raise e => (Raise e, mkSt w (log st ++ [CallExists candidate]))
        end
    | (Raise e, w) => (Raise e, mkSt w (log st ++ [CallExists candidate]))
    end.

(** What is left of the body after the probe, on a live run. *)
Definition execute (file_path : Path) (target : pystr * Path) : M W RenameResult :=
  let '(safe_name, new_path) := target in
  bind (call (CallRename file_path new_path) (_perform_rename b file_path new_path)) (fun _ =>
  bind (call (CallHash new_path) (compute_hash b new_path)) (fun file_hash =>
  bind (call (CallSize new_path) (_get_file_size b new_path)) (fun file_size =>
  bind (now b) (fun stamp =>
  bind (lift_exc (FileMetadata_init (name file_path) safe_name file_size file_hash
                    (algorithm_name b) stamp)) (fun metadata =>
  bind (call (CallSidecar new_path (from_metadata metadata))
          (write_sidecar b new_path (from_metadata metadata))) (fun sidecar_path =>
  ret (result_success file_path new_path sidecar_path))))))).

Variable dry_run : bool.

(** The outcomes of a batch, file after file, each on the state the one
    before left. *)
Inductive chained : list Path -> St W -> list RenameResult -> St W -> Prop :=
| chained_nil st : chained [] st [] st
| chained_cons f files st r st1 rs st2 :
    rename_file b f dry_run st = (Ok r, st1) ->
    chained files st1 rs st2 ->
    chained (f :: files) st (r :: rs) st2.

End Steps.

(** The name and the destination [rename_file] goes on with after the
    probe: the candidate when the probe finds it free, the name the resolver
    returns when the probe finds it occupied. *)
Definition settles {U : Unicode} {W : Type} (b : Backend W) (file_path : Path) (st : St W)
    (safe_name : pystr) (target : Path) : Prop :=
  let candidate := path_join (parent file_path) (sanitize (name file_path)) in
  (fst (file_exists b candidate (world st)) = Ok false /\
   safe_name = sanitize (name file_path) /\ target = candidate) \/
  (fst (file_exists b candidate (world st)) = Ok true /\
   collision_name (name file_path) = Ok safe_name /\
   target = path_join (parent file_path) safe_name).

(** ** Sidecars as documents, and words *)

(** The typed content as a reader holds it. *)
Definition as_read (c : SidecarContent) : Sidecar.SidecarRead :=
  Sidecar.mkSidecarRead
    (Sidecar.JStr (schema c)) (Sidecar.JStr (original_filename c))
    (Sidecar.JStr (safe_filename c)) (Sidecar.JInt (file_size_bytes c))
    (Sidecar.JStr (hash c)) (Sidecar.JStr (sc_hash_algorithm c))
    (Sidecar.JStr (renamed_at c)).

(** Not whitespace. *)
Definition not_space (c : codepoint) : bool := negb (Rclone.isspace c).

(** ** The files and backends of the concrete runs *)

Definition demo_dir : pystr := lit "/data".
Definition demo_first : Path := mkPath demo_dir (lit "A B.txt").
Definition demo_second : Path := mkPath demo_dir (lit "a b.txt").
Definition demo_files : list Path := [demo_first; demo_second].



(** * Verification *)

(** ** Code points: deciding a property of the ASCII range by running it *)

Lemma forall_below (P : codepoint -> bool) (n : nat) :
  forallb P (map N.of_nat (seq 0 n)) = true ->
  forall c, (c < N.of_nat n)%N -> P c = true.
Proof.
  intros H c Hc.
  rewrite forallb_forall in H. apply H.
  apply in_map_iff. exists (N.to_nat c). split.
  - apply N2Nat.id.
  - apply in_seq. lia.
Qed.

Lemma in_str_bound (c : codepoint) (chars : pystr) (hi : N) :
  forallb (fun x => N.leb x hi) chars = true -> in_str c chars = true -> (c <= hi)%N.
Proof.
  intros Hall Hin. unfold in_str in Hin.
  apply existsb_exists in Hin. destruct Hin as [x [Hx Heq]].
  apply N.eqb_eq in Heq. subst x.
  rewrite forallb_forall in Hall. apply N.leb_le. now apply Hall.
Qed.

(** A boolean property that holds of every code point below 128 and that
    is trivial above. *)
Lemma ascii_cases (P : codepoint -> bool) :
  forallb P (map N.of_nat (seq 0 128)) = true ->
  (forall c, (128 <= c)%N -> P c = true) ->
  forall c, P c = true.
Proof.
  intros Hlow Hhigh c.
  destruct (N.lt_ge_cases c 128) as [Hc | Hc].
  - apply (forall_below P 128 Hlow). exact Hc.
  - now apply Hhigh.
Qed.

Lemma in_range_spec lo hi c : in_range lo hi c = true <-> (lo <= c <= hi)%N.
Proof.
  unfold in_range. rewrite andb_true_iff, !N.leb_le. tauto.
Qed.

Lemma in_range_high lo hi c : (hi < c)%N -> in_range lo hi c = false.
Proof.
  intros H. destruct (in_range lo hi c) eqn:E; [|reflexivity].
  apply in_range_spec in E. lia.
Qed.

Lemma in_str_high (c : codepoint) (chars : pystr) :
  forallb (fun x => N.leb x 127) chars = true -> (128 <= c)%N -> in_str c chars = false.
Proof.
  intros Hall Hc. destruct (in_str c chars) eqn:E; [|reflexivity].
  apply (in_str_bound c chars 127 Hall) in E. lia.
Qed.

Lemma eqb_high (c k : N) : (k < 128)%N -> (128 <= c)%N -> N.eqb c k = false.
Proof. intros. apply N.eqb_neq. lia. Qed.

Lemma is_alnum_cls c : is_alnum c = cls_alnum c.
Proof.
  apply Bool.eqb_prop. revert c. apply ascii_cases.
  - vm_compute. reflexivity.
  - intros c Hc. unfold is_alnum, cls_alnum.
    rewrite in_str_high by (try reflexivity; assumption).
    rewrite !in_range_high by lia. reflexivity.
Qed.

Lemma is_alnum_ascii c : is_alnum c = true -> (c < 128)%N.
Proof.
  rewrite is_alnum_cls. unfold cls_alnum. rewrite orb_true_iff, !in_range_spec. lia.
Qed.

Lemma is_sep_spec c : is_sep c = true <-> c = ord "-" \/ c = ord "_".
Proof.
  unfold is_sep, in_str. simpl. rewrite !orb_true_iff, !N.eqb_eq. intuition congruence.
Qed.

Lemma alnum_not_sep c : is_alnum c = true -> is_sep c = false.
Proof.
  intros H. destruct (is_sep c) eqn:E; [|reflexivity].
  apply is_sep_spec in E. destruct E; subst; vm_compute in H; discriminate.
Qed.

Lemma alnum_not_dot c : is_alnum c = true -> N.eqb c (ord ".") = false.
Proof.
  intros H. apply N.eqb_neq. intros ->. vm_compute in H. discriminate.
Qed.

Lemma lower1_alnum c : is_alnum c = true -> lower1 c = c.
Proof.
  rewrite is_alnum_cls. unfold cls_alnum, lower1.
  rewrite orb_true_iff, !in_range_spec. intros H.
  destruct (in_range 65 90 c) eqn:E1.
  { apply in_range_spec in E1. lia. }
  destruct (in_range 192 222 c) eqn:E2.
  { apply in_range_spec in E2. lia. }
  reflexivity.
Qed.

(** ** The matcher agrees with what a regular expression denotes *)

Module ReFacts.

Import Re.

Lemma nullable_spec r : nullable r = true <-> lang r [].
Proof.
  split.
  - induction r; simpl; intros H; try discriminate.
    + constructor.
    + apply andb_true_iff in H. destruct H.
      change (@nil codepoint) with (@nil codepoint ++ []). constructor; auto.
    + apply orb_true_iff in H. destruct H; [apply L_alt_l | apply L_alt_r]; auto.
    + constructor.
  - intros H. remember (@nil codepoint) as s eqn:E.
    induction H; simpl; try reflexivity; try discriminate.
    + apply app_eq_nil in E. destruct E. rewrite IHlang1, IHlang2; auto.
    + rewrite IHlang; auto.
    + rewrite IHlang; auto. apply orb_true_r.
Qed.

Lemma deriv_sound c r : forall s, lang (deriv c r) s -> lang r (c :: s).
Proof.
  induction r; simpl; intros s H.
  - inversion H.
  - inversion H.
  - destruct (p c) eqn:E; inversion H; subst. now constructor.
  - destruct (nullable r1) eqn:E.
    + inversion H; subst.
      * match goal with X : lang (Seq _ _) _ |- _ => inversion X; subst end.
        change (c :: s1 ++ s2) with ((c :: s1) ++ s2). constructor; auto.
      * change (c :: s) with ([] ++ c :: s). constructor; auto.
        now apply nullable_spec.
    + inversion H; subst.
      change (c :: s1 ++ s2) with ((c :: s1) ++ s2). constructor; auto.
  - inversion H; subst; [apply L_alt_l | apply L_alt_r]; auto.
  - inversion H; subst.
    change (c :: s1 ++ s2) with ((c :: s1) ++ s2). constructor; auto.
Qed.

Lemma deriv_complete c r t : lang r t -> forall u, t = c :: u -> lang (deriv c r) u.
Proof.
  induction 1; intros u E; simpl.
  - discriminate.
  - injection E as -> <-. rewrite H. constructor.
  - destruct s1 as [|a s1'].
    + simpl in E. subst s2.
      assert (Hn : nullable r1 = true) by now apply nullable_spec.
      rewrite Hn. apply L_alt_r. now apply IHlang2.
    + simpl in E. injection E as -> <-.
      destruct (nullable r1).
      * apply L_alt_l. constructor; auto.
      * constructor; auto.
  - apply L_alt_l. auto.
  - apply L_alt_r. auto.
  - discriminate.
  - destruct s1 as [|a s1'].
    + simpl in E. now apply IHlang2.
    + simpl in E. injection E as -> <-. constructor; auto.
Qed.

Lemma deriv_spec c r s : lang (deriv c r) s <-> lang r (c :: s).
Proof.
  split.
  - apply deriv_sound.
  - intros H. eapply deriv_complete; [exact H | reflexivity].
Qed.

Lemma fullmatch_spec s : forall r, fullmatch r s = true <-> lang r s.
Proof.
  induction s as [|c s IH]; intros r; simpl.
  - apply nullable_spec.
  - rewrite IH. apply deriv_spec.
Qed.

Lemma match_not_followed_spec cls s : forall r,
  match_not_followed r cls s = true <->
  exists p rest, s = p ++ rest /\ lang r p /\ not_followed_by cls rest = true.
Proof.
  induction s as [|c s IH]; intros r; simpl.
  - rewrite orb_false_r, andb_true_r. split.
    + intros H. exists [], []. repeat split. now apply nullable_spec.
    + intros [p [rest [E [Hp _]]]]. symmetry in E. apply app_eq_nil in E.
      destruct E; subst. now apply nullable_spec.
  - rewrite orb_true_iff, andb_true_iff, IH. split.
    + intros [[Hn Hc] | [p [rest [E [Hp Hr]]]]].
      * exists [], (c :: s). repeat split; auto. now apply nullable_spec.
      * exists (c :: p), rest. subst s. repeat split; auto. now apply deriv_spec.
    + intros [p [rest [E [Hp Hr]]]]. destruct p as [|a p].
      * simpl in E. subst rest. left. split; auto. now apply nullable_spec.
      * simpl in E. injection E as <- ->. right. exists p, rest.
        repeat split; auto. now apply deriv_spec.
Qed.

Lemma lang_opt_newline s :
  lang (opt (Cls (N.eqb 10%N))) s <-> s = [] \/ s = [10%N].
Proof.
  split.
  - intros H. inversion H; subst.
    + match goal with X : lang (Cls _) _ |- _ => inversion X; subst end.
      right. f_equal. symmetry. now apply N.eqb_eq.
    + match goal with X : lang Eps _ |- _ => inversion X; subst end. now left.
  - intros [-> | ->].
    + apply L_alt_r. constructor.
    + apply L_alt_l. constructor. reflexivity.
Qed.

Lemma match_to_end_spec r s :
  match_to_end r s = true <-> lang r s \/ exists t, s = t ++ [10%N] /\ lang r t.
Proof.
  unfold match_to_end. rewrite fullmatch_spec. split.
  - intros H. inversion H; subst.
    match goal with X : lang (opt _) _ |- _ => apply lang_opt_newline in X; destruct X; subst end.
    + left. now rewrite app_nil_r.
    + right. eauto.
  - intros [H | [t [-> H]]].
    + rewrite <- (app_nil_r s). constructor; auto. apply lang_opt_newline. now left.
    + constructor; auto. apply lang_opt_newline. now right.
Qed.

(** The language of a repeated class. *)
Lemma lang_star_cls p s : lang (Star (Cls p)) s <-> forallb p s = true.
Proof.
  split.
  - intros H. remember (Star (Cls p)) as r eqn:E.
    induction H; try discriminate; [reflexivity|].
    injection E as ->. specialize (IHlang2 eq_refl).
    inversion H; subst. simpl. now rewrite IHlang2, andb_true_r.
  - induction s as [|c s IH]; simpl; intros H.
    + constructor.
    + apply andb_true_iff in H. destruct H as [Hc Hs].
      change (c :: s) with ([c] ++ s). constructor; auto. now constructor.
Qed.

Lemma lang_plus_cls p s : lang (plus (Cls p)) s <-> s <> [] /\ forallb p s = true.
Proof.
  unfold plus. split.
  - intros H. inversion H; subst.
    match goal with X : lang (Cls _) _ |- _ => inversion X; subst end.
    match goal with X : lang (Star _) _ |- _ => apply lang_star_cls in X end.
    simpl. split; [discriminate|]. now rewrite andb_true_iff.
  - intros [Hne H]. destruct s as [|c s]; [congruence|].
    simpl in H. apply andb_true_iff in H. destruct H.
    change (c :: s) with ([c] ++ s). constructor; [now constructor | now apply lang_star_cls].
Qed.

End ReFacts.

(** ** Strings: stripping, splitting *)

Lemma rstrip_snoc chars s c :
  rstrip chars (s ++ [c]) = if in_str c chars then rstrip chars s else s ++ [c].
Proof.
  unfold rstrip, lstrip. rewrite rev_app_distr. simpl.
  destruct (in_str c chars); [reflexivity|].
  simpl. now rewrite rev_involutive.
Qed.

Lemma rstrip_length chars s : (length (rstrip chars s) <= length s)%nat.
Proof.
  induction s as [|c s IH] using rev_ind; [simpl; lia|].
  rewrite rstrip_snoc. destruct (in_str c chars).
  - rewrite length_app. simpl. lia.
  - lia.
Qed.

Lemma slice_to_length s k : (0 <= k)%Z -> (len (slice_to s k) <= k)%Z.
Proof.
  intros Hk. unfold slice_to, len.
  destruct (k <? 0)%Z eqn:E; [apply Z.ltb_lt in E; lia|].
  pose proof (firstn_le_length (Z.to_nat k) s). lia.
Qed.

Lemma break_at_found sep a b : no_sep sep a -> break_at sep (a ++ sep :: b) = Some (a, b).
Proof.
  induction a as [|c a IH]; intros H; simpl.
  - now rewrite N.eqb_refl.
  - destruct (N.eqb c sep) eqn:E.
    + apply N.eqb_eq in E. exfalso. apply (H c); [now left | exact E].
    + rewrite IH; [reflexivity|]. intros x Hx. apply H. now right.
Qed.

Lemma break_at_none sep s : no_sep sep s -> break_at sep s = None.
Proof.
  induction s as [|c s IH]; intros H; simpl; [reflexivity|].
  destruct (N.eqb c sep) eqn:E.
  - apply N.eqb_eq in E. exfalso. apply (H c); [now left | exact E].
  - rewrite IH; [reflexivity|]. intros x Hx. apply H. now right.
Qed.

Lemma no_sep_rev sep s : no_sep sep s -> no_sep sep (rev s).
Proof. intros H c Hc. apply H. now apply in_rev. Qed.

Lemma rsplit_one_sep sep b body :
  no_sep sep b -> no_sep sep body -> rsplit sep 2 (b ++ sep :: body) = [b; body].
Proof.
  intros Hb Hbody. unfold rsplit.
  rewrite rev_app_distr. simpl rev. rewrite <- app_assoc. simpl app.
  simpl split_max. rewrite break_at_found by now apply no_sep_rev.
  rewrite break_at_none by now apply no_sep_rev.
  simpl. now rewrite !rev_involutive.
Qed.

Lemma rsplit_no_sep sep b : no_sep sep b -> rsplit sep 2 b = [b].
Proof.
  intros Hb. unfold rsplit. simpl split_max.
  rewrite break_at_none by now apply no_sep_rev.
  simpl. now rewrite rev_involutive.
Qed.

(** Splitting a name made of a dot-free base and a one-segment extension
    gives the two back. *)
Lemma split_filename_joined b body :
  no_sep (ord ".") b -> no_sep (ord ".") body ->
  split_filename (b ++ lit "." ++ body) = (b, lit "." ++ body).
Proof.
  intros Hb Hbody. unfold split_filename.
  change (b ++ lit "." ++ body) with (b ++ ord "." :: body).
  rewrite rsplit_one_sep by assumption. reflexivity.
Qed.

Lemma split_filename_no_dot b : no_sep (ord ".") b -> split_filename b = (b, []).
Proof.
  intros Hb. unfold split_filename. rewrite rsplit_no_sep by assumption. reflexivity.
Qed.

Lemma end_flag_cons p c r : end_flag p (c :: r) = end_flag (negb (is_alnum c)) r.
Proof.
  destruct r as [|d r]; [reflexivity|]. reflexivity.
Qed.

Lemma seps_app sep r : forall p s,
  seps_single sep p (r ++ s) = seps_single sep p r && seps_single sep (end_flag p r) s.
Proof.
  induction r as [|c r IH]; intros p s.
  - reflexivity.
  - rewrite end_flag_cons. simpl.
    destruct (is_alnum c) eqn:Ea.
    + apply IH.
    + destruct (sep c); [|reflexivity].
      rewrite IH. simpl. now rewrite andb_assoc.
Qed.

Lemma seps_head sep c s : seps_single sep true (c :: s) = true -> is_alnum c = true.
Proof.
  simpl. destruct (is_alnum c); [reflexivity|].
  destruct (sep c); simpl; discriminate.
Qed.

Lemma seps_weaken sep s : forall p, seps_single sep p s = true -> seps_single sep false s = true.
Proof.
  destruct s as [|c s]; intros p H; [reflexivity|].
  simpl in *. destruct (is_alnum c); [exact H|].
  destruct (sep c); [|discriminate].
  apply andb_true_iff in H. now destruct H as [_ ->].
Qed.

Lemma seps_mono (sep sep' : codepoint -> bool) :
  (forall c, sep c = true -> sep' c = true) ->
  forall s p, seps_single sep p s = true -> seps_single sep' p s = true.
Proof.
  intros Hs. induction s as [|c s IH]; intros p H; [reflexivity|].
  simpl in *. destruct (is_alnum c); [now apply IH|].
  destruct (sep c) eqn:E; [|discriminate].
  rewrite (Hs c E). apply andb_true_iff in H. destruct H as [-> H].
  simpl. now apply IH.
Qed.

Lemma seps_chars sep s : forall p, seps_single sep p s = true ->
  forall c, In c s -> is_alnum c = true \/ sep c = true.
Proof.
  induction s as [|d s IH]; intros p H c Hc; [destruct Hc|].
  simpl in H. destruct Hc as [<- | Hc].
  - destruct (is_alnum d); [now left|]. destruct (sep d); [now right | discriminate].
  - destruct (is_alnum d); [now apply (IH false)|].
    destruct (sep d); [|discriminate].
    apply andb_true_iff in H. destruct H. now apply (IH true).
Qed.

Lemma seps_firstn sep k s p : seps_single sep p s = true -> seps_single sep p (firstn k s) = true.
Proof.
  intros H. rewrite <- (firstn_skipn k s) in H.
  rewrite seps_app in H. apply andb_true_iff in H. tauto.
Qed.

(** No two separators adjacent, as [is_safe_filename] tests it. *)
Lemma seps_no_pair sep a b s : forall p,
  seps_single sep p s = true -> is_alnum a = false -> is_alnum b = false ->
  contains [a; b] s = false.
Proof.
  intros p H Ha Hb. revert p H.
  induction s as [|c s IH]; intros p H; [reflexivity|].
  cbn [contains]. apply orb_false_iff. split.
  - cbn [starts_with]. destruct (N.eqb a c) eqn:E1; [|reflexivity].
    destruct s as [|d s]; [reflexivity|].
    destruct (N.eqb b d) eqn:E2; [|reflexivity].
    apply N.eqb_eq in E1, E2. subst c d. exfalso.
    simpl in H. rewrite Ha, Hb in H.
    destruct (sep a); [|discriminate]. destruct (sep b); [|now rewrite andb_false_r in H].
    simpl in H. now rewrite andb_false_r in H.
  - simpl in H. destruct (is_alnum c); [now apply (IH false)|].
    destruct (sep c); [|discriminate].
    apply andb_true_iff in H. destruct H. now apply (IH true).
Qed.

Section Shape.

Variable sep : codepoint -> bool.
Hypothesis sep_is_sep : forall c, sep c = true -> is_sep c = true.

Lemma rstrip_alnum_end s c : is_alnum c = true -> rstrip (lit "-_") (s ++ [c]) = s ++ [c].
Proof.
  intros H. rewrite rstrip_snoc.
  change (in_str c (lit "-_")) with (is_sep c). now rewrite alnum_not_sep.
Qed.

Lemma shaped_nonempty s : shaped sep s = true -> s <> [].
Proof.
  intros H ->. unfold shaped in H. simpl in H. vm_compute in H. discriminate.
Qed.

Lemma shaped_rstrip_fix s : shaped sep s = true -> rstrip (lit "-_") s = s.
Proof.
  intros H. pose proof (shaped_nonempty s H) as Hne.
  destruct (exists_last Hne) as [s0 [c ->]].
  unfold shaped in H. rewrite last_last in H. apply andb_true_iff in H.
  now apply rstrip_alnum_end.
Qed.

(** Stripping the trailing separators of a well-separated, non-empty
    string leaves a shaped one. *)
Lemma shaped_rstrip s :
  seps_single sep true s = true -> s <> [] -> shaped sep (rstrip (lit "-_") s) = true.
Proof.
  intros H Hne. destruct (exists_last Hne) as [s0 [c ->]].
  rewrite seps_app in H. apply andb_true_iff in H. destruct H as [H0 Hc].
  simpl in Hc. destruct (is_alnum c) eqn:Ea.
  - rewrite rstrip_alnum_end by assumption.
    unfold shaped. rewrite seps_app, H0, last_last. simpl. now rewrite Ea.
  - destruct (sep c) eqn:Es; [|discriminate].
    rewrite andb_true_r in Hc. apply negb_true_iff in Hc.
    rewrite rstrip_snoc. change (in_str c (lit "-_")) with (is_sep c).
    rewrite (sep_is_sep c Es).
    destruct s0 as [|d s0]; [simpl in Hc; discriminate|].
    unfold end_flag in Hc. apply negb_false_iff in Hc.
    assert (Hsh : shaped sep (d :: s0) = true).
    { unfold shaped. now rewrite H0, Hc. }
    now rewrite shaped_rstrip_fix.
Qed.

Lemma rstrip_prefix_length k s : (length (rstrip (lit "-_") (firstn k s)) <= k)%nat.
Proof.
  pose proof (rstrip_length (lit "-_") (firstn k s)).
  pose proof (firstn_le_length k s). lia.
Qed.

End Shape.

(** ** The character loop of [sanitize_base_name] *)

Lemma loop_inv_push_dash r p :
  loop_inv (r, p) -> r <> [] -> p = false -> loop_inv (r ++ lit "-", true).
Proof.
  intros [Hs Hp] Hne E. unfold loop_inv. simpl fst in *. simpl snd in *. split.
  - rewrite seps_app, Hs. simpl.
    destruct r as [|d r]; [congruence|].
    unfold end_flag. rewrite <- (Hp Hne), E. reflexivity.
  - intros _. change (lit "-") with [ord "-"]. rewrite last_last. reflexivity.
Qed.

Lemma base_step_inv st c : loop_inv st -> loop_inv (base_step st c).
Proof.
  destruct st as [r p]. intros Hinv. unfold base_step.
  destruct (in_str c ALNUM) eqn:Ea.
  - destruct Hinv as [Hs Hp]. unfold loop_inv. simpl fst in *. simpl snd in *. split.
    + rewrite seps_app, Hs. simpl. unfold is_alnum. now rewrite Ea.
    + intros _. rewrite last_last. unfold is_alnum. now rewrite Ea.
  - destruct (in_str c (lit "-_")).
    + destruct r as [|d r]; [exact Hinv|].
      destruct p; simpl negb; cbv iota; [exact Hinv|].
      apply (loop_inv_push_dash _ false); [exact Hinv | discriminate | reflexivity].
    + destruct (in_str c [32; 9; 10; 13]%N); [|exact Hinv].
      destruct r as [|d r]; [exact Hinv|].
      destruct p; simpl negb; cbv iota; [exact Hinv|].
      apply (loop_inv_push_dash _ false); [exact Hinv | discriminate | reflexivity].
Qed.

Lemma fold_base_step_inv s : forall st, loop_inv st -> loop_inv (fold_left base_step s st).
Proof.
  induction s as [|c s IH]; intros st H; simpl; [exact H|].
  apply IH. now apply base_step_inv.
Qed.

Lemma base_loop_seps s : seps_single is_dash true (base_loop s) = true.
Proof.
  unfold base_loop.
  apply (fold_base_step_inv s ([], false)).
  split; [reflexivity | intros H; now contradiction H].
Qed.

Lemma base_step_alnum r p c : is_alnum c = true -> base_step (r, p) c = (r ++ [c], false).
Proof.
  intros H. unfold base_step. unfold is_alnum in H. now rewrite H.
Qed.

Lemma base_step_dash a r : base_step (a :: r, false) (ord "-") = ((a :: r) ++ lit "-", true).
Proof. reflexivity. Qed.

(** On a string that is already well separated the loop copies its input. *)
Lemma fold_base_step_copy s : forall acc p,
  seps_single is_dash p s = true -> acc <> [] ->
  fst (fold_left base_step s (acc, p)) = acc ++ s.
Proof.
  induction s as [|c s IH]; intros acc p H Hne.
  - simpl. now rewrite app_nil_r.
  - cbn [fold_left]. cbn [seps_single] in H.
    destruct (is_alnum c) eqn:Ea.
    + rewrite base_step_alnum by assumption.
      rewrite IH; [now rewrite <- app_assoc | exact H | now destruct acc].
    + destruct (is_dash c) eqn:Ed; [|discriminate].
      apply andb_true_iff in H. destruct H as [Hp H].
      apply negb_true_iff in Hp. subst p.
      apply N.eqb_eq in Ed. subst c.
      destruct acc as [|a acc]; [congruence|].
      rewrite base_step_dash.
      rewrite IH; [now rewrite <- app_assoc | exact H | discriminate].
Qed.

Lemma base_loop_copy s : seps_single is_dash true s = true -> base_loop s = s.
Proof.
  intros H. destruct s as [|c s]; [reflexivity|].
  pose proof (seps_head _ _ _ H) as Hc.
  unfold base_loop. cbn [fold_left]. rewrite base_step_alnum by assumption.
  rewrite fold_base_step_copy; [reflexivity | | discriminate].
  cbn [seps_single] in H. now rewrite Hc in H.
Qed.

Lemma sanitize_base_name_unfold {U : Unicode} name :
  sanitize_base_name name =
  finish (base_loop (transliterate (str_lower (normalize_unicode name)))).
Proof. reflexivity. Qed.

Lemma is_dash_sep c : is_dash c = true -> is_sep c = true.
Proof.
  unfold is_dash. intros H. apply N.eqb_eq in H. subst c. reflexivity.
Qed.

Lemma sub_runs_copy s : forall p,
  seps_single is_dash p s = true -> sub_runs is_sep (lit "-") p s = s.
Proof.
  induction s as [|c s IH]; intros p H; [reflexivity|].
  simpl in *. destruct (is_alnum c) eqn:Ea.
  - rewrite (alnum_not_sep c Ea). f_equal. now apply IH.
  - destruct (is_dash c) eqn:Ed; [|discriminate].
    apply andb_true_iff in H. destruct H as [Hp H].
    apply negb_true_iff in Hp. subst p.
    rewrite (is_dash_sep c Ed). apply N.eqb_eq in Ed. subst c.
    simpl. f_equal. now apply IH.
Qed.

Lemma anchored_sub_fix c s :
  is_alnum c = true ->
  re_sub_class_plus true (fun x => negb (is_alnum x)) [] (c :: s) = c :: s.
Proof.
  intros H. unfold re_sub_class_plus. now rewrite H.
Qed.

Lemma free_sub_fix s p :
  seps_single is_dash p s = true -> re_sub_class_plus false is_sep (lit "-") s = s.
Proof.
  intros H. unfold re_sub_class_plus. apply sub_runs_copy.
  now apply (seps_weaken is_dash s p).
Qed.

Lemma finish_fix s : shaped is_dash s = true -> finish s = s.
Proof.
  intros H. unfold finish.
  rewrite (shaped_rstrip_fix is_dash s H).
  pose proof (shaped_nonempty is_dash s H) as Hne.
  unfold shaped in H. apply andb_true_iff in H. destruct H as [Hs _].
  destruct s as [|c s]; [congruence|].
  rewrite (anchored_sub_fix c s (seps_head _ _ _ Hs)).
  now rewrite (free_sub_fix (c :: s) true Hs).
Qed.

Lemma finish_shaped r : seps_single is_dash true r = true -> shaped is_dash (finish r) = true.
Proof.
  intros H. destruct r as [|c r].
  - vm_compute. reflexivity.
  - assert (Hsh : shaped is_dash (rstrip (lit "-_") (c :: r)) = true).
    { apply shaped_rstrip; [exact is_dash_sep | exact H | discriminate]. }
    assert (E : finish (c :: r) = finish (rstrip (lit "-_") (c :: r))).
    { unfold finish. now rewrite (shaped_rstrip_fix is_dash _ Hsh). }
    rewrite E, finish_fix; assumption.
Qed.

(** Whatever the input and whatever Unicode does, a sanitized base starts
    and ends with [a-z0-9] and has single dashes between. *)
Lemma sanitize_base_name_shaped {U : Unicode} name : shaped is_dash (sanitize_base_name name) = true.
Proof.
  rewrite sanitize_base_name_unfold. apply finish_shaped. apply base_loop_seps.
Qed.

(** ** The shape of a sanitized extension *)

Lemma forallb_filter (p : codepoint -> bool) s : forallb p (filter p s) = true.
Proof.
  induction s as [|c s IH]; [reflexivity|].
  simpl. destruct (p c) eqn:E; [simpl; now rewrite E|exact IH].
Qed.

Lemma filter_all (p : codepoint -> bool) s : forallb p s = true -> filter p s = s.
Proof.
  induction s as [|c s IH]; [reflexivity|].
  simpl. intros H. apply andb_true_iff in H. destruct H as [Hc Hs].
  rewrite Hc. f_equal. now apply IH.
Qed.

Lemma sanitize_extension_shaped {U : Unicode} ext : ext_shaped (sanitize_extension ext) = true.
Proof.
  unfold sanitize_extension. destruct ext as [|d ext]; [reflexivity|].
  destruct (filter is_alnum (str_lower (lstrip (lit ".") (d :: ext)))) as [|c body] eqn:E;
    [reflexivity|].
  change (lit "." ++ c :: body) with (ord "." :: c :: body).
  unfold ext_shaped. rewrite N.eqb_refl. rewrite <- E. apply forallb_filter.
Qed.

(** ** Where Unicode leaves sanitized text alone *)

Lemma plain_ascii c : plain c = true -> (c < 128)%N.
Proof.
  unfold plain. rewrite orb_true_iff. intros [H | H].
  - now apply is_alnum_ascii.
  - apply is_sep_spec in H. destruct H; subst; reflexivity.
Qed.

Lemma lower1_plain c : plain c = true -> lower1 c = c.
Proof.
  unfold plain. rewrite orb_true_iff. intros [H | H].
  - now apply lower1_alnum.
  - apply is_sep_spec in H. destruct H; subst; reflexivity.
Qed.

Lemma map_fix (f : codepoint -> codepoint) s : (forall c, In c s -> f c = c) -> map f s = s.
Proof.
  induction s as [|c s IH]; intros H; [reflexivity|].
  simpl. rewrite H by now left. f_equal. apply IH. intros x Hx. apply H. now right.
Qed.

Lemma table_ascii c : (c < 128)%N -> table_get TRANSLITERATION_MAP c = None.
Proof.
  intros Hc.
  assert (H : unmapped c = true).
  { apply (forall_below unmapped 128); [vm_compute; reflexivity | exact Hc]. }
  unfold unmapped in H.
  destruct (table_get TRANSLITERATION_MAP c); [discriminate | reflexivity].
Qed.

Lemma transliterate_ascii s : (forall c, In c s -> (c < 128)%N) -> transliterate s = s.
Proof.
  unfold transliterate, translate.
  induction s as [|c s IH]; intros H; [reflexivity|].
  cbn [flat_map]. rewrite table_ascii by (apply H; now left).
  cbn [app]. f_equal. apply IH. intros x Hx. apply H. now right.
Qed.

Section Lawful.

Context {U : Unicode} {L : UnicodeLaws U}.

Lemma str_lower_plain s : (forall c, In c s -> plain c = true) -> str_lower s = s.
Proof.
  intros H. rewrite lower_latin1.
  - apply map_fix. intros c Hc. apply lower1_plain. now apply H.
  - apply forallb_forall. intros c Hc. apply N.ltb_lt.
    pose proof (plain_ascii c (H c Hc)). lia.
Qed.

Lemma normalize_plain s : (forall c, In c s -> plain c = true) -> normalize_unicode s = s.
Proof.
  intros H. unfold normalize_unicode. apply nfkc_latin1.
  apply forallb_forall. intros c Hc. unfold nfkc_fixed.
  apply orb_true_iff. left. apply N.ltb_lt. apply plain_ascii. now apply H.
Qed.

Lemma shaped_plain sep s :
  (forall c, sep c = true -> is_sep c = true) -> seps_single sep true s = true ->
  forall c, In c s -> plain c = true.
Proof.
  intros Hsep H c Hc. unfold plain.
  destruct (seps_chars sep s true H c Hc) as [Ha | Hs].
  - now rewrite Ha.
  - rewrite (Hsep c Hs). apply orb_true_r.
Qed.

(** A shaped base is a fixed point of [sanitize_base_name]. *)
Lemma sanitize_base_name_fix s : shaped is_dash s = true -> sanitize_base_name s = s.
Proof.
  intros H. rewrite sanitize_base_name_unfold.
  assert (Hs : seps_single is_dash true s = true).
  { unfold shaped in H. apply andb_true_iff in H. tauto. }
  pose proof (shaped_plain is_dash s is_dash_sep Hs) as Hp.
  rewrite normalize_plain by assumption.
  rewrite str_lower_plain by assumption.
  rewrite transliterate_ascii by (intros c Hc; apply plain_ascii; now apply Hp).
  rewrite base_loop_copy by assumption.
  now apply finish_fix.
Qed.

Lemma in_str_dot c : in_str c (lit ".") = N.eqb c (ord ".").
Proof. unfold in_str. simpl. apply orb_false_r. Qed.

(** A shaped extension is a fixed point of [sanitize_extension]. *)
Lemma sanitize_extension_fix e : ext_shaped e = true -> sanitize_extension e = e.
Proof.
  intros H. destruct e as [|d body]; [reflexivity|].
  unfold ext_shaped in H. apply andb_true_iff in H. destruct H as [H Hall].
  apply andb_true_iff in H. destruct H as [Hd Hne].
  apply N.eqb_eq in Hd. subst d.
  destruct body as [|c body]; [discriminate|].
  unfold sanitize_extension.
  assert (Hc : is_alnum c = true).
  { simpl in Hall. apply andb_true_iff in Hall. tauto. }
  assert (E : lstrip (lit ".") (ord "." :: c :: body) = c :: body).
  { unfold lstrip. cbn [drop_while]. rewrite !in_str_dot, N.eqb_refl.
    now rewrite (alnum_not_dot c Hc). }
  rewrite E. rewrite str_lower_plain.
  - rewrite filter_all by assumption. reflexivity.
  - intros x Hx. unfold plain. rewrite forallb_forall in Hall. now rewrite (Hall x Hx).
Qed.

End Lawful.

(** ** The two parts [sanitize] concatenates *)

Lemma sanitize_parts {U : Unicode} filename :
  sanitize filename = fst (safe_parts filename) ++ snd (safe_parts filename).
Proof.
  unfold sanitize, safe_parts. destruct (split_filename filename) as [base ext]. reflexivity.
Qed.

Lemma pystr_eqb_refl s : pystr_eqb s s = true.
Proof. unfold pystr_eqb. destruct (list_eq_dec N.eq_dec s s); congruence. Qed.

Lemma pystr_eqb_eq s t : pystr_eqb s t = true -> s = t.
Proof. unfold pystr_eqb. destruct (list_eq_dec N.eq_dec s t); [auto | discriminate]. Qed.

Lemma last_app_nonempty (a b : pystr) d : b <> [] -> last (a ++ b) d = last b d.
Proof.
  intros Hne. destruct (exists_last Hne) as [b0 [z ->]].
  now rewrite app_assoc, !last_last.
Qed.

Lemma shaped_is_sep b : shaped is_dash b = true -> shaped is_sep b = true.
Proof.
  unfold shaped. rewrite !andb_true_iff. intros [H1 H2]. split; [|exact H2].
  now apply (seps_mono is_dash is_sep is_dash_sep).
Qed.

(** With or without the [file_] prefix the base stays shaped (the
    underscore counts as a separator here). *)
Lemma check_reserved_name_shaped {U : Unicode} b :
  shaped is_dash b = true -> shaped is_sep (check_reserved_name b) = true.
Proof.
  intros H. unfold check_reserved_name.
  destruct (mem_str (str_lower b) RESERVED_NAMES); [|now apply shaped_is_sep].
  pose proof (shaped_nonempty is_dash b H) as Hne.
  apply shaped_is_sep in H. unfold shaped in *.
  apply andb_true_iff in H. destruct H as [H1 H2].
  rewrite seps_app, last_app_nonempty by assumption.
  change (seps_single is_sep true (lit "file_")) with true.
  change (end_flag true (lit "file_")) with true.
  now rewrite H1, H2.
Qed.

Lemma firstn_nonempty (k : nat) (s : pystr) : (0 < k)%nat -> s <> [] -> firstn k s <> [].
Proof.
  intros Hk Hs. destruct k; [lia|]. destruct s; [congruence|]. discriminate.
Qed.

(** Truncation when the extension leaves room for at least one character. *)
Lemma truncate_shaped b e :
  shaped is_sep b = true -> (len e < MAX_FILENAME_LENGTH)%Z ->
  shaped is_sep (truncate_if_needed b e) = true /\
  (len (truncate_if_needed b e) + len e <= MAX_FILENAME_LENGTH)%Z.
Proof.
  intros Hb He. unfold truncate_if_needed.
  destruct (MAX_FILENAME_LENGTH - len e <? len b)%Z eqn:E.
  - unfold slice_to.
    destruct (MAX_FILENAME_LENGTH - len e <? 0)%Z eqn:E0; [apply Z.ltb_lt in E0; lia|].
    split.
    + apply shaped_rstrip; [auto | |].
      * apply seps_firstn. unfold shaped in Hb. apply andb_true_iff in Hb. tauto.
      * apply firstn_nonempty; [lia | now apply (shaped_nonempty is_sep)].
    + pose proof (rstrip_prefix_length (Z.to_nat (MAX_FILENAME_LENGTH - len e)) b).
      unfold len in *. lia.
  - apply Z.ltb_ge in E. split; [exact Hb | lia].
Qed.

(** Truncation when the extension alone fills the limit: nothing of the
    base is left. *)
Lemma truncate_full b e :
  b <> [] -> len e = MAX_FILENAME_LENGTH -> truncate_if_needed b e = [].
Proof.
  intros Hb He. unfold truncate_if_needed. rewrite He, Z.sub_diag.
  destruct (0 <? len b)%Z eqn:E.
  - reflexivity.
  - apply Z.ltb_ge in E. unfold len in E. destruct b; [congruence | simpl in E; lia].
Qed.

Lemma seps_without_underscore s : forall p,
  seps_single is_sep p s = true -> in_str (ord "_") s = false ->
  seps_single is_dash p s = true.
Proof.
  induction s as [|c s IH]; intros p H Hu; [reflexivity|].
  unfold in_str in Hu. cbn [existsb] in Hu. apply orb_false_iff in Hu. destruct Hu as [Hc Hu].
  cbn [seps_single] in *. destruct (is_alnum c); [now apply IH|].
  destruct (is_sep c) eqn:Es; [|discriminate].
  apply is_sep_spec in Es. destruct Es as [-> | ->].
  - change (is_dash (ord "-")) with true.
    apply andb_true_iff in H. destruct H as [-> H]. simpl. now apply IH.
  - rewrite N.eqb_refl in Hc. discriminate.
Qed.

Lemma plain_not_dot c : plain c = true -> c <> ord ".".
Proof. intros H ->. vm_compute in H. discriminate. Qed.

Lemma shaped_no_dot b : b = [] \/ shaped is_sep b = true -> no_sep (ord ".") b.
Proof.
  intros [-> | H] c Hc; [destruct Hc|].
  apply plain_not_dot. unfold plain.
  unfold shaped in H. apply andb_true_iff in H. destruct H as [H _].
  destruct (seps_chars is_sep b true H c Hc) as [-> | ->]; [reflexivity | apply orb_true_r].
Qed.

Lemma ext_shaped_inv e :
  ext_shaped e = true ->
  e = [] \/ exists body, e = lit "." ++ body /\ body <> [] /\ forallb is_alnum body = true.
Proof.
  destruct e as [|d body]; [now left|]. intros H. right.
  unfold ext_shaped in H. apply andb_true_iff in H. destruct H as [H Hall].
  apply andb_true_iff in H. destruct H as [Hd Hne].
  apply N.eqb_eq in Hd. subst d. exists body. repeat split; [|exact Hall].
  destruct body; [discriminate | discriminate].
Qed.

Lemma alnum_no_dot body : forallb is_alnum body = true -> no_sep (ord ".") body.
Proof.
  intros H c Hc ->. rewrite forallb_forall in H. specialize (H _ Hc).
  vm_compute in H. discriminate.
Qed.

(** Splitting a sanitized name gives back the base and the extension it
    was made of. *)
Lemma split_filename_sanitized b e :
  b = [] \/ shaped is_sep b = true -> ext_shaped e = true ->
  split_filename (b ++ e) = (b, e).
Proof.
  intros Hb He. pose proof (shaped_no_dot b Hb) as Hnd.
  destruct (ext_shaped_inv e He) as [-> | [body [-> [_ Hall]]]].
  - rewrite app_nil_r. now apply split_filename_no_dot.
  - apply split_filename_joined; [exact Hnd | now apply alnum_no_dot].
Qed.

Lemma sanitize_extension_dots {U : Unicode} ext :
  (count_occ N.eq_dec (sanitize_extension ext) (ord ".") <= 1)%nat.
Proof.
  destruct (ext_shaped_inv _ (sanitize_extension_shaped ext)) as [-> | [body [-> [_ Hall]]]].
  - simpl. lia.
  - change (lit "." ++ body) with (ord "." :: body).
    rewrite count_occ_cons_eq by reflexivity.
    assert (E : count_occ N.eq_dec body (ord ".") = 0%nat).
    { apply count_occ_not_In. intros Hin. now apply (alnum_no_dot body Hall _ Hin). }
    unfold codepoint in *. rewrite E. apply le_n.
Qed.

Lemma truncate_fits b e :
  (len b + len e <= MAX_FILENAME_LENGTH)%Z -> truncate_if_needed b e = b.
Proof.
  intros H. unfold truncate_if_needed.
  destruct (MAX_FILENAME_LENGTH - len e <? len b)%Z eqn:E; [|reflexivity].
  apply Z.ltb_lt in E. lia.
Qed.

(** What [safe_parts] returns, whatever the input. *)
Lemma safe_parts_shape {U : Unicode} x :
  ext_shaped (snd (safe_parts x)) = true /\
  ((len (snd (safe_parts x)) < MAX_FILENAME_LENGTH)%Z ->
   shaped is_sep (fst (safe_parts x)) = true /\
   (len (fst (safe_parts x)) + len (snd (safe_parts x)) <= MAX_FILENAME_LENGTH)%Z) /\
  (len (snd (safe_parts x)) = MAX_FILENAME_LENGTH -> fst (safe_parts x) = []).
Proof.
  unfold safe_parts. destruct (split_filename x) as [base ext]. cbn [fst snd].
  pose proof (check_reserved_name_shaped _ (sanitize_base_name_shaped base)) as Hb.
  split; [apply sanitize_extension_shaped|]. split.
  - intros He. now apply truncate_shaped.
  - intros He. apply truncate_full; [|exact He].
    now apply (shaped_nonempty is_sep).
Qed.

Section LawfulSanitize.

Context {U : Unicode} {L : UnicodeLaws U}.

Lemma check_reserved_name_plain b :
  (forall c, In c b -> plain c = true) ->
  check_reserved_name b = if mem_str b RESERVED_NAMES then lit "file_" ++ b else b.
Proof.
  intros H. unfold check_reserved_name. now rewrite str_lower_plain.
Qed.

Lemma sanitize_base_name_nil : sanitize_base_name [] = lit "file".
Proof.
  rewrite sanitize_base_name_unfold.
  rewrite normalize_plain by (intros c []).
  rewrite str_lower_plain by (intros c []).
  reflexivity.
Qed.

(** The second pass over a name whose base is dash-separated and not
    reserved changes nothing. *)
Lemma sanitize_joined_fix b e :
  shaped is_dash b = true -> mem_str b RESERVED_NAMES = false ->
  ext_shaped e = true -> (len b + len e <= MAX_FILENAME_LENGTH)%Z ->
  sanitize (b ++ e) = b ++ e.
Proof.
  intros Hb Hr He Hlen. unfold sanitize.
  rewrite split_filename_sanitized; [| right; now apply shaped_is_sep | exact He].
  rewrite sanitize_base_name_fix, sanitize_extension_fix by assumption.
  rewrite check_reserved_name_plain, Hr.
  - now rewrite truncate_fits.
  - apply (shaped_plain is_dash); [exact is_dash_sep|].
    unfold shaped in Hb. apply andb_true_iff in Hb. tauto.
Qed.

(** The second pass over a name that is all extension re-creates the
    fallback base and truncates it away again. *)
Lemma sanitize_bare_ext_fix e :
  ext_shaped e = true -> len e = MAX_FILENAME_LENGTH -> sanitize ([] ++ e) = [] ++ e.
Proof.
  intros He Hlen. unfold sanitize.
  rewrite split_filename_sanitized; [| now left | exact He].
  rewrite sanitize_base_name_nil, sanitize_extension_fix by assumption.
  rewrite check_reserved_name_plain.
  - change (mem_str (lit "file") RESERVED_NAMES) with false. cbv iota.
    rewrite truncate_full; [reflexivity | discriminate | exact Hlen].
  - intros c Hc. revert c Hc. apply forallb_forall. reflexivity.
Qed.

End LawfulSanitize.

Lemma latin1_laws : UnicodeLaws latin1.
Proof.
  split.
  - intros s _. reflexivity.
  - intros s _. reflexivity.
  - intros c _. reflexivity.
Qed.

(** ** Splitting keeps the characters of the name *)

Lemma break_at_app sep s : forall a b, break_at sep s = Some (a, b) -> s = a ++ sep :: b.
Proof.
  induction s as [|c s IH]; intros a b H; simpl in H; [discriminate|].
  destruct (N.eqb c sep) eqn:E.
  - apply N.eqb_eq in E. injection H as <- <-. now subst.
  - destruct (break_at sep s) as [[a' b']|]; [|discriminate].
    injection H as <- <-. simpl. f_equal. now apply IH.
Qed.

Lemma split_max_chars sep n : forall s part c,
  In part (split_max sep n s) -> In c part -> In c s.
Proof.
  induction n as [|n IH]; intros s part c Hp Hc; simpl in Hp.
  - destruct Hp as [<- | []]. exact Hc.
  - destruct (break_at sep s) as [[a b]|] eqn:E.
    + apply break_at_app in E. subst s. apply in_or_app.
      destruct Hp as [<- | Hp]; [now left|].
      right. right. now apply (IH b part c).
    + destruct Hp as [<- | []]. exact Hc.
Qed.

Lemma rsplit_chars sep n s part c : In part (rsplit sep n s) -> In c part -> In c s.
Proof.
  unfold rsplit. intros Hp Hc. apply in_rev in Hp. apply in_map_iff in Hp.
  destruct Hp as [q [<- Hq]]. apply in_rev in Hc.
  apply in_rev. now apply (split_max_chars sep n (rev s) q c).
Qed.

Lemma join_chars sep parts c :
  In c (join sep parts) -> In c sep \/ exists part, In part parts /\ In c part.
Proof.
  induction parts as [|p rest IH]; intros H; [destruct H|].
  destruct rest as [|q rest].
  - right. exists p. split; [now left | exact H].
  - cbn [join] in H. apply in_app_or in H. destruct H as [H | H].
    + right. exists p. split; [now left | exact H].
    + apply in_app_or in H. destruct H as [H | H]; [now left|].
      destruct (IH H) as [Hs | [part [Hp Hc]]]; [now left|].
      right. exists part. split; [now right | exact Hc].
Qed.

Lemma removelast_In (l : list pystr) x : In x (removelast l) -> In x l.
Proof.
  induction l as [|a l IH]; intros H; [destruct H|].
  destruct l as [|b l]; [destruct H|].
  cbn [removelast] in H. destruct H as [<- | H]; [now left | right; now apply IH].
Qed.

Lemma last_In (l : list pystr) : l <> [] -> In (last l []) l.
Proof.
  intros H. destruct (exists_last H) as [l0 [z ->]].
  rewrite last_last. apply in_or_app. right. now left.
Qed.

Lemma nth_chars (parts : list pystr) i c (s : pystr) :
  (forall part, In part parts -> In c part -> In c s) -> In c (nth i parts []) -> In c s.
Proof.
  intros H Hc. destruct (nth_in_or_default i parts []) as [Hin | E].
  - now apply (H _ Hin).
  - rewrite E in Hc. destruct Hc.
Qed.

(** Every character of the base and of the extension is a character of
    the name, or the dot. *)
Lemma split_filename_chars x c :
  In c (fst (split_filename x)) \/ In c (snd (split_filename x)) -> In c x \/ c = ord ".".
Proof.
  unfold split_filename.
  pose proof (fun part => rsplit_chars (ord ".") 2 x part c) as Hparts.
  set (parts := rsplit (ord ".") 2 x) in *.
  destruct ((length parts =? 3)%nat && mem_str (nth 1 parts []) [lit "tar"; lit "backup"]).
  - cbn [fst snd]. intros [H | H].
    + left. now apply (nth_chars parts 0).
    + change (lit "." ++ nth 1 parts [] ++ lit "." ++ nth 2 parts [])
        with (ord "." :: nth 1 parts [] ++ ord "." :: nth 2 parts []) in H.
      destruct H as [<- | H]; [now right|].
      apply in_app_or in H. destruct H as [H | [<- | H]]; [left | now right | left].
      * now apply (nth_chars parts 1).
      * now apply (nth_chars parts 2).
  - destruct (2 <=? length parts)%nat eqn:E2; cbn [fst snd].
    + intros [H | H].
      * apply join_chars in H. destruct H as [[<- | []] | [part [Hp Hc]]]; [now right|].
        left. apply (Hparts part); [now apply removelast_In | exact Hc].
      * change (lit "." ++ last parts []) with (ord "." :: last parts []) in H.
        destruct H as [<- | H]; [now right|].
        left. apply (Hparts (last parts [])); [|exact H].
        apply last_In. intros E. rewrite E in E2. discriminate.
    + intros [H | []]. now left.
Qed.

Lemma lstrip_In chars s c : In c (lstrip chars s) -> In c s.
Proof.
  unfold lstrip. induction s as [|d s IH]; intros H; [destruct H|].
  cbn [drop_while] in H. destruct (in_str d chars); [right; now apply IH | exact H].
Qed.

(** ** On Latin-1 text every lawful Unicode database agrees with [latin1] *)

Section Transfer.

Context {U : Unicode} {L : UnicodeLaws U}.

Lemma nfkc_fixed_latin c : nfkc_fixed c = true -> (c <? 256)%N = true.
Proof.
  unfold nfkc_fixed. rewrite orb_true_iff, N.ltb_lt, in_range_spec. intros H.
  apply N.ltb_lt. lia.
Qed.

Lemma str_lower_latin s : latin_text s -> str_lower s = map lower1 s.
Proof.
  intros H. apply lower_latin1. apply forallb_forall.
  intros c Hc. apply nfkc_fixed_latin. now apply H.
Qed.

Lemma sanitize_base_name_latin1 base :
  latin_text base -> sanitize_base_name base = @sanitize_base_name latin1 base.
Proof.
  intros H. rewrite !sanitize_base_name_unfold. unfold normalize_unicode.
  rewrite nfkc_latin1 by (apply forallb_forall; exact H).
  now rewrite str_lower_latin.
Qed.

Lemma sanitize_extension_latin1 ext :
  latin_text ext -> sanitize_extension ext = @sanitize_extension latin1 ext.
Proof.
  intros H. unfold sanitize_extension. destruct ext as [|d ext]; [reflexivity|].
  rewrite str_lower_latin; [reflexivity|].
  intros c Hc. apply H. now apply (lstrip_In (lit ".")).
Qed.

Lemma check_reserved_name_latin1 b :
  shaped is_dash b = true -> check_reserved_name b = @check_reserved_name latin1 b.
Proof.
  intros H.
  assert (Hp : forall c, In c b -> plain c = true).
  { apply (shaped_plain is_dash); [exact is_dash_sep|].
    unfold shaped in H. apply andb_true_iff in H. tauto. }
  rewrite check_reserved_name_plain by assumption.
  now rewrite (@check_reserved_name_plain latin1 latin1_laws).
Qed.

Lemma split_latin x :
  latin_text x ->
  latin_text (fst (split_filename x)) /\ latin_text (snd (split_filename x)).
Proof.
  intros H. split; intros c Hc.
  - destruct (split_filename_chars x c (or_introl Hc)) as [Hx | ->]; [now apply H | reflexivity].
  - destruct (split_filename_chars x c (or_intror Hc)) as [Hx | ->]; [now apply H | reflexivity].
Qed.

Lemma sanitize_latin1 x : forallb nfkc_fixed x = true -> sanitize x = @sanitize latin1 x.
Proof.
  intros H. rewrite forallb_forall in H.
  destruct (split_latin x H) as [Hb He].
  unfold sanitize. destruct (split_filename x) as [base ext]. cbn [fst snd] in *.
  rewrite sanitize_base_name_latin1, sanitize_extension_latin1 by assumption.
  now rewrite check_reserved_name_latin1 by apply sanitize_base_name_shaped.
Qed.

Lemma safe_parts_latin1 x : forallb nfkc_fixed x = true -> safe_parts x = @safe_parts latin1 x.
Proof.
  intros H. rewrite forallb_forall in H.
  destruct (split_latin x H) as [Hb He].
  unfold safe_parts. destruct (split_filename x) as [base ext]. cbn [fst snd] in *.
  rewrite sanitize_base_name_latin1, sanitize_extension_latin1 by assumption.
  now rewrite check_reserved_name_latin1 by apply sanitize_base_name_shaped.
Qed.

Lemma is_safe_filename_latin1 x :
  forallb nfkc_fixed x = true -> is_safe_filename x = @is_safe_filename latin1 x.
Proof.
  intros H. rewrite forallb_forall in H. unfold is_safe_filename.
  now rewrite str_lower_latin.
Qed.

End Transfer.

(** ** Concrete runs of the sanitizer *)

(** A run on Latin-1 text: move to [latin1], then compute. *)
Ltac run_sanitizer :=
  rewrite ?sanitize_latin1, ?safe_parts_latin1, ?is_safe_filename_latin1
    by (vm_compute; reflexivity);
  vm_compute; try reflexivity.

(** C8: the four concrete cases of the specification.  [sanitize] maps
    "My File (2023).TXT" to "my-file-2023.txt" and "café.jpg" to
    "cafe.jpg"; [split_filename] splits "archive.tar.gz" into "archive" and
    ".tar.gz"; and for "CON.txt" the base is "file_" followed by "con" and
    the extension is ".txt". *)
Theorem concrete_cases {U : Unicode} (L : UnicodeLaws U) :
  sanitize (lit "My File (2023).TXT") = lit "my-file-2023.txt" /\
  sanitize (lit "caf" ++ [233%N] ++ lit ".jpg") = lit "cafe.jpg" /\
  split_filename (lit "archive.tar.gz") = (lit "archive", lit ".tar.gz") /\
  safe_parts (lit "CON.txt") = (lit "file_" ++ lit "con", lit ".txt") /\
  sanitize (lit "CON.txt") = lit "file_con.txt".
Proof.
  refine (conj _ (conj _ (conj _ (conj _ _)))); run_sanitizer.
Qed.

Lemma concrete_cases_witness :
  @sanitize latin1 (lit "My File (2023).TXT") = lit "my-file-2023.txt" /\
  @sanitize latin1 (lit "caf" ++ [233%N] ++ lit ".jpg") = lit "cafe.jpg" /\
  split_filename (lit "archive.tar.gz") = (lit "archive", lit ".tar.gz") /\
  @safe_parts latin1 (lit "CON.txt") = (lit "file_" ++ lit "con", lit ".txt") /\
  @sanitize latin1 (lit "CON.txt") = lit "file_con.txt".
Proof. exact (concrete_cases latin1_laws). Defined.

(** ** Truncation keeps characters and bounds the length *)

Lemma rstrip_In chars s c : In c (rstrip chars s) -> In c s.
Proof.
  induction s as [|d s IH] using rev_ind; intros H; [exact H|].
  rewrite rstrip_snoc in H. destruct (in_str d chars); [|exact H].
  apply in_or_app. left. now apply IH.
Qed.

Lemma firstn_In (k : nat) (s : pystr) c : In c (firstn k s) -> In c s.
Proof.
  intros H. rewrite <- (firstn_skipn k s). apply in_or_app. now left.
Qed.

Lemma truncate_In b e c : In c (truncate_if_needed b e) -> In c b.
Proof.
  unfold truncate_if_needed, slice_to.
  destruct (MAX_FILENAME_LENGTH - len e <? len b)%Z; [|auto].
  intros H. apply rstrip_In in H.
  destruct (MAX_FILENAME_LENGTH - len e <? 0)%Z; now apply firstn_In in H.
Qed.

Lemma truncate_length b e :
  (len e <= MAX_FILENAME_LENGTH)%Z ->
  (len (truncate_if_needed b e) + len e <= MAX_FILENAME_LENGTH)%Z.
Proof.
  intros He. unfold truncate_if_needed.
  destruct (MAX_FILENAME_LENGTH - len e <? len b)%Z eqn:E.
  - pose proof (slice_to_length b (MAX_FILENAME_LENGTH - len e)) as H1.
    pose proof (rstrip_length (lit "-_") (slice_to b (MAX_FILENAME_LENGTH - len e))) as H2.
    unfold len in *. lia.
  - apply Z.ltb_ge in E. lia.
Qed.

Lemma len_app a b : len (a ++ b) = (len a + len b)%Z.
Proof. unfold len. rewrite length_app. lia. Qed.

Lemma hex8_length x : length (Sha256.hex8 x) = 8%nat.
Proof. unfold Sha256.hex8. now rewrite length_map. Qed.

Lemma hexdigest_length msg : length (Sha256.hexdigest msg) = 64%nat.
Proof.
  unfold Sha256.hexdigest. generalize (Sha256.digest msg). intros s.
  cbv zeta. repeat rewrite length_app. repeat rewrite hex8_length. reflexivity.
Qed.

(** The digests of the standard's test messages "abc" and "", and of a
    message of several blocks with multi-byte characters. *)
Example sha256_abc :
  Sha256.hexdigest [97; 98; 99]%N =
  lit "ba7816bf8f01cfea414140de5dae2223b00361a396177a9cb410ff61f20015ad".
Proof. vm_compute. reflexivity. Qed.

Example sha256_empty :
  Sha256.hexdigest [] =
  lit "e3b0c44298fc1c149afbf4c8996fb92427ae41e4649b934ca495991b7852b855".
Proof. vm_compute. reflexivity. Qed.

Example sha256_two_blocks :
  Sha256.hexdigest (repeat 120%N 200) =
  lit "aa20c23e3201834050679e1d88941b9a6fed0557c9a705cb2c315e2e63fd486d".
Proof. vm_compute. reflexivity. Qed.

Example utf8_euro_smiley :
  utf8_encode [233; 8364; 128512]%N = Ok [195; 169; 226; 130; 172; 240; 159; 152; 128]%N /\
  utf8_encode [56575]%N =
  Raise (lit "'utf-8' codec can't encode character: surrogates not allowed").
Proof. split; reflexivity. Qed.

Lemma hash_suffix_length original_name h :
  hash_suffix original_name = Ok h -> length h = 8%nat.
Proof.
  unfold hash_suffix. destruct (utf8_encode original_name) as [bytes | m]; [|discriminate].
  intros H.
  assert (E : firstn 8 (Sha256.hexdigest bytes) = h) by congruence.
  rewrite <- E, length_firstn, hexdigest_length. reflexivity.
Qed.

(** The base of a sanitized name has no dot, whatever its length. *)
Lemma safe_base_no_dot {U : Unicode} x : no_sep (ord ".") (fst (safe_parts x)).
Proof.
  unfold safe_parts. destruct (split_filename x) as [base ext]. cbn [fst].
  intros c Hc. apply truncate_In in Hc.
  pose proof (check_reserved_name_shaped _ (sanitize_base_name_shaped base)) as Hb.
  now apply (shaped_no_dot _ (or_intror Hb)).
Qed.

Lemma sanitize_dots {U : Unicode} x : (count_occ N.eq_dec (sanitize x) (ord ".") <= 1)%nat.
Proof.
  rewrite sanitize_parts, count_occ_app.
  assert (E : count_occ N.eq_dec (fst (safe_parts x)) (ord ".") = 0%nat).
  { apply count_occ_not_In. intros Hin. now apply (safe_base_no_dot x _ Hin). }
  assert (H : (count_occ N.eq_dec (snd (safe_parts x)) (ord ".") <= 1)%nat).
  { unfold safe_parts. destruct (split_filename x) as [base ext]. cbn [snd].
    apply sanitize_extension_dots. }
  unfold codepoint in *. rewrite E. exact H.
Qed.

(** ** C9: the sanitized extension has one segment *)

Lemma forallb_alnum_cls body : forallb is_alnum body = true -> forallb cls_alnum body = true.
Proof.
  intros H. apply forallb_forall. intros c Hc.
  rewrite <- is_alnum_cls. rewrite forallb_forall in H. now apply H.
Qed.

Lemma alnum_no_dot_in body : forallb is_alnum body = true -> in_str (ord ".") body = false.
Proof.
  intros H. destruct (in_str (ord ".") body) eqn:E; [|reflexivity].
  unfold in_str in E. apply existsb_exists in E. destruct E as [c [Hc Heq]].
  apply N.eqb_eq in Heq. subst c. exfalso. now apply (alnum_no_dot body H _ Hc).
Qed.

(** C9: for every extension string, [sanitize_extension] returns the
    empty string or one dot followed by one or more characters of a-z0-9,
    with no second dot; so a sanitized name has at most one dot, and the
    compound extension of "Archive.tar.gz" (a name that is not already
    safe) is merged: [sanitize] gives "archive.targz". *)
Theorem sanitize_extension_one_segment {U : Unicode} (L : UnicodeLaws U) :
  (forall e, sanitize_extension e = [] \/
     exists body, sanitize_extension e = ord "." :: body /\ body <> [] /\
                  forallb cls_alnum body = true /\ in_str (ord ".") body = false) /\
  (forall x, (count_occ N.eq_dec (sanitize x) (ord ".") <= 1)%nat) /\
  split_filename (lit "Archive.tar.gz") = (lit "Archive", lit ".tar.gz") /\
  is_safe_filename (lit "Archive.tar.gz") = false /\
  sanitize (lit "Archive.tar.gz") = lit "archive.targz".
Proof.
  refine (conj _ (conj _ (conj _ (conj _ _)))).
  - intros e.
    destruct (ext_shaped_inv _ (sanitize_extension_shaped e)) as [-> | [body [-> [Hne Hall]]]].
    + now left.
    + right. exists body. repeat split.
      * exact Hne.
      * now apply forallb_alnum_cls.
      * now apply alnum_no_dot_in.
  - apply sanitize_dots.
  - reflexivity.
  - run_sanitizer.
  - run_sanitizer.
Qed.

Lemma sanitize_extension_one_segment_witness :
  (forall e, @sanitize_extension latin1 e = [] \/
     exists body, @sanitize_extension latin1 e = ord "." :: body /\ body <> [] /\
                  forallb cls_alnum body = true /\ in_str (ord ".") body = false) /\
  (forall x, (count_occ N.eq_dec (@sanitize latin1 x) (ord ".") <= 1)%nat) /\
  split_filename (lit "Archive.tar.gz") = (lit "Archive", lit ".tar.gz") /\
  @is_safe_filename latin1 (lit "Archive.tar.gz") = false /\
  @sanitize latin1 (lit "Archive.tar.gz") = lit "archive.targz".
Proof. exact (sanitize_extension_one_segment latin1_laws). Defined.

(** ** C2: idempotence *)

(** C2, as stated, fails: "CON.txt" is sanitized to "file_con.txt", and
    sanitizing that again rewrites the underscore of the prefix, giving
    "file-con.txt". *)
Lemma sanitize_twice_CON :
  @sanitize latin1 (lit "CON.txt") = lit "file_con.txt" /\
  @sanitize latin1 (@sanitize latin1 (lit "CON.txt")) = lit "file-con.txt" /\
  @sanitize latin1 (@sanitize latin1 (lit "CON.txt")) <> @sanitize latin1 (lit "CON.txt").
Proof.
  refine (conj _ (conj _ _)); vm_compute; [reflexivity | reflexivity | discriminate].
Qed.

(** C2, amended: [sanitize (sanitize x) = sanitize x] for every name whose
    sanitized base (after the reserved-name prefix and the truncation)
    contains no underscore and is not a reserved device name, and whose
    sanitized extension has at most 180 characters. *)
Theorem sanitize_idempotent_guarded {U : Unicode} (L : UnicodeLaws U) (x : pystr) :
  in_str (ord "_") (fst (safe_parts x)) = false ->
  mem_str (fst (safe_parts x)) RESERVED_NAMES = false ->
  (len (snd (safe_parts x)) <= MAX_FILENAME_LENGTH)%Z ->
  sanitize (sanitize x) = sanitize x.
Proof.
  intros Hu Hr Hlen. rewrite (sanitize_parts x).
  destruct (safe_parts_shape x) as [He [Hlt Heq]].
  destruct (Z.eq_dec (len (snd (safe_parts x))) MAX_FILENAME_LENGTH) as [E | E].
  - rewrite (Heq E). now apply sanitize_bare_ext_fix.
  - destruct Hlt as [Hb Hfit]; [lia|].
    apply sanitize_joined_fix; try assumption.
    unfold shaped in *. apply andb_true_iff in Hb. destruct Hb as [Hs Hl].
    rewrite Hl, andb_true_r. now apply seps_without_underscore.
Qed.

Lemma sanitize_idempotent_guarded_witness :
  @sanitize latin1 (@sanitize latin1 (lit "My File (2023).TXT")) =
  @sanitize latin1 (lit "My File (2023).TXT").
Proof.
  apply (sanitize_idempotent_guarded latin1_laws (lit "My File (2023).TXT"));
    vm_compute; [reflexivity | reflexivity | discriminate].
Defined.

(** ** C1 and C3: the 180-character limit and the safe-name grammar *)

(** C1 at the failing input: a name whose extension has 200 characters is
    sanitized to a name of 201 characters, and the collision suffix added
    to that name gives 211 characters.  The limit of 180 is exceeded. *)
Theorem sanitize_over_limit {U : Unicode} (L : UnicodeLaws U) :
  len (sanitize (lit "a." ++ repeat (ord "b") 200)) = 201%Z /\
  (exists n,
     add_collision_suffix [] (lit "." ++ repeat (ord "b") 200)
       (lit "a." ++ repeat (ord "b") 200) = Ok n /\
     len n = 211%Z).
Proof.
  split.
  - rewrite sanitize_latin1 by (vm_compute; reflexivity). vm_compute. reflexivity.
  - eexists. split; vm_compute; reflexivity.
Qed.

Lemma sanitize_over_limit_witness :
  len (@sanitize latin1 (lit "a." ++ repeat (ord "b") 200)) = 201%Z /\
  (exists n,
     add_collision_suffix [] (lit "." ++ repeat (ord "b") 200)
       (lit "a." ++ repeat (ord "b") 200) = Ok n /\
     len n = 211%Z).
Proof. exact (sanitize_over_limit latin1_laws). Defined.

(** C3 at the failing inputs: with an extension of 200 characters the
    sanitized name is too long to be safe, and with an extension of exactly
    180 characters (the dot and 179 letters) the base is truncated to
    nothing, so the name has no base to match the grammar. *)
Theorem sanitize_output_not_safe {U : Unicode} (L : UnicodeLaws U) :
  is_safe_filename (sanitize (lit "a." ++ repeat (ord "b") 200)) = false /\
  sanitize (lit "a." ++ repeat (ord "b") 179) = lit "." ++ repeat (ord "b") 179 /\
  is_safe_filename (sanitize (lit "a." ++ repeat (ord "b") 179)) = false.
Proof.
  refine (conj _ (conj _ _)); run_sanitizer.
Qed.

Lemma sanitize_output_not_safe_witness :
  @is_safe_filename latin1 (@sanitize latin1 (lit "a." ++ repeat (ord "b") 200)) = false /\
  @sanitize latin1 (lit "a." ++ repeat (ord "b") 179) = lit "." ++ repeat (ord "b") 179 /\
  @is_safe_filename latin1 (@sanitize latin1 (lit "a." ++ repeat (ord "b") 179)) = false.
Proof. exact (sanitize_output_not_safe latin1_laws). Defined.

(** X1.  The limit holds whenever the sanitized extension itself fits in it. *)
Theorem sanitize_length_bound {U : Unicode} (x : pystr) :
  (len (snd (safe_parts x)) <= MAX_FILENAME_LENGTH)%Z ->
  (len (sanitize x) <= MAX_FILENAME_LENGTH)%Z.
Proof.
  intros H. rewrite sanitize_parts, len_app.
  unfold safe_parts in *. destruct (split_filename x) as [base ext]. cbn [fst snd] in *.
  now apply truncate_length.
Qed.

Lemma sanitize_length_bound_witness :
  (len (@sanitize latin1 (lit "My File (2023).TXT")) <= MAX_FILENAME_LENGTH)%Z.
Proof.
  apply (@sanitize_length_bound latin1 (lit "My File (2023).TXT")).
  vm_compute. discriminate.
Defined.

(** X2.  The limit holds after the collision suffix whenever the extension
    leaves room for the ten characters of the suffix. *)
Theorem collision_length_bound (base_name extension original_name n : pystr) :
  (len extension <= MAX_FILENAME_LENGTH - 10)%Z ->
  add_collision_suffix base_name extension original_name = Ok n ->
  (len n <= MAX_FILENAME_LENGTH)%Z.
Proof.
  intros Hext. unfold add_collision_suffix.
  destruct (hash_suffix original_name) as [h | m] eqn:Eh; [|discriminate].
  apply hash_suffix_length in Eh. intros H.
  match type of H with Ok ?t = _ => assert (E : t = n) by congruence end.
  clear H. rewrite <- E, !len_app.
  assert (Hs : len (lit "--") = 2%Z) by reflexivity.
  assert (Hh : len h = 8%Z) by (unfold len; rewrite Eh; reflexivity).
  rewrite Hs, Hh.
  destruct (MAX_FILENAME_LENGTH - len extension - (2 + 8) <? len base_name)%Z eqn:Em.
  - pose proof (slice_to_length base_name (MAX_FILENAME_LENGTH - len extension - (2 + 8))) as H1.
    pose proof (rstrip_length (lit "-_")
                  (slice_to base_name (MAX_FILENAME_LENGTH - len extension - (2 + 8)))) as H2.
    unfold len in *. lia.
  - apply Z.ltb_ge in Em. lia.
Qed.

Lemma collision_length_bound_witness :
  (len (lit "a-b--cd6c4a05.txt") <= MAX_FILENAME_LENGTH)%Z.
Proof.
  apply (collision_length_bound (lit "a-b") (lit ".txt") (lit "a b.txt")).
  - vm_compute. discriminate.
  - vm_compute. reflexivity.
Defined.

(** ** The sanitized name is accepted by [is_safe_filename] when the
    extension leaves room for a base *)

Lemma plain_cls c : plain c = true -> cls_alnum_sep c = true.
Proof.
  unfold plain, cls_alnum_sep. rewrite orb_true_iff. intros [H | H].
  - rewrite is_alnum_cls in H. unfold cls_alnum in H. now rewrite H.
  - apply is_sep_spec in H. destruct H; subst; reflexivity.
Qed.

Lemma base_matches b :
  shaped is_sep b = true ->
  Re.match_to_end BASE_RE_MANY b || Re.match_to_end BASE_RE_ONE b = true.
Proof.
  intros H. pose proof (shaped_nonempty is_sep b H) as Hne.
  unfold shaped in H. apply andb_true_iff in H. destruct H as [Hs Hl].
  destruct b as [|a t]; [congruence|].
  pose proof (seps_head _ _ _ Hs) as Ha. rewrite is_alnum_cls in Ha.
  apply orb_true_iff. destruct t as [|t0 t'].
  - right. apply ReFacts.match_to_end_spec. left. now constructor.
  - left. apply ReFacts.match_to_end_spec. left.
    assert (Ht : t0 :: t' <> []) by discriminate.
    destruct (exists_last Ht) as [mid [z E]]. rewrite E in *.
    change (a :: mid ++ [z]) with ([a] ++ mid ++ [z]).
    unfold BASE_RE_MANY. constructor; [now constructor|]. constructor.
    + apply ReFacts.lang_star_cls. apply forallb_forall. intros c Hc.
      apply plain_cls.
      apply (shaped_plain is_sep (a :: mid ++ [z]) (fun x Hx => Hx) Hs).
      right. apply in_or_app. now left.
    + constructor. rewrite <- is_alnum_cls.
      change (a :: mid ++ [z]) with ((a :: mid) ++ [z]) in Hl.
      now rewrite last_last in Hl.
Qed.

Lemma ext_matches e :
  ext_shaped e = true -> e <> [] -> Re.match_to_end EXT_RE e = true.
Proof.
  intros H Hne. destruct (ext_shaped_inv e H) as [-> | [body [-> [Hb Hall]]]]; [congruence|].
  apply ReFacts.match_to_end_spec. left. unfold EXT_RE.
  change (lit "." ++ body) with ([ord "."] ++ body).
  constructor; [now constructor|].
  rewrite <- (app_nil_r body). constructor.
  - apply ReFacts.lang_plus_cls. split; [exact Hb | now apply forallb_alnum_cls].
  - apply Re.L_alt_r. constructor.
Qed.

Lemma no_pairs b :
  shaped is_sep b = true ->
  contains (lit "--") b || contains (lit "__") b
  || contains (lit "-_") b || contains (lit "_-") b = false.
Proof.
  intros H. unfold shaped in H. apply andb_true_iff in H. destruct H as [Hs _].
  change (lit "--") with [ord "-"; ord "-"]. change (lit "__") with [ord "_"; ord "_"].
  change (lit "-_") with [ord "-"; ord "_"]. change (lit "_-") with [ord "_"; ord "-"].
  now rewrite !(seps_no_pair is_sep _ _ b true Hs) by reflexivity.
Qed.

Section LawfulSafe.

Context {U : Unicode} {L : UnicodeLaws U}.

Lemma str_lower_fixed s :
  (forall c, In c s -> (c <? 256)%N = true /\ lower1 c = c) -> str_lower s = s.
Proof.
  intros H. rewrite lower_latin1.
  - apply map_fix. intros c Hc. now apply H.
  - apply forallb_forall. intros c Hc. now apply H.
Qed.

Lemma str_lower_joined b e :
  shaped is_sep b = true -> ext_shaped e = true -> str_lower (b ++ e) = b ++ e.
Proof.
  intros Hb He. apply str_lower_fixed. intros c Hc.
  assert (Hplain : forall x, plain x = true -> (x <? 256)%N = true /\ lower1 x = x).
  { intros x Hx. split; [|now apply lower1_plain].
    apply N.ltb_lt. pose proof (plain_ascii x Hx). lia. }
  apply in_app_or in Hc. destruct Hc as [Hc | Hc].
  - apply Hplain. unfold shaped in Hb. apply andb_true_iff in Hb. destruct Hb as [Hs _].
    now apply (shaped_plain is_sep b (fun x Hx => Hx) Hs).
  - destruct (ext_shaped_inv e He) as [-> | [body [-> [_ Hall]]]]; [destruct Hc|].
    destruct Hc as [<- | Hc]; [split; reflexivity|].
    apply Hplain. unfold plain. rewrite forallb_forall in Hall. now rewrite (Hall c Hc).
Qed.

Lemma is_safe_joined b e :
  shaped is_sep b = true -> ext_shaped e = true ->
  (len b + len e <= MAX_FILENAME_LENGTH)%Z ->
  is_safe_filename (b ++ e) = true.
Proof.
  intros Hb He Hlen. unfold is_safe_filename.
  rewrite str_lower_joined, pystr_eqb_refl by assumption. cbn [negb].
  rewrite split_filename_sanitized; [| now right | exact He].
  rewrite base_matches, no_pairs by assumption. cbn [negb].
  assert (Hfit : (MAX_FILENAME_LENGTH <? len (b ++ e))%Z = false).
  { apply Z.ltb_ge. rewrite len_app. lia. }
  rewrite Hfit. destruct e as [|d e']; [reflexivity|].
  rewrite ext_matches; [reflexivity | exact He | discriminate].
Qed.

End LawfulSafe.

(** X3.  Whenever the sanitized extension has fewer than 180 characters the
    sanitized name is one [is_safe_filename] accepts: lowercase, base and
    extension in the grammar, no adjacent separators, at most 180
    characters. *)
Theorem sanitize_is_safe {U : Unicode} (L : UnicodeLaws U) (x : pystr) :
  (len (snd (safe_parts x)) < MAX_FILENAME_LENGTH)%Z ->
  is_safe_filename (sanitize x) = true.
Proof.
  intros H. rewrite sanitize_parts.
  destruct (safe_parts_shape x) as [He [Hlt _]].
  destruct (Hlt H) as [Hb Hfit].
  now apply is_safe_joined.
Qed.

Lemma sanitize_is_safe_witness :
  @is_safe_filename latin1 (@sanitize latin1 (lit "CON.txt")) = true.
Proof.
  apply (sanitize_is_safe latin1_laws (lit "CON.txt")). vm_compute. reflexivity.
Defined.

(** ** C10: the backend selector *)

Import Factory.

Lemma cls_letter_spec l : cls_letter l = true <-> (97 <= l <= 122)%N \/ (65 <= l <= 90)%N.
Proof. unfold cls_letter. now rewrite orb_true_iff, !in_range_spec. Qed.

Lemma cls_word_hyphen_spec {U : Unicode} w :
  forallb cls_word_hyphen w = true <-> (forall c, In c w -> is_word c = true \/ c = ord "-").
Proof.
  rewrite forallb_forall. unfold cls_word_hyphen.
  split; intros H c Hc; specialize (H c Hc).
  - apply orb_true_iff in H. destruct H as [H | H]; [now left | right; now apply N.eqb_eq].
  - apply orb_true_iff. destruct H as [H | H]; [now left | right; now apply N.eqb_eq].
Qed.

Lemma not_followed_spec rest :
  not_followed_by cls_slash rest = true <->
  rest = [] \/ exists c rest', rest = c :: rest' /\ c <> ord "/" /\ c <> ord "\".
Proof.
  unfold not_followed_by, cls_slash. destruct rest as [|c rest'].
  - split; [now left | reflexivity].
  - rewrite negb_true_iff, orb_false_iff, !N.eqb_neq. split.
    + intros [H1 H2]. right. exists c, rest'. auto.
    + intros [H | [c' [r' [E [H1 H2]]]]]; [discriminate|].
      injection E as -> ->. auto.
Qed.

Lemma lang_seq_inv r1 r2 s :
  Re.lang (Re.Seq r1 r2) s -> exists s1 s2, s = s1 ++ s2 /\ Re.lang r1 s1 /\ Re.lang r2 s2.
Proof. intros H. inversion H; subst. eauto. Qed.

Lemma lang_cls_inv p s : Re.lang (Re.Cls p) s -> exists c, s = [c] /\ p c = true.
Proof. intros H. inversion H; subst. eauto. Qed.

Lemma remote_re_lang {U : Unicode} p :
  Re.lang REMOTE_RE p <->
  exists l w, p = l :: w ++ [ord ":"] /\ cls_letter l = true /\ forallb cls_word_hyphen w = true.
Proof.
  unfold REMOTE_RE. split.
  - intros H.
    apply lang_seq_inv in H. destruct H as [s1 [s2 [-> [H1 H2]]]].
    apply lang_cls_inv in H1. destruct H1 as [l [-> Hl]].
    apply lang_seq_inv in H2. destruct H2 as [w [s3 [-> [Hw H3]]]].
    apply lang_cls_inv in H3. destruct H3 as [c [-> Hc]].
    apply ReFacts.lang_star_cls in Hw.
    unfold cls_colon in Hc. apply N.eqb_eq in Hc. subst c.
    exists l, w. split; [reflexivity|]. split; assumption.
  - intros [l [w [-> [Hl Hw]]]].
    change (l :: w ++ [ord ":"]) with ([l] ++ w ++ [ord ":"]).
    constructor; [now constructor|]. constructor.
    + now apply ReFacts.lang_star_cls.
    + constructor. apply N.eqb_refl.
Qed.

Lemma is_remote_path_form {U : Unicode} s : is_remote_path s = true <-> remote_form s.
Proof.
  unfold is_remote_path, remote_form. rewrite ReFacts.match_not_followed_spec. split.
  - intros [p [rest [-> [Hp Hr]]]]. apply remote_re_lang in Hp.
    destruct Hp as [l [w [-> [Hl Hw]]]].
    exists l, w, rest. split; [simpl; now rewrite <- app_assoc|].
    split; [now apply cls_letter_spec|].
    split; [now apply cls_word_hyphen_spec | now apply not_followed_spec].
  - intros [l [w [rest [-> [Hl [Hw Hr]]]]]].
    exists (l :: w ++ [ord ":"]), rest. split; [simpl; now rewrite <- app_assoc|].
    split; [|now apply not_followed_spec].
    apply remote_re_lang. exists l, w. split; [reflexivity|].
    split; [now apply cls_letter_spec | now apply cls_word_hyphen_spec].
Qed.

(** On an ASCII path every lawful [\w] decides as [latin1]'s does. *)
Lemma is_remote_path_ascii {U : Unicode} (L : UnicodeLaws U) s :
  forallb (fun c => N.ltb c 128%N) s = true ->
  is_remote_path s = @is_remote_path latin1 s.
Proof.
  intros Hs. rewrite forallb_forall in Hs.
  assert (Hiff : @remote_form U s <-> @remote_form latin1 s).
  { unfold remote_form.
    split; intros [l [w [rest [E [Hl [Hw Hr]]]]]]; exists l, w, rest;
      (split; [exact E|]; split; [exact Hl|]; split; [|exact Hr]);
      intros c Hc; specialize (Hw c Hc);
      assert (Hlt : (c < 128)%N)
        by (apply N.ltb_lt, Hs; subst s; right; apply in_or_app; now left).
    - rewrite (@word_ascii U L c Hlt) in Hw. exact Hw.
    - rewrite (@word_ascii U L c Hlt). exact Hw. }
  destruct (@is_remote_path latin1 s) eqn:E.
  - apply is_remote_path_form, Hiff, is_remote_path_form, E.
  - destruct (@is_remote_path U s) eqn:E'; [|reflexivity].
    apply is_remote_path_form, Hiff, is_remote_path_form in E'. congruence.
Qed.

(** C10: [is_remote_path] holds exactly of the strings made of an initial
    letter, word characters or hyphens, and a colon not immediately followed
    by a slash or a backslash; so "gdrive:folder" is remote, "C:\folder",
    "/home/user" and "\\server\share" are local, and the bare drive "C:" is
    remote. *)
Theorem is_remote_path_pattern {U : Unicode} (L : UnicodeLaws U) :
  (forall s, is_remote_path s = true <-> remote_form s) /\
  is_remote_path (lit "gdrive:folder") = true /\
  is_remote_path (lit "C:\folder") = false /\
  is_remote_path (lit "/home/user") = false /\
  is_remote_path (lit "\\server\share") = false /\
  is_remote_path (lit "C:") = true.
Proof.
  refine (conj _ (conj _ (conj _ (conj _ (conj _ _))))).
  - apply is_remote_path_form.
  - now rewrite (is_remote_path_ascii L) by reflexivity.
  - now rewrite (is_remote_path_ascii L) by reflexivity.
  - now rewrite (is_remote_path_ascii L) by reflexivity.
  - now rewrite (is_remote_path_ascii L) by reflexivity.
  - now rewrite (is_remote_path_ascii L) by reflexivity.
Qed.

Lemma is_remote_path_pattern_witness :
  (forall s, @is_remote_path latin1 s = true <-> @remote_form latin1 s) /\
  @is_remote_path latin1 (lit "gdrive:folder") = true /\
  @is_remote_path latin1 (lit "C:\folder") = false /\
  @is_remote_path latin1 (lit "/home/user") = false /\
  @is_remote_path latin1 (lit "\\server\share") = false /\
  @is_remote_path latin1 (lit "C:") = true.
Proof. exact (is_remote_path_pattern latin1_laws). Defined.

(** ** The orchestrator *)

Import Renamer.

Lemma Ok_inj {A : Type} (a b : A) : Ok a = Ok b -> a = b.
Proof. intros H. inversion H. reflexivity. Qed.

Section RenameFile.

Context {U : Unicode} {W : Type}.
Variable b : Backend W.

(** The body of [rename_file], for a file that is not skipped. *)
Lemma rename_file_body_unfold file_path dry_run st :
  is_system_file (name file_path) = false ->
  is_safe_filename (name file_path) = false ->
  rename_file_body b file_path dry_run st =
  match resolve_target b file_path st with
  | (Ok target, st') =>
      if dry_run then (Ok (result_success file_path (snd target) (sidecar_of (snd target))), st')
      else execute b file_path target st'
  | (Raise e, st') => (Raise e, st')
  end.
Proof.
  intros Hsys Hsafe. unfold rename_file_body, resolve_target, collision_name.
  rewrite Hsys, Hsafe. unfold bind at 1 2. unfold call at 1.
  destruct (file_exists b (path_join (parent file_path) (sanitize (name file_path))) (world st))
    as [[[|] | e] w]; [| destruct dry_run; reflexivity | reflexivity].
  destruct (split_filename (sanitize (name file_path))) as [base ext].
  unfold bind at 1, lift_exc at 1.
  destruct (add_collision_suffix base ext (name file_path)) as [n | e];
    [destruct dry_run; reflexivity | reflexivity].
Qed.

Lemma rename_file_skipped file_path dry_run st :
  is_system_file (name file_path) = true \/ is_safe_filename (name file_path) = true ->
  exists reason, rename_file b file_path dry_run st = (Ok (result_skipped file_path reason), st).
Proof.
  intros H. unfold rename_file, try_except, rename_file_body.
  destruct (is_system_file (name file_path)) eqn:Es; [eexists; reflexivity|].
  destruct H as [H | H]; [discriminate|]. rewrite H. eexists; reflexivity.
Qed.

Lemma bind_ok {A B : Type} (m : M W A) (k : A -> M W B) st r st' :
  bind m k st = (Ok r, st') -> exists a st1, m st = (Ok a, st1) /\ k a st1 = (Ok r, st').
Proof.
  unfold bind. destruct (m st) as [[a | e] st1]; [|discriminate]. eauto.
Qed.

(** [execute] returns a success for this file or raises. *)
Lemma execute_original_path file_path target st r st' :
  execute b file_path target st = (Ok r, st') -> original_path r = file_path.
Proof.
  unfold execute. destruct target as [safe_name new_path]. intros H.
  repeat (apply bind_ok in H; destruct H as [? [? [_ H]]]).
  unfold ret in H. apply pair_equal_spec in H. destruct H as [H _].
  apply Ok_inj in H. now subst r.
Qed.

(** [rename_file] never raises: it returns an outcome, and the outcome is
    about the file it was given. *)
Lemma rename_file_returns file_path dry_run st :
  exists r st', rename_file b file_path dry_run st = (Ok r, st') /\ original_path r = file_path.
Proof.
  destruct (is_system_file (name file_path)) eqn:Es.
  { destruct (rename_file_skipped file_path dry_run st (or_introl Es)) as [reason ->].
    eexists _, _. split; reflexivity. }
  destruct (is_safe_filename (name file_path)) eqn:Ea.
  { destruct (rename_file_skipped file_path dry_run st (or_intror Ea)) as [reason ->].
    eexists _, _. split; reflexivity. }
  unfold rename_file, try_except. rewrite rename_file_body_unfold by assumption.
  destruct (resolve_target b file_path st) as [[target | e] st1].
  - destruct dry_run.
    + eexists _, _. split; reflexivity.
    + destruct (execute b file_path target st1) as [[r | e] st2] eqn:Ex.
      * eexists _, _. split; [reflexivity|]. now apply (execute_original_path _ _ _ _ _ Ex).
      * eexists _, _. split; reflexivity.
  - eexists _, _. split; reflexivity.
Qed.

End RenameFile.


Section Batch.

Context {U : Unicode} {W : Type}.
Variable b : Backend W.
Variable dry_run : bool.

Lemma rename_loop_chained files : forall acc st,
  exists rs st',
    rename_loop b dry_run files acc st = (acc ++ rs, None, st') /\ chained b dry_run files st rs st'.
Proof.
  induction files as [|f files IH]; intros acc st.
  - exists [], st. split; [simpl; now rewrite app_nil_r | constructor].
  - destruct (rename_file_returns b f dry_run st) as [r [st1 [E _]]].
    destruct (IH (acc ++ [r]) st1) as [rs [st2 [E2 Hc]]].
    exists (r :: rs), st2. split.
    + cbn [rename_loop]. rewrite E, E2. now rewrite <- app_assoc.
    + econstructor; eassumption.
Qed.

Lemma chained_original_paths files st rs st' :
  chained b dry_run files st rs st' -> map original_path rs = files.
Proof.
  induction 1 as [| f files st r st1 rs st2 E _ IH]; [reflexivity|].
  destruct (rename_file_returns b f dry_run st) as [r' [st1' [E' Hp]]].
  rewrite E in E'. apply pair_equal_spec in E'. destruct E' as [E' _].
  apply Ok_inj in E'. subst r'. cbn [map]. now rewrite Hp, IH.
Qed.



End Batch.

Section Robustness.

Context {U : Unicode} {W : Type}.
Variable b : Backend W.




End Robustness.

(** ** C6: a dry run *)

(** What a dry run returns and leaves, for a file that is not skipped. *)
Lemma rename_file_dry_run {U : Unicode} {W : Type} (b : Backend W) (p : Path) (st : St W) :
  is_system_file (name p) = false ->
  is_safe_filename (name p) = false ->
  rename_file b p true st =
  match resolve_target b p st with
  | (Ok target, st') => (Ok (result_success p (snd target) (sidecar_of (snd target))), st')
  | (Raise e, st') => (Ok (result_failure p e), st')
  end.
Proof.
  intros Hsys Hsafe. unfold rename_file, try_except.
  rewrite rename_file_body_unfold by assumption.
  destruct (resolve_target b p st) as [[target | e] st']; reflexivity.
Qed.

(** C6, as stated, fails: the probe runs inside the [try] block before
    the dry-run return, so when it raises (here: the rclone binary is
    missing) the dry run returns a [Failed] outcome, not a [Success]. *)
Lemma dry_run_probe_failure :
  let p := mkPath (lit "remote:dir") (lit "My File.TXT") in
  is_system_file (name p) = false /\
  @is_safe_filename latin1 (name p) = false /\
  fst (@rename_file latin1 _ (memfs (fun _ => false) true false []) p true (mkSt [] [])) =
  Ok (result_failure p (lit "[Errno 2] No such file or directory: 'rclone'")).
Proof.
  refine (conj _ (conj _ _)); vm_compute; reflexivity.
Qed.

(** C6, amended: on a dry run of a file that is neither a system file nor
    already safe, the only call made is the existence probe, and the world
    is as the probe left it: the rename, hash, size and sidecar-write
    capabilities are not invoked.  The outcome is a [Success] with the
    would-be destination and sidecar path when the probe returns (and, on a
    collision, when the suffix can be computed); an error of the probe or
    of the suffix gives a [Failed] outcome. *)
Theorem dry_run_only_probes {U : Unicode} {W : Type} (b : Backend W) (p : Path) (st : St W) :
  is_system_file (name p) = false ->
  is_safe_filename (name p) = false ->
  let candidate := path_join (parent p) (sanitize (name p)) in
  let probe := file_exists b candidate (world st) in
  let out := rename_file b p true st in
  snd out = mkSt (snd probe) (log st ++ [CallExists candidate]) /\
  (fst probe = Ok false ->
   fst out = Ok (result_success p candidate (sidecar_of candidate))) /\
  (forall n, fst probe = Ok true -> collision_name (name p) = Ok n ->
   fst out = Ok (result_success p (path_join (parent p) n)
                   (sidecar_of (path_join (parent p) n)))) /\
  (forall e, fst probe = Raise e -> fst out = Ok (result_failure p e)) /\
  (forall e, fst probe = Ok true -> collision_name (name p) = Raise e ->
   fst out = Ok (result_failure p e)).
Proof.
  intros Hsys Hsafe candidate probe out. subst out.
  rewrite rename_file_dry_run by assumption. unfold resolve_target.
  fold candidate. fold probe. destruct probe as [[[|] | e] w]; cbn [fst snd].
  - destruct (collision_name (name p)) as [n | e]; cbn [fst snd].
    + refine (conj eq_refl (conj _ (conj _ (conj _ _)))); intros; try discriminate.
      match goal with H : Ok n = Ok _ |- _ => apply Ok_inj in H; subst end. reflexivity.
    + refine (conj eq_refl (conj _ (conj _ (conj _ _)))); intros; try discriminate.
      congruence.
  - refine (conj eq_refl (conj _ (conj _ (conj _ _)))); intros; try discriminate. reflexivity.
  - refine (conj eq_refl (conj _ (conj _ (conj _ _)))); intros; try discriminate. congruence.
Qed.

Lemma dry_run_only_probes_witness :
  let b := memfs (fun _ => false) false false demo_files in
  let st := mkSt demo_files [] in
  let candidate := path_join (parent demo_first) (@sanitize latin1 (name demo_first)) in
  let probe := file_exists b candidate (world st) in
  let out := @rename_file latin1 _ b demo_first true st in
  snd out = mkSt (snd probe) (log st ++ [CallExists candidate]) /\
  (fst probe = Ok false ->
   fst out = Ok (result_success demo_first candidate (sidecar_of candidate))) /\
  (forall n, fst probe = Ok true -> @collision_name latin1 (name demo_first) = Ok n ->
   fst out = Ok (result_success demo_first (path_join (parent demo_first) n)
                   (sidecar_of (path_join (parent demo_first) n)))) /\
  (forall e, fst probe = Raise e -> fst out = Ok (result_failure demo_first e)) /\
  (forall e, fst probe = Ok true -> @collision_name latin1 (name demo_first) = Raise e ->
   fst out = Ok (result_failure demo_first e)).
Proof.
  apply (@dry_run_only_probes latin1 _ (memfs (fun _ => false) false false demo_files)
           demo_first (mkSt demo_files [])); vm_compute; reflexivity.
Defined.

(** ** C5 and C7: the batch *)







(** C7, as stated, fails: when the listing raises, [rename_directory]
    catches the exception and returns an empty list of outcomes; nothing is
    propagated to the caller. *)
Lemma listing_failure_not_propagated :
  fst (@rename_directory latin1 _ (memfs (fun _ => false) false true demo_files)
         (mkPath [] demo_dir) true false (mkSt demo_files [])) = Ok [].
Proof. vm_compute. reflexivity. Qed.

(** ** C4: the collision resolver *)

Lemma rstrip_is_prefix chars s : exists d, s = rstrip chars s ++ d.
Proof.
  induction s as [|c s IH] using rev_ind.
  - exists []. reflexivity.
  - rewrite rstrip_snoc. destruct (in_str c chars).
    + destruct IH as [d Hd]. exists (d ++ [c]). rewrite app_assoc. now rewrite <- Hd.
    + exists []. now rewrite app_nil_r.
Qed.

Lemma slice_to_is_prefix s k : exists d, s = slice_to s k ++ d.
Proof.
  unfold slice_to. destruct (k <? 0)%Z; eexists; symmetry; apply firstn_skipn.
Qed.

(** The name the resolver returns: what is kept of the base, two dashes,
    the eight characters of the hash of the original name, the extension. *)
Lemma add_collision_suffix_form base_name extension original_name n :
  add_collision_suffix base_name extension original_name = Ok n ->
  exists suffix kept d,
    hash_suffix original_name = Ok suffix /\ length suffix = 8%nat /\
    n = kept ++ lit "--" ++ suffix ++ extension /\ base_name = kept ++ d.
Proof.
  unfold add_collision_suffix.
  destruct (hash_suffix original_name) as [h | m] eqn:Eh; [|discriminate].
  intros H. match type of H with Ok ?t = _ => assert (E : t = n) by congruence end.
  clear H. pose proof (hash_suffix_length original_name h Eh) as Hl.
  set (max_base_len := (MAX_FILENAME_LENGTH - len extension - len (lit "--" ++ h))%Z) in *.
  destruct (max_base_len <? len base_name)%Z.
  - destruct (slice_to_is_prefix base_name max_base_len) as [d1 H1].
    destruct (rstrip_is_prefix (lit "-_") (slice_to base_name max_base_len)) as [d2 H2].
    exists h, (rstrip (lit "-_") (slice_to base_name max_base_len)), (d2 ++ d1).
    split; [reflexivity|]. split; [exact Hl|]. split.
    + rewrite <- E. reflexivity.
    + rewrite app_assoc, <- H2. exact H1.
  - exists h, base_name, []. split; [reflexivity|]. split; [exact Hl|]. split.
    + rewrite <- E. reflexivity.
    + now rewrite app_nil_r.
Qed.

(** C4, as stated, fails: with the same original name "x" and two
    different sanitized bases the resolver returns two different names.
    They share the hash suffix, not the base. *)
Lemma resolver_depends_on_base :
  add_collision_suffix (lit "a") (lit ".txt") (lit "x") = Ok (lit "a--2d711642.txt") /\
  add_collision_suffix (lit "b") (lit ".txt") (lit "x") = Ok (lit "b--2d711642.txt") /\
  add_collision_suffix (lit "a") (lit ".txt") (lit "x") <>
  add_collision_suffix (lit "b") (lit ".txt") (lit "x").
Proof.
  refine (conj _ (conj _ _)); vm_compute; try reflexivity. discriminate.
Qed.

(** * More of the sanitizer *)

(** ** [split_filename] loses nothing *)

Lemma split_max_nonempty sep n s : split_max sep n s <> [].
Proof.
  destruct n; simpl; [discriminate|].
  destruct (break_at sep s) as [[a b]|]; discriminate.
Qed.

Lemma join_cons sep p rest : rest <> [] -> join sep (p :: rest) = p ++ sep ++ join sep rest.
Proof. destruct rest; [congruence | reflexivity]. Qed.

Lemma split_max_join sep n : forall s, join [sep] (split_max sep n s) = s.
Proof.
  induction n as [|n IH]; intros s; [reflexivity|].
  cbn [split_max]. destruct (break_at sep s) as [[a b]|] eqn:E; [|reflexivity].
  rewrite join_cons by apply split_max_nonempty.
  rewrite IH. symmetry. now apply break_at_app.
Qed.

Lemma join_snoc sep parts p :
  parts <> [] -> join sep (parts ++ [p]) = join sep parts ++ sep ++ p.
Proof.
  induction parts as [|q parts IH]; intros H; [congruence|].
  destruct parts as [|q' parts]; [reflexivity|].
  change ((q :: q' :: parts) ++ [p]) with (q :: ((q' :: parts) ++ [p])).
  rewrite join_cons by (destruct parts; discriminate).
  rewrite IH by discriminate.
  rewrite (join_cons sep q) by discriminate.
  now rewrite <- !app_assoc.
Qed.

Lemma join_rev sep parts : join [sep] (rev (map (@rev codepoint) parts)) = rev (join [sep] parts).
Proof.
  induction parts as [|p parts IH]; [reflexivity|].
  destruct parts as [|q parts]; [reflexivity|].
  cbn [map rev]. cbn [map rev] in IH.
  rewrite join_snoc.
  - rewrite IH. rewrite (join_cons [sep] p) by discriminate.
    rewrite !rev_app_distr. cbn [rev app]. now rewrite <- !app_assoc.
  - intros E. apply app_eq_nil in E. destruct E; discriminate.
Qed.

Lemma rsplit_join sep n s : join [sep] (rsplit sep n s) = s.
Proof.
  unfold rsplit. rewrite join_rev, split_max_join. apply rev_involutive.
Qed.

Lemma rsplit_nonempty sep n s : rsplit sep n s <> [].
Proof.
  unfold rsplit. intros E.
  apply (f_equal (@rev pystr)) in E. rewrite rev_involutive in E. cbn in E.
  apply map_eq_nil in E. now apply (split_max_nonempty sep n (rev s)).
Qed.

Lemma join_removelast_last sep (parts : list pystr) :
  (2 <= length parts)%nat ->
  join sep (removelast parts) ++ sep ++ last parts [] = join sep parts.
Proof.
  intros H.
  assert (Hne : parts <> []) by (destruct parts; [simpl in H; lia | discriminate]).
  rewrite (app_removelast_last [] Hne) at 3.
  rewrite join_snoc; [reflexivity|].
  destruct parts as [|p [|q parts]]; simpl in H; try lia. discriminate.
Qed.

(** One part exactly when the separator does not occur. *)
Lemma split_max_single sep n s :
  length (split_max sep (S n) s) = 1%nat <-> ~ In sep s.
Proof.
  cbn [split_max]. destruct (break_at sep s) as [[a b]|] eqn:E.
  - split.
    + cbn [length]. pose proof (split_max_nonempty sep n b).
      destruct (split_max sep n b); [congruence | cbn [length]; lia].
    + intros H. exfalso. apply H. apply break_at_app in E. subst s.
      apply in_or_app. right. now left.
  - split; [|reflexivity]. intros _ Hin.
    assert (Hsome : forall t, In sep t -> break_at sep t <> None).
    { induction t as [|c t IHt]; intros Ht; [destruct Ht|].
      cbn [break_at]. destruct (N.eqb c sep) eqn:Ec; [discriminate|].
      destruct Ht as [-> | Ht]; [rewrite N.eqb_refl in Ec; discriminate|].
      specialize (IHt Ht). destruct (break_at sep t) as [[a b]|]; [discriminate | congruence]. }
    now apply (Hsome s Hin).
Qed.

Lemma rsplit_single sep n s : length (rsplit sep (S n) s) = 1%nat <-> ~ In sep s.
Proof.
  unfold rsplit. rewrite length_rev, length_map, split_max_single.
  split; intros H Hin; apply H; now apply in_rev in Hin + (apply in_rev; rewrite rev_involutive).
Qed.

Lemma split_filename_app (filename : pystr) :
  fst (split_filename filename) ++ snd (split_filename filename) = filename.
Proof.
  unfold split_filename.
  pose proof (rsplit_join (ord ".") 2 filename) as Hjoin.
  set (parts := rsplit (ord ".") 2 filename) in *.
  destruct ((length parts =? 3)%nat && mem_str (nth 1 parts []) [lit "tar"; lit "backup"]) eqn:E.
  - apply andb_true_iff in E. destruct E as [E _]. apply Nat.eqb_eq in E.
    destruct parts as [|p0 [|p1 [|p2 [|p3 parts]]]]; try discriminate.
    cbn [fst snd nth]. rewrite <- Hjoin. reflexivity.
  - destruct (2 <=? length parts)%nat eqn:E2; cbn [fst snd]; [|apply app_nil_r].
    apply Nat.leb_le in E2. rewrite <- Hjoin. now apply (join_removelast_last (lit ".")).
Qed.

(** X4.  Base and extension concatenate to the file name; the extension is
    empty or starts with a dot, and it is empty exactly when the name has
    no dot. *)
Theorem split_filename_round_trip (filename : pystr) :
  fst (split_filename filename) ++ snd (split_filename filename) = filename /\
  (snd (split_filename filename) = [] \/
   exists rest, snd (split_filename filename) = ord "." :: rest) /\
  (snd (split_filename filename) = [] <-> ~ In (ord ".") filename).
Proof.
  split; [apply split_filename_app|].
  unfold split_filename.
  pose proof (rsplit_single (ord ".") 1 filename) as Hone.
  pose proof (rsplit_nonempty (ord ".") 2 filename) as Hne.
  set (parts := rsplit (ord ".") 2 filename) in *.
  destruct ((length parts =? 3)%nat && mem_str (nth 1 parts []) [lit "tar"; lit "backup"]) eqn:E.
  - apply andb_true_iff in E. destruct E as [E _]. apply Nat.eqb_eq in E.
    cbn [snd]. split; [right; eexists; reflexivity|].
    split; [discriminate|]. intros H. apply Hone in H. lia.
  - destruct (2 <=? length parts)%nat eqn:E2; cbn [snd].
    + apply Nat.leb_le in E2. split; [right; eexists; reflexivity|].
      split; [discriminate|]. intros H. apply Hone in H. lia.
    + apply Nat.leb_gt in E2. split; [now left|].
      split; [|reflexivity]. intros _. apply Hone.
      destruct parts as [|p [|q parts]]; [congruence | reflexivity | simpl in E2; lia].
Qed.

(** ** The whitelist *)

Lemma allowed_plain c : plain c = true -> allowed c = true.
Proof. unfold plain, allowed. intros ->. reflexivity. Qed.

Lemma ext_shaped_allowed e : ext_shaped e = true -> forallb allowed e = true.
Proof.
  intros H. destruct (ext_shaped_inv e H) as [-> | [body [-> [_ Hall]]]]; [reflexivity|].
  change (lit "." ++ body) with (ord "." :: body). cbn [forallb].
  apply andb_true_iff. split; [reflexivity|].
  apply forallb_forall. intros c Hc. rewrite forallb_forall in Hall.
  unfold allowed. now rewrite (Hall c Hc).
Qed.

Lemma checked_base_shaped {U : Unicode} base :
  shaped is_sep (check_reserved_name (sanitize_base_name base)) = true.
Proof. apply check_reserved_name_shaped, sanitize_base_name_shaped. Qed.

(** X5.  Whatever the input, every character of the sanitized name is a
    lowercase ASCII letter, a digit, a hyphen, an underscore or a dot. *)
Theorem sanitize_whitelist {U : Unicode} (x : pystr) : forallb allowed (sanitize x) = true.
Proof.
  rewrite sanitize_parts, forallb_app. apply andb_true_iff. split.
  - apply forallb_forall. intros c Hc. apply allowed_plain.
    unfold safe_parts in Hc. destruct (split_filename x) as [base ext]. cbn [fst] in Hc.
    apply truncate_In in Hc.
    pose proof (checked_base_shaped base) as Hs.
    unfold shaped in Hs. apply andb_true_iff in Hs. destruct Hs as [Hs _].
    exact (shaped_plain is_sep _ (fun c H => H) Hs c Hc).
  - apply ext_shaped_allowed. apply safe_parts_shape.
Qed.

(** X6.  The sanitized name is never empty. *)
Theorem sanitize_nonempty {U : Unicode} (x : pystr) : sanitize x <> [].
Proof.
  rewrite sanitize_parts. intros E. apply app_eq_nil in E. destruct E as [Eb Ee].
  destruct (safe_parts_shape x) as [_ [Hlt _]].
  rewrite Ee in Hlt. destruct Hlt as [Hb _]; [reflexivity|].
  apply (shaped_nonempty is_sep _ Hb Eb).
Qed.

(** ** Names with two hyphens in a row *)

Lemma starts_with_head a p s : starts_with (a :: p) s = true -> In a s.
Proof.
  destruct s as [|c s]; [discriminate|]. cbn [starts_with].
  intros H. apply andb_true_iff in H. destruct H as [H _]. apply N.eqb_eq in H. now left.
Qed.

Lemma contains_In a p s : contains (a :: p) s = true -> In a s.
Proof.
  induction s as [|c s IH]; cbn [contains]; intros H.
  - rewrite orb_false_r in H. discriminate.
  - apply orb_true_iff in H. destruct H as [H | H].
    + now apply starts_with_head in H.
    + right. now apply IH.
Qed.

Lemma contains_two_app x y a b :
  contains [x; y] (a ++ b) = true -> contains [x; y] a = true \/ In y b.
Proof.
  induction a as [|c a IH]; intros H.
  - right. cbn [app] in H. induction b as [|d b IHb]; [discriminate|].
    cbn [contains starts_with] in H. apply orb_true_iff in H. destruct H as [H | H].
    + apply andb_true_iff in H. destruct H as [_ H].
      destruct b as [|d' b]; [discriminate|].
      apply andb_true_iff in H. destruct H as [H _]. apply N.eqb_eq in H. subst d'.
      right. now left.
    + right. now apply IHb.
  - change ((c :: a) ++ b) with (c :: a ++ b) in H. cbn [contains] in H.
    apply orb_true_iff in H. destruct H as [H | H].
    + cbn [starts_with] in H. apply andb_true_iff in H. destruct H as [Hc H].
      destruct a as [|c' a].
      * right. cbn [app] in H. destruct b as [|e b]; [discriminate|].
        apply andb_true_iff in H. destruct H as [H _]. apply N.eqb_eq in H. now left.
      * left. cbn [contains starts_with]. rewrite Hc.
        change ((c' :: a) ++ b) with (c' :: a ++ b) in H.
        apply andb_true_iff in H. destruct H as [H _]. now rewrite H.
    + destruct (IH H) as [H' | H']; [left | now right].
      cbn [contains]. rewrite H'. apply orb_true_r.
Qed.

Lemma starts_with_app p s : starts_with p (p ++ s) = true.
Proof. induction p as [|a p IH]; [reflexivity|]. cbn. now rewrite N.eqb_refl. Qed.

Lemma contains_middle p a s : contains p (a ++ p ++ s) = true.
Proof.
  induction a as [|c a IH].
  - cbn [app]. destruct (p ++ s) eqn:E; cbn [contains]; rewrite <- E, starts_with_app; reflexivity.
  - change ((c :: a) ++ p ++ s) with (c :: a ++ p ++ s). cbn [contains].
    rewrite IH. apply orb_true_r.
Qed.

Lemma lang_may_occur r s : Re.lang r s -> forall c, In c s -> may_occur r c = true.
Proof.
  induction 1; intros d Hd; cbn [may_occur].
  - destruct Hd.
  - destruct Hd as [<- | []]. assumption.
  - apply in_app_or in Hd. apply orb_true_iff. destruct Hd; [left | right]; auto.
  - apply orb_true_iff. left. auto.
  - apply orb_true_iff. right. auto.
  - destruct Hd.
  - apply in_app_or in Hd. destruct Hd as [Hd | Hd]; [now apply IHlang1 | exact (IHlang2 d Hd)].
Qed.

Lemma ext_re_no_hyphen e : In (ord "-") e -> Re.match_to_end EXT_RE e = false.
Proof.
  intros Hin. destruct (Re.match_to_end EXT_RE e) eqn:E; [|reflexivity].
  unfold Re.match_to_end in E. apply ReFacts.fullmatch_spec in E.
  pose proof (lang_may_occur _ _ E _ Hin) as H. vm_compute in H. discriminate.
Qed.

(** A name with two hyphens in a row is never taken for a safe one. *)
Lemma double_hyphen_not_safe {U : Unicode} x :
  contains (lit "--") x = true -> is_safe_filename x = false.
Proof.
  intros H. unfold is_safe_filename.
  destruct (negb (pystr_eqb x (str_lower x))); [reflexivity|].
  pose proof (split_filename_app x) as Hx.
  destruct (split_filename x) as [base ext]. cbn [fst snd] in Hx.
  rewrite <- Hx in H. apply (contains_two_app (ord "-") (ord "-")) in H. destruct H as [H | H].
  - destruct (match ext with [] => false | _ => negb (Re.match_to_end EXT_RE ext) end);
      [reflexivity|].
    destruct (negb (Re.match_to_end BASE_RE_MANY base || Re.match_to_end BASE_RE_ONE base));
      [reflexivity|].
    change (contains (lit "--") base) with (contains [ord "-"; ord "-"] base).
    rewrite H. reflexivity.
  - rewrite (ext_re_no_hyphen ext H). destruct ext; [destruct H | reflexivity].
Qed.

(** X7.  The name the collision resolver returns is never one
    [is_safe_filename] accepts: it holds two hyphens in a row. *)
Theorem collision_name_not_safe {U : Unicode} (base_name extension original_name n : pystr) :
  add_collision_suffix base_name extension original_name = Ok n ->
  is_safe_filename n = false.
Proof.
  intros H. apply add_collision_suffix_form in H.
  destruct H as [suffix [kept [d [_ [_ [-> _]]]]]].
  apply double_hyphen_not_safe. apply contains_middle.
Qed.

Lemma collision_name_not_safe_witness :
  exists n, add_collision_suffix (lit "a-b") (lit ".txt") (lit "a b.txt") = Ok n /\
            @is_safe_filename latin1 n = false.
Proof.
  eexists. split; [vm_compute; reflexivity|].
  apply (@collision_name_not_safe latin1 (lit "a-b") (lit ".txt") (lit "a b.txt")).
  vm_compute. reflexivity.
Defined.

(** The second pass over a collision name: the loop of
    [sanitize_base_name] keeps one of the two hyphens. *)

Lemma hex_digit_alnum d : is_alnum (Sha256.hex_digit d) = true.
Proof.
  unfold Sha256.hex_digit. generalize (N.to_nat d). intros n.
  do 16 (destruct n as [|n]; [vm_compute; reflexivity|]).
  destruct n; vm_compute; reflexivity.
Qed.

Lemma hex8_alnum x : forallb is_alnum (Sha256.hex8 x) = true.
Proof.
  unfold Sha256.hex8. cbn [map forallb]. rewrite !hex_digit_alnum. reflexivity.
Qed.

Lemma hexdigest_alnum msg : forallb is_alnum (Sha256.hexdigest msg) = true.
Proof.
  unfold Sha256.hexdigest. cbv zeta. rewrite !forallb_app, !hex8_alnum. reflexivity.
Qed.

Lemma hash_suffix_alnum original_name h :
  hash_suffix original_name = Ok h -> forallb is_alnum h = true.
Proof.
  unfold hash_suffix. destruct (utf8_encode original_name) as [bytes | m]; [|discriminate].
  intros H. apply Ok_inj in H. subst h.
  apply forallb_forall. intros c Hc. apply firstn_In in Hc.
  pose proof (hexdigest_alnum bytes) as Ha. rewrite forallb_forall in Ha. now apply Ha.
Qed.

Lemma seps_alnum sep p s : forallb is_alnum s = true -> seps_single sep p s = true.
Proof.
  revert p. induction s as [|c s IH]; intros p H; [reflexivity|].
  cbn [forallb] in H. apply andb_true_iff in H. destruct H as [Hc Hs].
  cbn [seps_single]. rewrite Hc. now apply IH.
Qed.

Lemma base_step_skip r c : is_sep c = true -> base_step (r, true) c = (r, true).
Proof.
  intros H. unfold base_step.
  assert (Ha : in_str c ALNUM = false).
  { destruct (in_str c ALNUM) eqn:E; [|reflexivity].
    pose proof (alnum_not_sep c) as Hn. unfold is_alnum in Hn. rewrite E in Hn.
    specialize (Hn eq_refl). congruence. }
  rewrite Ha. unfold is_sep in H. rewrite H. destruct r; reflexivity.
Qed.

Lemma app_cons_nonempty (A : Type) (l : list A) (x : A) (l' : list A) : l ++ x :: l' <> [].
Proof. intros E. apply app_eq_nil in E. destruct E; discriminate. Qed.

Lemma fold_base_step_state s : forall acc p,
  seps_single is_dash p s = true -> acc <> [] -> s <> [] ->
  snd (fold_left base_step s (acc, p)) = negb (is_alnum (last s 0%N)).
Proof.
  induction s as [|c s IH]; intros acc p Hs Hacc Hne; [congruence|].
  cbn [fold_left]. cbn [seps_single] in Hs.
  destruct (is_alnum c) eqn:Ea.
  - rewrite base_step_alnum by assumption.
    destruct s as [|c' s]; [cbn [fold_left snd last]; now rewrite Ea|].
    rewrite (IH _ _ Hs (app_cons_nonempty _ _ _ _)) by discriminate. reflexivity.
  - destruct (is_dash c) eqn:Ed; [|discriminate].
    apply andb_true_iff in Hs. destruct Hs as [Hp Hs].
    apply negb_true_iff in Hp. subst p.
    unfold is_dash in Ed. apply N.eqb_eq in Ed. subst c.
    destruct acc as [|a acc]; [congruence|].
    rewrite base_step_dash.
    destruct s as [|c' s]; [reflexivity|].
    exact (IH ((a :: acc) ++ lit "-") true Hs (app_cons_nonempty _ (a :: acc) (ord "-") [])
             ltac:(discriminate)).
Qed.

Lemma base_loop_collision b h :
  shaped is_dash b = true -> forallb is_alnum h = true ->
  base_loop (b ++ lit "--" ++ h) = b ++ lit "-" ++ h.
Proof.
  intros Hb Hh. pose proof (shaped_nonempty is_dash b Hb) as Hne.
  unfold shaped in Hb. apply andb_true_iff in Hb. destruct Hb as [Hs Hl].
  destruct b as [|a b]; [congruence|].
  pose proof (seps_head _ _ _ Hs) as Ha.
  unfold base_loop. rewrite fold_left_app.
  assert (Hst : fold_left base_step (a :: b) ([], false) = (a :: b, false)).
  { cbn [fold_left]. rewrite base_step_alnum by assumption. cbn [app].
    cbn [seps_single] in Hs. rewrite Ha in Hs.
    destruct b as [|c b]; [reflexivity|].
    apply injective_projections.
    - cbn [fst]. rewrite fold_base_step_copy by (assumption || discriminate). reflexivity.
    - cbn [snd]. rewrite fold_base_step_state by (assumption || discriminate).
      change (last (a :: c :: b) 0%N) with (last (c :: b) 0%N) in Hl. now rewrite Hl. }
  rewrite Hst. change (lit "--" ++ h) with (ord "-" :: ord "-" :: h). cbn [fold_left].
  rewrite base_step_dash, base_step_skip by reflexivity.
  rewrite fold_base_step_copy.
  - now rewrite <- app_assoc.
  - now apply seps_alnum.
  - intros E. apply app_eq_nil in E. destruct E; discriminate.
Qed.

Lemma shaped_collision b h :
  shaped is_dash b = true -> forallb is_alnum h = true -> h <> [] ->
  shaped is_dash (b ++ lit "-" ++ h) = true.
Proof.
  intros Hb Hh Hne. pose proof (shaped_nonempty is_dash b Hb) as Hbne.
  unfold shaped in *. apply andb_true_iff in Hb. destruct Hb as [Hs Hl].
  apply andb_true_iff. split.
  - rewrite seps_app, Hs. cbn [andb].
    assert (He : end_flag true b = false).
    { destruct b; [congruence|]. unfold end_flag. now rewrite Hl. }
    rewrite He. change (lit "-" ++ h) with (ord "-" :: h). cbn [seps_single].
    replace (is_alnum (ord "-")) with false by (vm_compute; reflexivity).
    replace (is_dash (ord "-")) with true by reflexivity. cbn [negb andb].
    now apply seps_alnum.
  - rewrite app_assoc. destruct (exists_last Hne) as [h' [c ->]].
    rewrite app_assoc, last_last.
    rewrite forallb_app in Hh. apply andb_true_iff in Hh. destruct Hh as [_ Hc].
    cbn in Hc. now rewrite andb_true_r in Hc.
Qed.

Lemma reserved_no_hyphen s : mem_str s RESERVED_NAMES = true -> ~ In (ord "-") s.
Proof.
  intros H Hin.
  assert (Hall : forallb (fun r => negb (in_str (ord "-") r)) RESERVED_NAMES = true)
    by (vm_compute; reflexivity).
  unfold mem_str in H. apply existsb_exists in H. destruct H as [r [Hr E]].
  apply pystr_eqb_eq in E. subst r.
  rewrite forallb_forall in Hall. specialize (Hall s Hr). apply negb_true_iff in Hall.
  unfold in_str in Hall.
  assert (Ht : existsb (N.eqb (ord "-")) s = true).
  { apply existsb_exists. exists (ord "-"). split; [exact Hin | apply N.eqb_refl]. }
  congruence.
Qed.

Section SecondPass.

Context {U : Unicode} {L : UnicodeLaws U}.

Lemma sanitize_collision_name b h e :
  shaped is_dash b = true -> forallb is_alnum h = true -> h <> [] ->
  ext_shaped e = true ->
  (len b + 1 + len h + len e <= MAX_FILENAME_LENGTH)%Z ->
  sanitize (b ++ lit "--" ++ h ++ e) = b ++ lit "-" ++ h ++ e.
Proof.
  intros Hb Hh Hne He Hlen.
  pose proof (shaped_collision b h Hb Hh Hne) as Hbh.
  assert (Hplain : forall c, In c (b ++ lit "--" ++ h) -> plain c = true).
  { intros c Hc. apply in_app_or in Hc. destruct Hc as [Hc | Hc].
    - unfold shaped in Hb. apply andb_true_iff in Hb. destruct Hb as [Hs _].
      exact (shaped_plain is_dash b is_dash_sep Hs c Hc).
    - change (lit "--" ++ h) with (ord "-" :: ord "-" :: h) in Hc.
      destruct Hc as [<- | [<- | Hc]]; [reflexivity | reflexivity |].
      rewrite forallb_forall in Hh. unfold plain. now rewrite (Hh c Hc). }
  assert (Hdot : no_sep (ord ".") (b ++ lit "--" ++ h)).
  { intros c Hc ->. specialize (Hplain _ Hc). vm_compute in Hplain. discriminate. }
  assert (Hsplit : split_filename ((b ++ lit "--" ++ h) ++ e) = (b ++ lit "--" ++ h, e)).
  { destruct (ext_shaped_inv e He) as [-> | [body [-> [_ Hall]]]].
    - rewrite app_nil_r. now apply split_filename_no_dot.
    - apply split_filename_joined; [exact Hdot | now apply alnum_no_dot]. }
  replace (b ++ lit "--" ++ h ++ e) with ((b ++ lit "--" ++ h) ++ e)
    by now rewrite <- !app_assoc.
  unfold sanitize. rewrite Hsplit.
  assert (Hbase : sanitize_base_name (b ++ lit "--" ++ h) = b ++ lit "-" ++ h).
  { rewrite sanitize_base_name_unfold.
    rewrite normalize_plain by assumption.
    rewrite str_lower_plain by assumption.
    rewrite transliterate_ascii by (intros c Hc; apply plain_ascii; now apply Hplain).
    rewrite base_loop_collision by assumption. now apply finish_fix. }
  rewrite Hbase, (sanitize_extension_fix e He).
  assert (Hp' : forall c, In c (b ++ lit "-" ++ h) -> plain c = true).
  { unfold shaped in Hbh. apply andb_true_iff in Hbh. destruct Hbh as [Hs _].
    exact (shaped_plain is_dash _ is_dash_sep Hs). }
  rewrite check_reserved_name_plain by assumption.
  assert (Hres : mem_str (b ++ lit "-" ++ h) RESERVED_NAMES = false).
  { destruct (mem_str (b ++ lit "-" ++ h) RESERVED_NAMES) eqn:E; [|reflexivity].
    exfalso. apply (reserved_no_hyphen _ E). apply in_or_app. right. now left. }
  rewrite Hres. unfold truncate_if_needed.
  assert (Hfit : (MAX_FILENAME_LENGTH - len e <? len (b ++ lit "-" ++ h))%Z = false).
  { apply Z.ltb_ge. rewrite !len_app. change (len (lit "-")) with 1%Z. lia. }
  rewrite Hfit. now rewrite <- !app_assoc.
Qed.

End SecondPass.

(** X8.  A second pass does not leave a collision name alone.  For a sanitized
    base without underscores and a sanitized extension that leave room for
    the ten characters of the suffix, the resolver returns
    [base--hash.ext], and sanitizing that name gives [base-hash.ext]: one
    hyphen of the two is dropped. *)
Theorem collision_name_second_pass {U : Unicode} (L : UnicodeLaws U)
    (base_name extension original_name n : pystr) :
  shaped is_dash base_name = true ->
  ext_shaped extension = true ->
  (len base_name + len extension + 10 <= MAX_FILENAME_LENGTH)%Z ->
  add_collision_suffix base_name extension original_name = Ok n ->
  exists h,
    hash_suffix original_name = Ok h /\
    n = base_name ++ lit "--" ++ h ++ extension /\
    sanitize n = base_name ++ lit "-" ++ h ++ extension.
Proof.
  intros Hb He Hlen H. unfold add_collision_suffix in H.
  destruct (hash_suffix original_name) as [h | m] eqn:Eh; [|discriminate].
  pose proof (hash_suffix_length _ _ Eh) as Hl.
  pose proof (hash_suffix_alnum _ _ Eh) as Ha.
  exists h. split; [reflexivity|]. cbv zeta in H.
  assert (Hfit : (MAX_FILENAME_LENGTH - len extension - len (lit "--" ++ h) <? len base_name)%Z
                 = false).
  { apply Z.ltb_ge. rewrite len_app. replace (len h) with 8%Z by (unfold len; now rewrite Hl).
    change (len (lit "--")) with 2%Z. lia. }
  rewrite Hfit in H. apply Ok_inj in H. subst n.
  rewrite <- !app_assoc. split; [reflexivity|].
  apply sanitize_collision_name; try assumption.
  - intros ->. discriminate.
  - replace (len h) with 8%Z by (unfold len; now rewrite Hl). lia.
Qed.

Lemma collision_name_second_pass_witness :
  exists h,
    hash_suffix (lit "a b.txt") = Ok h /\
    lit "a-b--cd6c4a05.txt" = lit "a-b" ++ lit "--" ++ h ++ lit ".txt" /\
    @sanitize latin1 (lit "a-b--cd6c4a05.txt") = lit "a-b" ++ lit "-" ++ h ++ lit ".txt".
Proof.
  apply (@collision_name_second_pass latin1 latin1_laws (lit "a-b") (lit ".txt") (lit "a b.txt"));
    first [vm_compute; reflexivity | vm_compute; discriminate].
Defined.

(** * More of the orchestrator *)

Section LiveRun.

Context {U : Unicode} {W : Type}.
Variable b : Backend W.

Lemma rename_file_state p dry_run st :
  snd (rename_file b p dry_run st) = snd (rename_file_body b p dry_run st).
Proof.
  unfold rename_file, try_except.
  destruct (rename_file_body b p dry_run st) as [[r | e] st']; reflexivity.
Qed.

Lemma resolve_target_log p st :
  log (snd (resolve_target b p st)) =
  log st ++ [CallExists (path_join (parent p) (sanitize (name p)))].
Proof.
  unfold resolve_target.
  destruct (file_exists b (path_join (parent p) (sanitize (name p))) (world st))
    as [[[|] | e] w]; try reflexivity.
  destruct (collision_name (name p)); reflexivity.
Qed.

Lemma resolve_target_world p st :
  world (snd (resolve_target b p st)) =
  snd (file_exists b (path_join (parent p) (sanitize (name p))) (world st)).
Proof.
  unfold resolve_target.
  destruct (file_exists b (path_join (parent p) (sanitize (name p))) (world st))
    as [[[|] | e] w]; try reflexivity.
  destruct (collision_name (name p)); reflexivity.
Qed.

Lemma resolve_target_parent p st safe_name target st1 :
  resolve_target b p st = (Ok (safe_name, target), st1) ->
  target = path_join (parent p) safe_name.
Proof.
  unfold resolve_target.
  destruct (file_exists b (path_join (parent p) (sanitize (name p))) (world st))
    as [[[|] | e] w]; intros H.
  - destruct (collision_name (name p)) as [n | e]; [|discriminate].
    apply pair_equal_spec in H. destruct H as [H _]. apply Ok_inj in H.
    apply pair_equal_spec in H. destruct H as [<- <-]. reflexivity.
  - apply pair_equal_spec in H. destruct H as [H _]. apply Ok_inj in H.
    apply pair_equal_spec in H. destruct H as [<- <-]. reflexivity.
  - apply pair_equal_spec in H. destruct H as [H _]. discriminate.
Qed.

(** The live part of the body, call by call. *)
Lemma execute_unfold p safe_name t st :
  execute b p (safe_name, t) st =
  match _perform_rename b p t (world st) with
  | (Raise e, w1) => (Raise e, mkSt w1 (log st ++ firstn 1 (live_calls p t
                        no_content)))
  | (Ok _, w1) =>
    match compute_hash b t w1 with
    | (Raise e, w2) => (Raise e, mkSt w2 (log st ++ firstn 2 (live_calls p t
                          no_content)))
    | (Ok file_hash, w2) =>
      match _get_file_size b t w2 with
      | (Raise e, w3) => (Raise e, mkSt w3 (log st ++ firstn 3 (live_calls p t
                            no_content)))
      | (Ok file_size, w3) =>
        match FileMetadata_init (name p) safe_name file_size file_hash (algorithm_name b)
                (now_isoformat b w3) with
        | Raise e => (Raise e, mkSt w3 (log st ++ firstn 3 (live_calls p t
                        no_content)))
        | Ok metadata =>
          match write_sidecar b t (from_metadata metadata) w3 with
          | (Raise e, w4) =>
              (Raise e, mkSt w4 (log st ++ live_calls p t (from_metadata metadata)))
          | (Ok sidecar_path, w4) =>
              (Ok (result_success p t sidecar_path),
               mkSt w4 (log st ++ live_calls p t (from_metadata metadata)))
          end
        end
      end
    end
  end.
Proof.
  unfold execute, bind, call, now, lift_exc, ret, live_calls. cbn [world log firstn].
  destruct (_perform_rename b p t (world st)) as [[[] | e] w1]; [|reflexivity].
  cbn [world log].
  destruct (compute_hash b t w1) as [[file_hash | e] w2];
    [|rewrite <- !app_assoc; reflexivity].
  cbn [world log].
  destruct (_get_file_size b t w2) as [[file_size | e] w3];
    [|rewrite <- !app_assoc; reflexivity].
  cbn [world log].
  destruct (FileMetadata_init (name p) safe_name file_size file_hash (algorithm_name b)
              (now_isoformat b w3)) as [metadata | e];
    [|rewrite <- !app_assoc; reflexivity].
  destruct (write_sidecar b t (from_metadata metadata) w3) as [[sidecar_path | e] w4];
    rewrite <- !app_assoc; reflexivity.
Qed.

Lemma execute_log p target st :
  exists k content,
    log (snd (execute b p target st)) =
    log st ++ firstn (S k) (live_calls p (snd target) content).
Proof.
  destruct target as [safe_name t]. rewrite execute_unfold. cbn [snd].
  destruct (_perform_rename b p t (world st)) as [[[] | e] w1];
    [|exists 0%nat, no_content; reflexivity].
  destruct (compute_hash b t w1) as [[file_hash | e] w2];
    [|exists 1%nat, no_content; reflexivity].
  destruct (_get_file_size b t w2) as [[file_size | e] w3];
    [|exists 2%nat, no_content; reflexivity].
  destruct (FileMetadata_init (name p) safe_name file_size file_hash (algorithm_name b)
              (now_isoformat b w3)) as [metadata | e];
    [|exists 2%nat, no_content; reflexivity].
  destruct (write_sidecar b t (from_metadata metadata) w3) as [[sidecar_path | e] w4];
    exists 3%nat, (from_metadata metadata); reflexivity.
Qed.

End LiveRun.

(** X9.  A system file or an already safe file is skipped without any call on
    the backend: the state, log included, is the one the call started
    from, on a dry run and on a live run alike.  When both tests hold the
    reason given is [System file]. *)
Theorem skipped_files_untouched {U : Unicode} {W : Type} (b : Backend W) (p : Path)
    (dry_run : bool) (st : St W) :
  is_system_file (name p) = true \/ is_safe_filename (name p) = true ->
  rename_file b p dry_run st =
  (Ok (result_skipped p (if is_system_file (name p) then lit "System file"
                         else lit "Already safe")), st).
Proof.
  intros H. unfold rename_file, try_except, rename_file_body.
  destruct (is_system_file (name p)); [reflexivity|].
  destruct H as [H | H]; [discriminate|]. rewrite H. reflexivity.
Qed.

Lemma skipped_files_untouched_witness :
  let p := mkPath demo_dir (lit "thumbs.db") in
  @is_safe_filename latin1 (name p) = true /\
  @rename_file latin1 _ (memfs (fun _ => false) false false demo_files) p false
    (mkSt demo_files []) =
  (Ok (result_skipped p (lit "System file")), mkSt demo_files []).
Proof.
  split; [vm_compute; reflexivity|].
  exact (@skipped_files_untouched latin1 _ (memfs (fun _ => false) false false demo_files)
           (mkPath demo_dir (lit "thumbs.db")) false (mkSt demo_files [])
           (or_introl eq_refl)).
Defined.

Ltac order_side :=
  repeat split; intros; try lia; try discriminate; try congruence;
  try (match goal with H : _ \/ _ |- _ => destruct H; congruence end).

(** X10.  Whatever the backend does, the calls one [rename_file] makes are an
    initial part of a fixed sequence: the probe of the candidate, the
    rename, the hash, the size, the sidecar write, the last four on one
    destination.  A skipped file makes none, any other file at least the
    probe, and a dry run at most the probe. *)
Theorem rename_file_call_order {U : Unicode} {W : Type} (b : Backend W) (p : Path)
    (dry_run : bool) (st : St W) :
  exists k target content,
    log (snd (rename_file b p dry_run st)) =
      log st ++ firstn k (protocol p (path_join (parent p) (sanitize (name p)))
                            target content) /\
    (is_system_file (name p) = true \/ is_safe_filename (name p) = true -> k = 0%nat) /\
    (is_system_file (name p) = false -> is_safe_filename (name p) = false -> (1 <= k)%nat) /\
    (dry_run = true -> (k <= 1)%nat).
Proof.
  destruct (is_system_file (name p)) eqn:Es.
  { destruct (rename_file_skipped b p dry_run st (or_introl Es)) as [reason ->].
    exists 0%nat, p, no_content. cbn [snd firstn].
    rewrite app_nil_r. order_side. }
  destruct (is_safe_filename (name p)) eqn:Ea.
  { destruct (rename_file_skipped b p dry_run st (or_intror Ea)) as [reason ->].
    exists 0%nat, p, no_content. cbn [snd firstn].
    rewrite app_nil_r. order_side. }
  rewrite rename_file_state, rename_file_body_unfold by assumption.
  pose proof (resolve_target_log b p st) as Hlog.
  destruct (resolve_target b p st) as [[target | e] st1]; cbn [snd] in Hlog.
  - destruct dry_run.
    + exists 1%nat, p, no_content. cbn [snd firstn protocol].
      rewrite Hlog. order_side.
    + destruct (execute_log b p target st1) as [k [content Hk]].
      exists (S (S k)), (snd target), content. rewrite Hk, Hlog, <- app_assoc.
      order_side.
  - exists 1%nat, p, no_content. cbn [snd firstn protocol].
    rewrite Hlog. order_side.
Qed.

Lemma FileMetadata_init_ok original_name safe_name size_bytes hash_value hash_algorithm
    timestamp metadata :
  FileMetadata_init original_name safe_name size_bytes hash_value hash_algorithm timestamp
    = Ok metadata ->
  mem_str hash_algorithm [lit "sha256"; lit "md5"] = true /\
  metadata = mkFileMetadata original_name safe_name size_bytes hash_value hash_algorithm
               timestamp.
Proof.
  unfold FileMetadata_init.
  destruct (mem_str hash_algorithm [lit "sha256"; lit "md5"]); [|discriminate].
  intros H. apply Ok_inj in H. now split.
Qed.

Lemma pair_ok_inv {A S : Type} (a a' : A) (s s' : S) :
  (@Ok A a, s) = (Ok a', s') -> a = a' /\ s = s'.
Proof. intros H. apply pair_equal_spec in H. destruct H as [H ->]. apply Ok_inj in H. now split. Qed.

Section LiveOutcome.

Context {U : Unicode} {W : Type}.
Variable b : Backend W.

(** What a returned [execute] went through. *)
Lemma execute_ok p safe_name t st r st' :
  execute b p (safe_name, t) st = (Ok r, st') ->
  exists file_hash file_size sidecar w1 w2 w3,
    _perform_rename b p t (world st) = (Ok tt, w1) /\
    compute_hash b t w1 = (Ok file_hash, w2) /\
    _get_file_size b t w2 = (Ok file_size, w3) /\
    mem_str (algorithm_name b) [lit "sha256"; lit "md5"] = true /\
    write_sidecar b t
      (from_metadata (mkFileMetadata (name p) safe_name file_size file_hash (algorithm_name b)
                        (now_isoformat b w3))) w3 = (Ok sidecar, world st') /\
    r = result_success p t sidecar /\
    log st' = log st ++ live_calls p t
      (from_metadata (mkFileMetadata (name p) safe_name file_size file_hash (algorithm_name b)
                        (now_isoformat b w3))).
Proof.
  rewrite execute_unfold. intros H.
  destruct (_perform_rename b p t (world st)) as [[[] | e] w1] eqn:E1;
    [|apply pair_equal_spec in H; destruct H; discriminate].
  destruct (compute_hash b t w1) as [[file_hash | e] w2] eqn:E2;
    [|apply pair_equal_spec in H; destruct H; discriminate].
  destruct (_get_file_size b t w2) as [[file_size | e] w3] eqn:E3;
    [|apply pair_equal_spec in H; destruct H; discriminate].
  destruct (FileMetadata_init (name p) safe_name file_size file_hash (algorithm_name b)
              (now_isoformat b w3)) as [metadata | e] eqn:Em;
    [|apply pair_equal_spec in H; destruct H; discriminate].
  apply FileMetadata_init_ok in Em. destruct Em as [Halg ->].
  destruct (write_sidecar b t _ w3) as [[sidecar | e] w4] eqn:Ew;
    [|apply pair_equal_spec in H; destruct H; discriminate].
  apply pair_ok_inv in H. destruct H as [<- <-].
  exists file_hash, file_size, sidecar, w1, w2, w3.
  refine (conj eq_refl (conj E2 (conj E3 (conj Halg (conj Ew (conj eq_refl eq_refl)))))).
Qed.

(** With an unsupported algorithm name the live part raises before the
    sidecar call. *)
Lemma execute_unsupported p safe_name t st :
  mem_str (algorithm_name b) [lit "sha256"; lit "md5"] = false ->
  exists e k,
    execute b p (safe_name, t) st =
    (Raise e, mkSt (world (snd (execute b p (safe_name, t) st)))
                (log st ++ firstn (S k) (live_calls p t no_content))) /\
    (k < 3)%nat.
Proof.
  intros Halg. rewrite execute_unfold. unfold FileMetadata_init. rewrite Halg.
  destruct (_perform_rename b p t (world st)) as [[[] | e] w1];
    [|exists e, 0%nat; split; [reflexivity | lia]].
  destruct (compute_hash b t w1) as [[file_hash | e] w2];
    [|exists e, 1%nat; split; [reflexivity | lia]].
  destruct (_get_file_size b t w2) as [[file_size | e] w3];
    eexists _, 2%nat; (split; [reflexivity | lia]).
Qed.

Lemma execute_new_path p target st r st' :
  execute b p target st = (Ok r, st') -> new_path r = Some (snd target).
Proof.
  destruct target as [safe_name t]. intros H. apply execute_ok in H.
  destruct H as [file_hash [file_size [sidecar [w1 [w2 [w3 H]]]]]].
  destruct H as [_ [_ [_ [_ [_ [-> _]]]]]]. reflexivity.
Qed.

(** What a dry run appends to the log and does to the world. *)
Lemma rename_file_dry_calls p st :
  exists calls,
    log (snd (rename_file b p true st)) = log st ++ calls /\
    forallb is_exists_call calls = true /\
    ((forall q w, snd (file_exists b q w) = w) ->
     world (snd (rename_file b p true st)) = world st).
Proof.
  destruct (is_system_file (name p)) eqn:Es.
  { destruct (rename_file_skipped b p true st (or_introl Es)) as [reason ->].
    exists []. cbn [snd]. rewrite app_nil_r. now repeat split. }
  destruct (is_safe_filename (name p)) eqn:Ea.
  { destruct (rename_file_skipped b p true st (or_intror Ea)) as [reason ->].
    exists []. cbn [snd]. rewrite app_nil_r. now repeat split. }
  rewrite rename_file_dry_run by assumption.
  pose proof (resolve_target_log b p st) as Hlog.
  pose proof (resolve_target_world b p st) as Hw.
  exists [CallExists (path_join (parent p) (sanitize (name p)))].
  destruct (resolve_target b p st) as [[target | e] st1]; cbn [snd] in *;
    (split; [exact Hlog | split; [reflexivity | intros Hro; now rewrite Hw, Hro]]).
Qed.

Lemma rename_loop_dry_calls files : forall acc st,
  exists calls,
    log (snd (rename_loop b true files acc st)) = log st ++ calls /\
    forallb is_exists_call calls = true /\
    ((forall q w, snd (file_exists b q w) = w) ->
     world (snd (rename_loop b true files acc st)) = world st).
Proof.
  induction files as [|f files IH]; intros acc st.
  - exists []. cbn [rename_loop snd]. rewrite app_nil_r. now repeat split.
  - cbn [rename_loop].
    destruct (rename_file_dry_calls f st) as [c1 [Hl1 [Hp1 Hw1]]].
    destruct (rename_file b f true st) as [[r | e] st1]; cbn [snd] in *.
    + destruct (IH (acc ++ [r]) st1) as [c2 [Hl2 [Hp2 Hw2]]].
      exists (c1 ++ c2). rewrite Hl2, Hl1, <- app_assoc.
      split; [reflexivity|]. split; [rewrite forallb_app; now rewrite Hp1, Hp2|].
      intros Hro. now rewrite (Hw2 Hro), (Hw1 Hro).
    + exists c1. now repeat split.
Qed.

End LiveOutcome.

(** X11.  What a [Success] outcome of a live run stands for.  Five calls were
    made, in this order: the probe of the candidate, then the rename, the
    hash, the size and the sidecar write on one destination in the
    directory of the file, each on the world the one before left, and each
    returned.  The sidecar content handed to the writer names the schema,
    the original name, the new name, the size and the hash the backend
    returned, the algorithm name, which is one of the two supported, and
    the time read after the size; the outcome carries the destination and
    the sidecar path the writer returned. *)
Theorem live_success_record {U : Unicode} {W : Type} (b : Backend W) (p : Path)
    (st : St W) (r : RenameResult) (st' : St W) :
  rename_file b p false st = (Ok r, st') ->
  success r = true -> skipped r = false ->
  let candidate := path_join (parent p) (sanitize (name p)) in
  exists target content sidecar w1 w2 w3,
    log st' = log st ++ protocol p candidate target content /\
    r = result_success p target sidecar /\
    parent target = parent p /\
    content = mkSidecarContent (lit "it.infrastructures.filemeta.v1") (name p) (name target)
                (file_size_bytes content) (hash content) (algorithm_name b)
                (now_isoformat b w3) /\
    mem_str (algorithm_name b) [lit "sha256"; lit "md5"] = true /\
    _perform_rename b p target (snd (file_exists b candidate (world st))) = (Ok tt, w1) /\
    compute_hash b target w1 = (Ok (hash content), w2) /\
    _get_file_size b target w2 = (Ok (file_size_bytes content), w3) /\
    write_sidecar b target content w3 = (Ok sidecar, world st').
Proof.
  intros H Hs Hk candidate.
  destruct (is_system_file (name p)) eqn:Es.
  { destruct (rename_file_skipped b p false st (or_introl Es)) as [reason E].
    rewrite E in H. apply pair_ok_inv in H. destruct H as [<- _]. discriminate. }
  destruct (is_safe_filename (name p)) eqn:Ea.
  { destruct (rename_file_skipped b p false st (or_intror Ea)) as [reason E].
    rewrite E in H. apply pair_ok_inv in H. destruct H as [<- _]. discriminate. }
  unfold rename_file, try_except in H. rewrite rename_file_body_unfold in H by assumption.
  pose proof (resolve_target_log b p st) as Hlog.
  pose proof (resolve_target_world b p st) as Hw.
  destruct (resolve_target b p st) as [[[safe_name t] | e] st1] eqn:Er; cbn [snd] in *.
  2: { unfold ret in H. apply pair_ok_inv in H. destruct H as [<- _]. discriminate. }
  apply resolve_target_parent in Er.
  destruct (execute b p (safe_name, t) st1) as [[r1 | e] st2] eqn:Ex.
  2: { unfold ret in H. apply pair_ok_inv in H. destruct H as [<- _]. discriminate. }
  apply pair_ok_inv in H. destruct H as [-> ->].
  apply execute_ok in Ex.
  destruct Ex as [file_hash [file_size [sidecar [w1 [w2 [w3 Ex]]]]]].
  destruct Ex as [Hren [Hhash [Hsize [Halg [Hside [Hr Hl]]]]]].
  exists t, (from_metadata (mkFileMetadata (name p) safe_name file_size file_hash
                              (algorithm_name b) (now_isoformat b w3))),
    sidecar, w1, w2, w3.
  subst candidate. rewrite Hl, Hlog, <- app_assoc, <- Hw.
  subst t. cbn [parent name path_join].
  refine (conj eq_refl (conj Hr (conj eq_refl (conj eq_refl (conj Halg
            (conj Hren (conj Hhash (conj Hsize Hside)))))))).
Qed.

Lemma live_success_record_witness :
  let b := memfs (fun _ => false) false false demo_files in
  let st' := mkSt [mkPath demo_dir (lit "a-b.txt.meta.json"); mkPath demo_dir (lit "a-b.txt");
                   demo_second]
               (protocol demo_first (mkPath demo_dir (lit "a-b.txt"))
                  (mkPath demo_dir (lit "a-b.txt"))
                  (mkSidecarContent (lit "it.infrastructures.filemeta.v1") (lit "A B.txt")
                     (lit "a-b.txt") 0 (lit "e3b0c442") (lit "sha256")
                     (lit "2025-01-01T10:00:00"))) in
  exists target content sidecar w1 w2 w3,
    log st' = [] ++ protocol demo_first (mkPath demo_dir (lit "a-b.txt")) target content /\
    result_success demo_first (mkPath demo_dir (lit "a-b.txt"))
      (mkPath demo_dir (lit "a-b.txt.meta.json")) = result_success demo_first target sidecar /\
    parent target = demo_dir /\
    content = mkSidecarContent (lit "it.infrastructures.filemeta.v1") (lit "A B.txt")
                (name target) (file_size_bytes content) (hash content) (lit "sha256")
                (now_isoformat b w3) /\
    mem_str (lit "sha256") [lit "sha256"; lit "md5"] = true /\
    _perform_rename b demo_first target demo_files = (Ok tt, w1) /\
    compute_hash b target w1 = (Ok (hash content), w2) /\
    _get_file_size b target w2 = (Ok (file_size_bytes content), w3) /\
    write_sidecar b target content w3 = (Ok sidecar, world st').
Proof.
  apply (@live_success_record latin1 _ (memfs (fun _ => false) false false demo_files)
           demo_first (mkSt demo_files [])); vm_compute; reflexivity.
Defined.

(** X12.  A hash computer whose algorithm name is neither [sha256] nor [md5]
    makes every live run of a file that is not skipped fail, and the
    failure comes late: the metadata check is made after the rename, the
    hash and the size.  So the outcome is never a success and the sidecar
    writer is never called, while up to four calls, the rename among
    them, are made. *)
Theorem unsupported_algorithm_never_succeeds {U : Unicode} {W : Type} (b : Backend W)
    (p : Path) (st : St W) (r : RenameResult) (st' : St W) :
  mem_str (algorithm_name b) [lit "sha256"; lit "md5"] = false ->
  is_system_file (name p) = false ->
  is_safe_filename (name p) = false ->
  rename_file b p false st = (Ok r, st') ->
  success r = false /\
  exists k target,
    (1 <= k <= 4)%nat /\
    log st' = log st ++ firstn k (protocol p (path_join (parent p) (sanitize (name p)))
                                    target no_content).
Proof.
  intros Halg Hsys Hsafe H.
  unfold rename_file, try_except in H. rewrite rename_file_body_unfold in H by assumption.
  pose proof (resolve_target_log b p st) as Hlog.
  destruct (resolve_target b p st) as [[[safe_name t] | e] st1]; cbn [snd] in *.
  - destruct (execute_unsupported b p safe_name t st1 Halg) as [e [k [Ex Hk]]].
    rewrite Ex in H. unfold ret in H. apply pair_ok_inv in H. destruct H as [<- <-].
    split; [reflexivity|]. exists (S (S k)), t. split; [lia|].
    cbn [log]. rewrite Hlog, <- app_assoc. reflexivity.
  - unfold ret in H. apply pair_ok_inv in H. destruct H as [<- <-].
    split; [reflexivity|]. exists 1%nat, p. split; [lia | exact Hlog].
Qed.

Lemma unsupported_algorithm_never_succeeds_witness :
  let b := with_algorithm (memfs (fun _ => false) false false demo_files) (lit "sha1") in
  let r := result_failure demo_first
             (lit "Invalid hash algorithm: sha1. Must be 'sha256' or 'md5'") in
  let st' := mkSt [mkPath demo_dir (lit "a-b.txt"); demo_second]
               [CallExists (mkPath demo_dir (lit "a-b.txt"));
                CallRename demo_first (mkPath demo_dir (lit "a-b.txt"));
                CallHash (mkPath demo_dir (lit "a-b.txt"));
                CallSize (mkPath demo_dir (lit "a-b.txt"))] in
  @rename_file latin1 _ b demo_first false (mkSt demo_files []) = (Ok r, st') /\
  success r = false /\
  exists k target,
    (1 <= k <= 4)%nat /\
    log st' = [] ++ firstn k (protocol demo_first (mkPath demo_dir (lit "a-b.txt"))
                                target no_content).
Proof.
  split; [vm_compute; reflexivity|].
  apply (@unsupported_algorithm_never_succeeds latin1 _
           (with_algorithm (memfs (fun _ => false) false false demo_files) (lit "sha1"))
           demo_first (mkSt demo_files [])); vm_compute; reflexivity.
Defined.

(** X13.  A dry run names the destination a live run from the same state goes
    for.  When the dry run of a file returns a success with destination
    [target], the live run from that state probes the same candidate and
    then calls the rename hook from the file to [target]; if it returns a
    success, its destination is [target] too. *)
Theorem dry_run_predicts_target {U : Unicode} {W : Type} (b : Backend W) (p : Path)
    (st : St W) (rd : RenameResult) (std : St W) :
  rename_file b p true st = (Ok rd, std) ->
  success rd = true -> skipped rd = false ->
  exists target,
    rd = result_success p target (sidecar_of target) /\
    parent target = parent p /\
    (exists k content,
       log (snd (rename_file b p false st)) =
       log st ++ firstn (S (S k)) (protocol p (path_join (parent p) (sanitize (name p)))
                                     target content)) /\
    (forall rl stl, rename_file b p false st = (Ok rl, stl) -> success rl = true ->
                    new_path rl = Some target).
Proof.
  intros H Hs Hk.
  destruct (is_system_file (name p)) eqn:Es.
  { destruct (rename_file_skipped b p true st (or_introl Es)) as [reason E].
    rewrite E in H. apply pair_ok_inv in H. destruct H as [<- _]. discriminate. }
  destruct (is_safe_filename (name p)) eqn:Ea.
  { destruct (rename_file_skipped b p true st (or_intror Ea)) as [reason E].
    rewrite E in H. apply pair_ok_inv in H. destruct H as [<- _]. discriminate. }
  rewrite rename_file_dry_run in H by assumption.
  pose proof (resolve_target_log b p st) as Hlog.
  destruct (resolve_target b p st) as [[[safe_name t] | e] st1] eqn:Er; cbn [snd] in *.
  2: { apply pair_ok_inv in H. destruct H as [<- _]. discriminate. }
  apply pair_ok_inv in H. destruct H as [<- <-].
  exists t. split; [reflexivity|]. split.
  { apply resolve_target_parent in Er. subst t. reflexivity. }
  split.
  - rewrite rename_file_state, rename_file_body_unfold, Er by assumption.
    destruct (execute_log b p (safe_name, t) st1) as [k [content Hx]].
    exists k, content. rewrite Hx, Hlog, <- app_assoc. reflexivity.
  - intros rl stl Hl Hsl. unfold rename_file, try_except in Hl.
    rewrite rename_file_body_unfold, Er in Hl by assumption.
    destruct (execute b p (safe_name, t) st1) as [[r1 | e] st2] eqn:Ex.
    + apply pair_ok_inv in Hl. destruct Hl as [<- _].
      exact (execute_new_path b p _ _ _ _ Ex).
    + unfold ret in Hl. apply pair_ok_inv in Hl. destruct Hl as [<- _]. discriminate.
Qed.

Lemma dry_run_predicts_target_witness :
  let b := memfs (fun _ => false) false false demo_files in
  let st := mkSt [demo_second; mkPath demo_dir (lit "a-b.txt")] [] in
  let rd := result_success demo_second (mkPath demo_dir (lit "a-b--cd6c4a05.txt"))
              (mkPath demo_dir (lit "a-b--cd6c4a05.txt.meta.json")) in
  exists target,
    rd = result_success demo_second target (sidecar_of target) /\
    parent target = demo_dir /\
    (exists k content,
       log (snd (@rename_file latin1 _ b demo_second false st)) =
       [] ++ firstn (S (S k)) (protocol demo_second (mkPath demo_dir (lit "a-b.txt"))
                                 target content)) /\
    (forall rl stl, @rename_file latin1 _ b demo_second false st = (Ok rl, stl) ->
                    success rl = true -> new_path rl = Some target).
Proof.
  apply (@dry_run_predicts_target latin1 _ (memfs (fun _ => false) false false demo_files)
           demo_second (mkSt [demo_second; mkPath demo_dir (lit "a-b.txt")] []) _
           (mkSt [demo_second; mkPath demo_dir (lit "a-b.txt")]
              [CallExists (mkPath demo_dir (lit "a-b.txt"))]));
    vm_compute; reflexivity.
Defined.

(** X14.  A dry run of a whole directory: after the listing, the only calls
    made are existence probes, whatever the files and whatever the probes
    return or raise.  No rename, hash, size or sidecar-write call is made,
    and on a backend whose probe leaves the world alone the world is the
    one the listing left. *)
Theorem dry_run_batch_only_probes {U : Unicode} {W : Type} (b : Backend W) (directory : Path)
    (recursive : bool) (st : St W) :
  let out := rename_directory b directory recursive true st in
  (exists calls,
     log (snd out) = log st ++ CallList directory recursive :: calls /\
     forallb is_exists_call calls = true) /\
  ((forall q w, snd (file_exists b q w) = w) ->
   world (snd out) = snd (list_files b directory recursive (world st))).
Proof.
  cbv zeta. unfold rename_directory, call.
  destruct (list_files b directory recursive (world st)) as [[files | e] w1]; cbn [snd].
  - destruct (rename_loop_dry_calls b files [] (mkSt w1 (log st ++ [CallList directory recursive])))
      as [calls [Hl [Hp Hw]]].
    destruct (rename_loop b true files [] (mkSt w1 (log st ++ [CallList directory recursive])))
      as [[results err] st2]; cbn [snd] in *.
    split.
    + exists calls. cbn [log] in Hl. rewrite Hl, <- app_assoc. now split.
    + intros Hro. now rewrite (Hw Hro).
  - split; [exists []; now split | reflexivity].
Qed.

Lemma dry_run_batch_only_probes_witness :
  let b := memfs (fun _ => false) false false demo_files in
  let out := @rename_directory latin1 _ b (mkPath [] demo_dir) true true (mkSt demo_files []) in
  (exists calls,
     log (snd out) = [] ++ CallList (mkPath [] demo_dir) true :: calls /\
     forallb is_exists_call calls = true) /\
  world (snd out) = demo_files.
Proof.
  destruct (@dry_run_batch_only_probes latin1 _ (memfs (fun _ => false) false false demo_files)
              (mkPath [] demo_dir) true (mkSt demo_files [])) as [Hc Hw].
  split; [exact Hc|]. apply Hw. intros q w. reflexivity.
Defined.

(** * Statistics and the exit code *)

Lemma sum_ones_filter {A : Type} (cond : A -> bool) (results : list A) :
  Stats.sum_ones cond results = Z.of_nat (length (filter cond results)).
Proof.
  unfold Stats.sum_ones.
  assert (H : forall acc, fold_left (fun acc r => if cond r then (acc + 1)%Z else acc) results acc
                          = (acc + Z.of_nat (length (filter cond results)))%Z).
  { induction results as [|r results IH]; intros acc; cbn [fold_left filter].
    - cbn. lia.
    - rewrite IH. destruct (cond r); cbn [length]; lia. }
  rewrite H. lia.
Qed.

Lemma sum_ones_snoc {A : Type} (cond : A -> bool) (results : list A) (r : A) :
  Stats.sum_ones cond (results ++ [r]) =
  (Stats.sum_ones cond results + if cond r then 1 else 0)%Z.
Proof.
  unfold Stats.sum_ones. rewrite fold_left_app. cbn [fold_left].
  destruct (cond r); lia.
Qed.

Section Outcomes.

Context {U : Unicode} {W : Type}.
Variable b : Backend W.
Variable dry_run : bool.

Lemma rename_file_constructed p st r st' :
  rename_file b p dry_run st = (Ok r, st') -> constructed r.
Proof.
  intros H. unfold constructed.
  destruct (is_system_file (name p)) eqn:Es.
  { destruct (rename_file_skipped b p dry_run st (or_introl Es)) as [reason E].
    rewrite E in H. apply pair_ok_inv in H. destruct H as [<- _]. right. left. now exists reason. }
  destruct (is_safe_filename (name p)) eqn:Ea.
  { destruct (rename_file_skipped b p dry_run st (or_intror Ea)) as [reason E].
    rewrite E in H. apply pair_ok_inv in H. destruct H as [<- _]. right. left. now exists reason. }
  unfold rename_file, try_except in H. rewrite rename_file_body_unfold in H by assumption.
  destruct (resolve_target b p st) as [[[safe_name t] | e] st1].
  - destruct dry_run.
    + apply pair_ok_inv in H. destruct H as [<- _]. left. eexists _, _. reflexivity.
    + destruct (execute b p (safe_name, t) st1) as [[r1 | e] st2] eqn:Ex.
      * apply pair_ok_inv in H. destruct H as [<- _]. apply execute_ok in Ex.
        destruct Ex as [? [? [sidecar [? [? [? [_ [_ [_ [_ [_ [-> _]]]]]]]]]]]].
        left. eexists _, _. reflexivity.
      * unfold ret in H. apply pair_ok_inv in H. destruct H as [<- _].
        right. right. now exists e.
  - unfold ret in H. apply pair_ok_inv in H. destruct H as [<- _]. right. right. now exists e.
Qed.

Lemma chained_constructed files st rs st' :
  chained b dry_run files st rs st' -> Forall constructed rs.
Proof.
  induction 1 as [| f files st r st1 rs st2 E _ IH]; constructor; [|exact IH].
  exact (rename_file_constructed _ _ _ _ E).
Qed.

(** The outcomes of [rename_directory]: one for each listed file, each
    built by a constructor. *)
Lemma rename_directory_outcomes directory recursive st rs st' :
  rename_directory b directory recursive dry_run st = (Ok rs, st') ->
  Forall constructed rs /\
  (forall files w, list_files b directory recursive (world st) = (Ok files, w) ->
                   map original_path rs = files) /\
  (forall e w, list_files b directory recursive (world st) = (Raise e, w) -> rs = []).
Proof.
  unfold rename_directory, call. intros H.
  destruct (list_files b directory recursive (world st)) as [[files | m] w].
  - destruct (rename_loop_chained b dry_run files []
                (mkSt w (log st ++ [CallList directory recursive]))) as [rs' [st2 [E Hc]]].
    rewrite E in H. apply pair_ok_inv in H. destruct H as [<- _]. cbn [app].
    split; [exact (chained_constructed _ _ _ _ Hc)|]. split.
    + intros files' w' Hf. apply pair_ok_inv in Hf. destruct Hf as [<- _].
      exact (chained_original_paths b dry_run _ _ _ _ Hc).
    + intros e w' Hf. apply pair_equal_spec in Hf. destruct Hf; discriminate.
  - apply pair_ok_inv in H. destruct H as [<- _].
    split; [constructor|]. split; [|reflexivity].
    intros files' w' Hf. apply pair_equal_spec in Hf. destruct Hf; discriminate.
Qed.

End Outcomes.

Lemma constructed_kind r :
  constructed r ->
  ((if success r && negb (skipped r) then 1 else 0) + (if skipped r then 1 else 0)
   + (if negb (success r) then 1 else 0) = 1)%Z.
Proof.
  intros [[t [s ->]] | [[reason ->] | [e ->]]]; reflexivity.
Qed.

Lemma stats_sum rs :
  Forall constructed rs ->
  (Stats.renamed (Stats.get_stats rs) + Stats.skipped (Stats.get_stats rs)
   + Stats.errors (Stats.get_stats rs) = Stats.total_files (Stats.get_stats rs))%Z.
Proof.
  induction rs as [|r rs IH] using rev_ind; intros H; [reflexivity|].
  apply Forall_app in H. destruct H as [Hrs Hr]. inversion Hr as [|? ? Hc _]; subst.
  specialize (IH Hrs). pose proof (constructed_kind r Hc) as Hk.
  unfold Stats.get_stats in *.
  cbn [Stats.renamed Stats.skipped Stats.errors Stats.total_files] in *.
  rewrite !sum_ones_snoc, length_app, Nat2Z.inj_add. cbn [length]. lia.
Qed.

(** X15.  The statistics of a batch add up.  For the outcomes [rename_directory]
    returns, the renamed, skipped and failed counts sum to the total, no
    outcome being counted twice, and the total is the number of files the
    listing returned. *)
Theorem stats_partition {U : Unicode} {W : Type} (b : Backend W) (directory : Path)
    (recursive dry_run : bool) (st : St W) (rs : list RenameResult) (st' : St W) :
  rename_directory b directory recursive dry_run st = (Ok rs, st') ->
  let stats := Stats.get_stats rs in
  (Stats.renamed stats + Stats.skipped stats + Stats.errors stats = Stats.total_files stats)%Z /\
  (0 <= Stats.renamed stats)%Z /\ (0 <= Stats.skipped stats)%Z /\ (0 <= Stats.errors stats)%Z /\
  (forall files w, list_files b directory recursive (world st) = (Ok files, w) ->
                   Stats.total_files stats = Z.of_nat (length files)).
Proof.
  intros H stats. apply rename_directory_outcomes in H. destruct H as [Hc [Hf _]].
  split; [now apply stats_sum|].
  subst stats. unfold Stats.get_stats.
  cbn [Stats.renamed Stats.skipped Stats.errors Stats.total_files].
  rewrite !sum_ones_filter. repeat (split; [lia|]).
  intros files w Hl. rewrite <- (Hf files w Hl), length_map. reflexivity.
Qed.

Lemma stats_partition_witness :
  exists rs st',
    @rename_directory latin1 _ (memfs (fun _ => false) false false demo_files)
      (mkPath [] demo_dir) true false (mkSt demo_files []) = (Ok rs, st') /\
    let stats := Stats.get_stats rs in
    (Stats.renamed stats + Stats.skipped stats + Stats.errors stats
     = Stats.total_files stats)%Z /\
    (0 <= Stats.renamed stats)%Z /\ (0 <= Stats.skipped stats)%Z /\
    (0 <= Stats.errors stats)%Z /\
    (forall files w,
       list_files (memfs (fun _ => false) false false demo_files) (mkPath [] demo_dir) true
         (world (mkSt demo_files [])) = (Ok files, w) ->
       Stats.total_files stats = Z.of_nat (length files)).
Proof.
  eexists _, _. split; [vm_compute; reflexivity|].
  eapply (@stats_partition latin1 _ (memfs (fun _ => false) false false demo_files)
            (mkPath [] demo_dir) true false (mkSt demo_files [])).
  vm_compute. reflexivity.
Defined.

(** X16.  [get_stats] counts as the increment methods of [OperationStats] do:
    one more outcome adds one to the total and one to the counter of its
    kind, and to no other. *)
Theorem get_stats_increments (rs : list RenameResult) (p new_path sidecar_path : Path)
    (reason error : pystr) :
  Stats.get_stats (rs ++ [result_success p new_path sidecar_path]) =
    Stats.increment_renamed (Stats.increment_total (Stats.get_stats rs)) /\
  Stats.get_stats (rs ++ [result_skipped p reason]) =
    Stats.increment_skipped (Stats.increment_total (Stats.get_stats rs)) /\
  Stats.get_stats (rs ++ [result_failure p error]) =
    Stats.increment_errors (Stats.increment_total (Stats.get_stats rs)) /\
  Stats.get_stats [] = Stats.mkOperationStats 0 0 0 0.
Proof.
  unfold Stats.get_stats, Stats.increment_renamed, Stats.increment_skipped,
    Stats.increment_errors, Stats.increment_total.
  cbn [Stats.renamed Stats.skipped Stats.errors Stats.total_files].
  rewrite !sum_ones_snoc, !length_app, !Nat2Z.inj_add.
  cbn [length success skipped result_success result_skipped result_failure negb andb].
  rewrite !Z.add_0_r. refine (conj _ (conj _ (conj _ _))); reflexivity.
Qed.

(** X17.  The exit code of the command line.  It is 1 exactly when some outcome
    of the batch is a failure, and 0 otherwise; a directory that cannot be
    listed gives no outcome, hence exit code 0. *)
Theorem exit_code_meaning {U : Unicode} {W : Type} (b : Backend W) (target_path : Path)
    (dry_run : bool) (st : St W) :
  (forall rs st', rename_directory b target_path true dry_run st = (Ok rs, st') ->
     Stats.main b target_path dry_run st =
     (if existsb (fun r => negb (success r)) rs then 1%Z else 0%Z, st')) /\
  (forall e, fst (list_files b target_path true (world st)) = Raise e ->
     fst (Stats.main b target_path dry_run st) = 0%Z).
Proof.
  split.
  - intros rs st' H. unfold Stats.main. rewrite H. f_equal.
    unfold Stats.get_stats. cbn [Stats.errors]. rewrite sum_ones_filter.
    induction rs as [|r rs' IH] in |- *; [reflexivity|].
    cbn [filter existsb]. destruct (negb (success r)); cbn [orb length].
    + destruct (0 <? Z.of_nat (S (length (filter (fun r0 => negb (success r0)) rs'))))%Z eqn:E;
        [reflexivity | apply Z.ltb_ge in E; lia].
    + exact IH.
  - intros e He. unfold Stats.main, rename_directory, call.
    destruct (list_files b target_path true (world st)) as [r w]. cbn [fst] in He. subst r.
    reflexivity.
Qed.

(** * Sidecars, hashes and rclone *)

Ltac decide_keys :=
  repeat match goal with
         | |- context [pystr_eqb (lit ?a) (lit ?b)] =>
             let v := eval vm_compute in (pystr_eqb (lit a) (lit b)) in
             change (pystr_eqb (lit a) (lit b)) with v
         end.

(** X18.  What a writer serializes is what a reader builds.  For the document
    [to_dict] makes of a content, either reader returns that content, field
    by field, when the content carries the schema identifier, and nothing
    otherwise; the default algorithm of the reader plays no part.  So a
    sidecar made from the metadata of a rename is read back as it was
    written. *)
Theorem sidecar_round_trip (default_algorithm : pystr) :
  (forall c : SidecarContent,
     Sidecar.read_sidecar_data default_algorithm (Sidecar.JDict (Sidecar.to_dict c)) =
     Ok (if pystr_eqb (schema c) (lit "it.infrastructures.filemeta.v1")
         then Some (as_read c) else None)) /\
  (forall m : FileMetadata,
     Sidecar.read_sidecar_data default_algorithm
       (Sidecar.JDict (Sidecar.to_dict (from_metadata m))) =
     Ok (Some (as_read (from_metadata m)))).
Proof.
  assert (H : forall c : SidecarContent,
     Sidecar.read_sidecar_data default_algorithm (Sidecar.JDict (Sidecar.to_dict c)) =
     Ok (if pystr_eqb (schema c) (lit "it.infrastructures.filemeta.v1")
         then Some (as_read c) else None)).
  { intros c. unfold Sidecar.read_sidecar_data, Sidecar.dict_get_default, Sidecar.to_dict,
      Sidecar.dict_get, as_read.
    decide_keys. cbv iota.
    destruct (pystr_eqb (schema c) (lit "it.infrastructures.filemeta.v1")); reflexivity. }
  split; [exact H|]. intros m. rewrite H.
  change (schema (from_metadata m)) with (lit "it.infrastructures.filemeta.v1").
  now rewrite pystr_eqb_refl.
Qed.

(** ** Hashing a local file in chunks *)

Lemma read_loop_all read_refused chunk_size :
  read_refused chunk_size = None -> (-1 <= chunk_size)%Z -> chunk_size <> 0%Z ->
  forall fuel rest fed, (length rest < fuel)%nat ->
  HashStrategy.read_loop read_refused fuel chunk_size rest fed = Some (Ok (fed ++ rest)).
Proof.
  intros Hr Hlo Hcs. induction fuel as [|fuel IH]; intros rest fed Hf; [lia|].
  cbn [HashStrategy.read_loop]. unfold HashStrategy.file_read. rewrite Hr.
  replace (chunk_size <? -1)%Z with false by (symmetry; apply Z.ltb_ge; lia).
  destruct (chunk_size <? 0)%Z eqn:En.
  - destruct rest as [|x rest]; [now rewrite app_nil_r|].
    rewrite IH by (cbn [length] in *; lia). now rewrite app_nil_r.
  - apply Z.ltb_ge in En.
    assert (Hn : (0 < Z.to_nat chunk_size)%nat) by lia.
    destruct (Z.to_nat chunk_size) as [|n] eqn:Ek; [lia|].
    destruct rest as [|x rest]; [cbn [firstn]; now rewrite app_nil_r|].
    cbn [firstn skipn]. rewrite IH.
    + rewrite <- app_assoc. cbn [app]. now rewrite firstn_skipn.
    + rewrite length_skipn. cbn [length] in Hf. lia.
Qed.

(** X19.  What the chunk size does to the hash.  For a positive chunk size,
    and for -1, reading the file in chunks does not change the hash:
    [compute_hash] returns the SHA-256 of the whole content.  With a chunk
    size of zero the first read is empty, the loop ends at once and the
    digest returned is that of the empty input, whatever the file holds.
    With a chunk size below -1 the first read raises ValueError, and with a
    size the read refuses outright it raises what the read raises: neither
    is caught. *)
Theorem sha256_chunking (read_refused : Z -> option pystr) (fuel : nat) (chunk_size : Z)
    (content : list N) :
  (length content < fuel)%nat ->
  HashStrategy.sha256_compute_hash read_refused fuel chunk_size content =
  Some (match read_refused chunk_size with
        | Some msg => Raise msg
        | None =>
            if (chunk_size <? -1)%Z then Raise (lit "read length must be non-negative or -1")
            else Ok (Sha256.hexdigest (if (chunk_size =? 0)%Z then [] else content))
        end).
Proof.
  intros Hf. unfold HashStrategy.sha256_compute_hash.
  destruct fuel as [|fuel]; [lia|].
  destruct (read_refused chunk_size) as [msg |] eqn:Hr.
  { cbn [HashStrategy.read_loop]. unfold HashStrategy.file_read. now rewrite Hr. }
  destruct (chunk_size <? -1)%Z eqn:Elo.
  { cbn [HashStrategy.read_loop]. unfold HashStrategy.file_read. now rewrite Hr, Elo. }
  apply Z.ltb_ge in Elo.
  destruct (chunk_size =? 0)%Z eqn:E.
  - apply Z.eqb_eq in E. subst chunk_size.
    cbn [HashStrategy.read_loop]. unfold HashStrategy.file_read. rewrite Hr. reflexivity.
  - apply Z.eqb_neq in E. now rewrite (read_loop_all read_refused chunk_size Hr Elo E).
Qed.

Lemma sha256_chunking_witness :
  HashStrategy.sha256_compute_hash (fun _ => None) 4 2 [97; 98; 99]%N =
  Some (Ok (Sha256.hexdigest [97; 98; 99]%N)).
Proof.
  apply (sha256_chunking (fun _ => None) 4 2 [97; 98; 99]%N). cbn. lia.
Defined.

(** ** The remote rename *)

Lemma delete_is_not_copy old_path new_path :
  [lit "deletefile"; old_path] <> [lit "copyto"; old_path; new_path].
Proof. intros H. apply (f_equal (@length pystr)) in H. discriminate. Qed.

Lemma delete_is_not_check old_path new_path :
  [lit "deletefile"; old_path] <> [lit "lsf"; lit "--files-only"; new_path].
Proof. intros H. apply (f_equal (@length pystr)) in H. discriminate. Qed.

(** X20.  The old file is deleted only after the copy is seen.  Whatever rclone
    does, [_perform_rename] runs an initial part of three commands, in this
    order: [copyto old new], [lsf --files-only new], [deletefile old].  It
    returns normally only after all three; and [deletefile] is run only
    when the copy completed and the listing of the new path completed with
    an output that is not blank. *)
Theorem remote_rename_verified (R : Type) (run_rclone : list pystr -> R -> Rclone.outcome * R)
    (old_path new_path : pystr) (st : Rclone.RSt R) :
  let copy := [lit "copyto"; old_path; new_path] in
  let check := [lit "lsf"; lit "--files-only"; new_path] in
  let delete := [lit "deletefile"; old_path] in
  let out := Rclone._perform_rename run_rclone old_path new_path st in
  (exists k, (1 <= k)%nat /\ snd (snd out) = snd st ++ firstn k [copy; check; delete]) /\
  (fst out = Ok tt -> snd (snd out) = snd st ++ [copy; check; delete]) /\
  (forall cmds, snd (snd out) = snd st ++ cmds -> In delete cmds ->
     exists o1 w1 stdout w2,
       run_rclone copy (fst st) = (Rclone.Completed o1, w1) /\
       run_rclone check w1 = (Rclone.Completed stdout, w2) /\
       Rclone.strip stdout <> []).
Proof.
  cbv zeta. unfold Rclone._perform_rename, Rclone._run_rclone. cbn [fst snd].
  destruct st as [w cmds0]. cbn [fst snd].
  assert (Hone : forall cmds,
            cmds0 ++ [[lit "copyto"; old_path; new_path]] = cmds0 ++ cmds ->
            ~ In [lit "deletefile"; old_path] cmds).
  { intros cmds H Hin. apply app_inv_head in H. subst cmds.
    destruct Hin as [Hin | []]. symmetry in Hin. now apply delete_is_not_copy in Hin. }
  assert (Htwo : forall cmds,
            (cmds0 ++ [[lit "copyto"; old_path; new_path]]) ++
              [[lit "lsf"; lit "--files-only"; new_path]] = cmds0 ++ cmds ->
            ~ In [lit "deletefile"; old_path] cmds).
  { intros cmds H Hin. rewrite <- app_assoc in H. apply app_inv_head in H. subst cmds.
    destruct Hin as [Hin | [Hin | []]]; symmetry in Hin.
    - now apply delete_is_not_copy in Hin.
    - now apply delete_is_not_check in Hin. }
  destruct (run_rclone [lit "copyto"; old_path; new_path] w) as [[o1 | e1 m1 | m1] w1] eqn:E1;
    cbn [fst snd].
  2, 3: (split; [exists 1%nat; split; [lia | reflexivity]|]);
        (split; [discriminate|]); intros cmds H Hin; exfalso; exact (Hone cmds H Hin).
  destruct (run_rclone [lit "lsf"; lit "--files-only"; new_path] w1)
    as [[stdout | e2 m2 | m2] w2] eqn:E2; cbn [fst snd].
  2, 3: (split; [exists 2%nat; split; [lia | now rewrite <- app_assoc]|]);
        (split; [discriminate|]); intros cmds H Hin; exfalso; exact (Htwo cmds H Hin).
  destruct (Rclone.strip stdout) as [|c out'] eqn:Es; cbn [fst snd].
  { split; [exists 2%nat; split; [lia | now rewrite <- app_assoc]|].
    split; [discriminate|]. intros cmds H Hin. exfalso. exact (Htwo cmds H Hin). }
  destruct (run_rclone [lit "deletefile"; old_path] w2) as [[o3 | e3 m3 | m3] w3];
    cbn [fst snd];
    (split; [exists 3%nat; split; [lia | now rewrite <- !app_assoc]|]);
    (split; [intros _; now rewrite <- !app_assoc|]);
    intros cmds _ _; exists o1, w1, stdout, w2;
    (split; [reflexivity|]); (split; [exact E2|]); rewrite Es; discriminate.
Qed.

(** ** The hash rclone prints *)

Lemma drop_while_all (p : codepoint -> bool) s : forallb p s = true -> drop_while p s = [].
Proof.
  induction s as [|c s IH]; [reflexivity|]. cbn [forallb drop_while].
  intros H. apply andb_true_iff in H. destruct H as [-> H]. now apply IH.
Qed.

Lemma drop_while_stop (p : codepoint -> bool) a c s :
  forallb p a = true -> p c = false -> drop_while p (a ++ c :: s) = c :: s.
Proof.
  induction a as [|x a IH]; intros Ha Hc.
  - cbn [app drop_while]. now rewrite Hc.
  - cbn [forallb] in Ha. apply andb_true_iff in Ha. destruct Ha as [Hx Ha].
    cbn [app drop_while]. rewrite Hx. now apply IH.
Qed.

Lemma drop_while_keep (p : codepoint -> bool) a c s :
  p c = false -> drop_while p (a ++ c :: s) = drop_while p a ++ c :: s.
Proof.
  intros Hc. induction a as [|x a IH].
  - cbn [app drop_while]. now rewrite Hc.
  - cbn [app drop_while]. destruct (p x); [exact IH | reflexivity].
Qed.

Lemma drop_while_suffix (p : codepoint -> bool) s : exists d, s = d ++ drop_while p s.
Proof.
  induction s as [|c s [d IH]]; [now exists []|].
  cbn [drop_while]. destruct (p c); [|now exists []].
  exists (c :: d). cbn [app]. now rewrite <- IH.
Qed.

(** Stripping a word followed by more: the word stays, and what follows
    it is an initial part of what followed. *)
Lemma strip_word pre h post :
  forallb Rclone.isspace pre = true -> h <> [] -> forallb not_space h = true ->
  exists post' d, Rclone.strip (pre ++ h ++ post) = h ++ post' /\ post = post' ++ d.
Proof.
  intros Hpre Hne Hh. unfold Rclone.strip.
  destruct h as [|c h]; [congruence|].
  cbn [forallb] in Hh. apply andb_true_iff in Hh. destruct Hh as [Hc Hh].
  unfold not_space in Hc. apply negb_true_iff in Hc.
  change ((c :: h) ++ post) with (c :: h ++ post).
  rewrite drop_while_stop by assumption.
  destruct (exists_last (l := c :: h) ltac:(discriminate)) as [h0 [z Ez]].
  assert (Hz : Rclone.isspace z = false).
  { assert (Hin : In z (c :: h)) by (rewrite Ez; apply in_or_app; right; now left).
    destruct Hin as [<- | Hin]; [exact Hc|].
    rewrite forallb_forall in Hh. specialize (Hh z Hin). unfold not_space in Hh.
    now apply negb_true_iff in Hh. }
  change (c :: h ++ post) with ((c :: h) ++ post). rewrite Ez.
  rewrite rev_app_distr, rev_app_distr. cbn [rev app].
  rewrite (drop_while_keep Rclone.isspace (rev post) z (rev h0) Hz).
  rewrite rev_app_distr. cbn [rev]. rewrite rev_involutive.
  destruct (drop_while_suffix Rclone.isspace (rev post)) as [d Hd].
  exists (rev (drop_while Rclone.isspace (rev post))), (rev d). split.
  - now rewrite <- app_assoc.
  - rewrite <- rev_app_distr, <- Hd. now rewrite rev_involutive.
Qed.

Lemma split_from_word h : forall word post,
  forallb not_space h = true ->
  (post = [] \/ exists ws rest, post = ws :: rest /\ Rclone.isspace ws = true) ->
  word ++ h <> [] ->
  exists rest, Rclone.split_from word (h ++ post) = (word ++ h) :: rest.
Proof.
  induction h as [|c h IH]; intros word post Hh Hpost Hne.
  - rewrite app_nil_r in *. cbn [app].
    destruct word as [|x word]; [congruence|].
    destruct Hpost as [-> | [ws [rest [-> Hws]]]]; cbn [Rclone.split_from].
    + now exists [].
    + rewrite Hws. eexists. reflexivity.
  - cbn [forallb] in Hh. apply andb_true_iff in Hh. destruct Hh as [Hc Hh].
    unfold not_space in Hc. apply negb_true_iff in Hc.
    cbn [app Rclone.split_from]. rewrite Hc.
    destruct (IH (word ++ [c]) post Hh Hpost) as [rest Hrest].
    + rewrite <- app_assoc. apply app_cons_nonempty.
    + exists rest. rewrite Hrest. now rewrite <- app_assoc.
Qed.

Lemma split_from_nonempty s : forall word,
  Forall (fun t : pystr => t <> []) (Rclone.split_from word s).
Proof.
  induction s as [|y s IH]; intros word; cbn [Rclone.split_from].
  - destruct word; repeat constructor. discriminate.
  - destruct (Rclone.isspace y); [|apply IH].
    destruct word; [apply IH|]. constructor; [discriminate | apply IH].
Qed.

(** X21.  The hash [MD5HashComputer] returns is the first word of what rclone
    printed: leading whitespace is skipped, and the hash ends at the first
    whitespace after it, so the file name that follows, whatever it holds,
    is never part of it.  When rclone prints nothing but whitespace the
    call raises instead of returning an empty hash. *)
Theorem md5_first_word (R : Type) (run_rclone : list pystr -> R -> Rclone.outcome * R)
    (file_path stdout : pystr) (st : Rclone.RSt R) (w' : R) :
  run_rclone [lit "md5sum"; file_path] (fst st) = (Rclone.Completed stdout, w') ->
  let st' := (w', snd st ++ [[lit "md5sum"; file_path]]) in
  (forall pre h post,
     stdout = pre ++ h ++ post ->
     forallb Rclone.isspace pre = true -> h <> [] -> forallb not_space h = true ->
     (post = [] \/ exists ws rest, post = ws :: rest /\ Rclone.isspace ws = true) ->
     Rclone.compute_hash run_rclone file_path st = (Ok h, st')) /\
  (forallb Rclone.isspace stdout = true ->
   Rclone.compute_hash run_rclone file_path st =
   (Raise (lit "Failed to compute MD5 hash: No MD5 hash returned for " ++ file_path), st')) /\
  (forall h, fst (Rclone.compute_hash run_rclone file_path st) = Ok h -> h <> []).
Proof.
  intros Hrun st'. unfold Rclone.compute_hash, Rclone._run_rclone. rewrite Hrun.
  fold st'. cbv zeta. refine (conj _ (conj _ _)).
  - intros pre h post -> Hpre Hne Hh Hpost.
    destruct (strip_word pre h post Hpre Hne Hh) as [post' [d [Hs Hd]]].
    rewrite Hs.
    assert (Hpost' : post' = [] \/ exists ws rest, post' = ws :: rest /\ Rclone.isspace ws = true).
    { destruct post' as [|x post']; [now left|]. right.
      destruct Hpost as [-> | [ws [rest [-> Hws]]]]; [discriminate|].
      cbn [app] in Hd. exists x, post'. split; [reflexivity|]. congruence. }
    destruct (split_from_word h [] post' Hh Hpost') as [rest Hrest]; [exact Hne|].
    unfold Rclone.split. rewrite Hrest. cbn [app].
    destruct (h ++ post') eqn:E; [|reflexivity].
    apply app_eq_nil in E. destruct E; congruence.
  - intros Hall. unfold Rclone.strip. rewrite (drop_while_all _ _ Hall). reflexivity.
  - intros h. destruct (Rclone.strip stdout) as [|c out']; [discriminate|].
    pose proof (split_from_nonempty (c :: out') []) as Hall. unfold Rclone.split.
    destruct (Rclone.split_from [] (c :: out')) as [|hash_value rest]; [discriminate|].
    cbn [fst]. intros H. apply Ok_inj in H. subst hash_value.
    now inversion Hall.
Qed.

Lemma md5_first_word_witness :
  let run := fun (_ : list pystr) (w : unit) =>
               (Rclone.Completed (lit "d41d8cd98f00b204e9800998ecf8427e  my file.txt"), w) in
  let st' := (tt, [[lit "md5sum"; lit "gdrive:my file.txt"]]) in
  (forall pre h post,
     lit "d41d8cd98f00b204e9800998ecf8427e  my file.txt" = pre ++ h ++ post ->
     forallb Rclone.isspace pre = true -> h <> [] -> forallb not_space h = true ->
     (post = [] \/ exists ws rest, post = ws :: rest /\ Rclone.isspace ws = true) ->
     Rclone.compute_hash run (lit "gdrive:my file.txt") (tt, []) = (Ok h, st')) /\
  (forallb Rclone.isspace (lit "d41d8cd98f00b204e9800998ecf8427e  my file.txt") = true ->
   Rclone.compute_hash run (lit "gdrive:my file.txt") (tt, []) =
   (Raise (lit "Failed to compute MD5 hash: No MD5 hash returned for "
           ++ lit "gdrive:my file.txt"), st')) /\
  (forall h, fst (Rclone.compute_hash run (lit "gdrive:my file.txt") (tt, [])) = Ok h ->
             h <> []).
Proof.
  exact (md5_first_word unit
           (fun _ w => (Rclone.Completed (lit "d41d8cd98f00b204e9800998ecf8427e  my file.txt"), w))
           (lit "gdrive:my file.txt") (lit "d41d8cd98f00b204e9800998ecf8427e  my file.txt")
           (tt, []) tt eq_refl).
Defined.

(** * A newline at the end of a name *)

Lemma match_to_end_newline r s :
  Re.match_to_end r s = true -> s <> [] -> last s 0%N <> 10%N ->
  Re.match_to_end r (s ++ [10%N]) = true.
Proof.
  intros H Hne Hl. apply ReFacts.match_to_end_spec in H.
  apply ReFacts.match_to_end_spec. right. exists s. split; [reflexivity|].
  destruct H as [H | [t [-> _]]]; [exact H|].
  rewrite last_last in Hl. congruence.
Qed.

Lemma no_pair_newline x y b :
  contains [x; y] b = false -> y <> 10%N -> contains [x; y] (b ++ [10%N]) = false.
Proof.
  intros Hb Hy. destruct (contains [x; y] (b ++ [10%N])) eqn:E; [|reflexivity].
  apply contains_two_app in E. destruct E as [E | [E | []]]; congruence.
Qed.

Lemma joined_chars_fixed b e :
  shaped is_sep b = true -> ext_shaped e = true ->
  forall c, In c (b ++ e) -> (c <? 256)%N = true /\ lower1 c = c.
Proof.
  intros Hb He c Hc.
  assert (Hplain : forall x, plain x = true -> (x <? 256)%N = true /\ lower1 x = x).
  { intros x Hx. split; [|now apply lower1_plain].
    apply N.ltb_lt. pose proof (plain_ascii x Hx). lia. }
  apply in_app_or in Hc. destruct Hc as [Hc | Hc].
  - apply Hplain. unfold shaped in Hb. apply andb_true_iff in Hb. destruct Hb as [Hs _].
    now apply (shaped_plain is_sep b (fun x Hx => Hx) Hs).
  - destruct (ext_shaped_inv e He) as [-> | [body [-> [_ Hall]]]]; [destruct Hc|].
    destruct Hc as [<- | Hc]; [split; reflexivity|].
    apply Hplain. unfold plain. rewrite forallb_forall in Hall. now rewrite (Hall c Hc).
Qed.

Lemma alnum_not_newline c : is_alnum c = true -> c <> 10%N.
Proof. intros H ->. vm_compute in H. discriminate. Qed.

Lemma base_no_pairs_newline b :
  shaped is_sep b = true ->
  contains (lit "--") (b ++ [10%N]) || contains (lit "__") (b ++ [10%N])
  || contains (lit "-_") (b ++ [10%N]) || contains (lit "_-") (b ++ [10%N]) = false.
Proof.
  intros H. pose proof (no_pairs b H) as Hp.
  apply orb_false_iff in Hp. destruct Hp as [Hp H4].
  apply orb_false_iff in Hp. destruct Hp as [Hp H3].
  apply orb_false_iff in Hp. destruct Hp as [H1 H2].
  change (lit "--") with [ord "-"; ord "-"] in *. change (lit "__") with [ord "_"; ord "_"] in *.
  change (lit "-_") with [ord "-"; ord "_"] in *. change (lit "_-") with [ord "_"; ord "-"] in *.
  rewrite !no_pair_newline by (assumption || discriminate). reflexivity.
Qed.

(** X22.  The test for an already safe name lets a final newline through.  The
    patterns end in [$], which also matches just before a newline that ends
    the string: so a name of the sanitized shape followed by one newline
    character is taken for safe, although the newline is not among the
    characters the sanitizer lets pass. *)
Theorem trailing_newline_accepted {U : Unicode} (L : UnicodeLaws U) (b e : pystr) :
  shaped is_sep b = true -> ext_shaped e = true ->
  (len b + len e + 1 <= MAX_FILENAME_LENGTH)%Z ->
  is_safe_filename (b ++ e ++ [10%N]) = true /\ allowed 10%N = false.
Proof.
  intros Hb He Hlen. split; [|reflexivity].
  pose proof (shaped_nonempty is_sep b Hb) as Hbne.
  assert (Hbl : last b 0%N <> 10%N).
  { unfold shaped in Hb. apply andb_true_iff in Hb. destruct Hb as [_ Hl].
    now apply alnum_not_newline. }
  unfold is_safe_filename.
  assert (Hlow : str_lower (b ++ e ++ [10%N]) = b ++ e ++ [10%N]).
  { apply str_lower_fixed. intros c Hc. rewrite app_assoc in Hc.
    apply in_app_or in Hc. destruct Hc as [Hc | [<- | []]].
    - now apply (joined_chars_fixed b e).
    - split; reflexivity. }
  rewrite Hlow, pystr_eqb_refl. cbn [negb].
  assert (Hfit : (MAX_FILENAME_LENGTH <? len (b ++ e ++ [10%N]))%Z = false).
  { apply Z.ltb_ge. rewrite !len_app. change (len [10%N]) with 1%Z. lia. }
  destruct (ext_shaped_inv e He) as [-> | [body [-> [Hbody Hall]]]].
  - cbn [app] in *.
    rewrite split_filename_no_dot.
    2: { intros c Hc. apply in_app_or in Hc. destruct Hc as [Hc | [<- | []]].
         - now apply (shaped_no_dot b (or_intror Hb)).
         - discriminate. }
    pose proof (base_matches b Hb) as Hm. apply orb_true_iff in Hm.
    assert (Hm' : Re.match_to_end BASE_RE_MANY (b ++ [10%N])
                  || Re.match_to_end BASE_RE_ONE (b ++ [10%N]) = true).
    { apply orb_true_iff. destruct Hm as [Hm | Hm]; [left | right];
        now apply match_to_end_newline. }
    rewrite Hm', base_no_pairs_newline, Hfit by assumption. reflexivity.
  - assert (Hel : last (lit "." ++ body) 0%N <> 10%N).
    { destruct (exists_last Hbody) as [body' [z ->]].
      rewrite app_assoc, last_last.
      rewrite forallb_app in Hall. apply andb_true_iff in Hall. destruct Hall as [_ Hz].
      cbn in Hz. rewrite andb_true_r in Hz. now apply alnum_not_newline. }
    replace (b ++ (lit "." ++ body) ++ [10%N]) with (b ++ lit "." ++ (body ++ [10%N]))
      by now rewrite <- !app_assoc.
    rewrite split_filename_joined.
    2: now apply (shaped_no_dot b (or_intror Hb)).
    2: { intros c Hc. apply in_app_or in Hc. destruct Hc as [Hc | [<- | []]].
         - now apply (alnum_no_dot body Hall).
         - discriminate. }
    replace (lit "." ++ body ++ [10%N]) with ((lit "." ++ body) ++ [10%N])
      by now rewrite <- !app_assoc.
    rewrite (match_to_end_newline EXT_RE (lit "." ++ body)
               (ext_matches _ He ltac:(discriminate)) ltac:(discriminate) Hel).
    rewrite base_matches, no_pairs by assumption.
    replace (b ++ lit "." ++ (body ++ [10%N])) with (b ++ (lit "." ++ body) ++ [10%N])
      by now rewrite <- !app_assoc.
    rewrite Hfit. reflexivity.
Qed.

Lemma trailing_newline_accepted_witness :
  @is_safe_filename latin1 (lit "a-b" ++ lit ".txt" ++ [10%N]) = true /\ allowed 10%N = false.
Proof.
  apply (@trailing_newline_accepted latin1 latin1_laws (lit "a-b") (lit ".txt"));
    first [vm_compute; reflexivity | vm_compute; discriminate].
Defined.

(** ** The two remote renames *)

(** X23.  [RemoteFileOperations.rename_file] and
    [RemoteFileRenamer._perform_rename] run the same commands on the same
    states and return normally in the same cases.  They differ in one
    message only: when the listing that verifies the copy fails, the
    first reports a failed verification and the second a failed rename. *)
Theorem remote_renames_agree (R : Type) (run_rclone : list pystr -> R -> Rclone.outcome * R)
    (old_path new_path : pystr) (st : Rclone.RSt R) :
  let ops := Rclone.rename_file run_rclone old_path new_path st in
  let hook := Rclone._perform_rename run_rclone old_path new_path st in
  snd ops = snd hook /\
  (fst ops = Ok tt <-> fst hook = Ok tt) /\
  (fst ops <> fst hook ->
   fst ops = Raise (lit "Copy verification failed: " ++ new_path ++ lit " not found") /\
   exists stderr str_e,
     fst hook = Raise (lit "Remote rename failed: " ++ Rclone.error_msg stderr str_e)).
Proof.
  cbv zeta. unfold Rclone.rename_file, Rclone._perform_rename, Rclone.file_exists.
  destruct (Rclone._run_rclone run_rclone [lit "copyto"; old_path; new_path] st)
    as [[o1 | e1 m1 | m1] st1]; cbn [fst snd];
    try (split; [reflexivity | split; [reflexivity | congruence]]).
  destruct (Rclone._run_rclone run_rclone [lit "lsf"; lit "--files-only"; new_path] st1)
    as [[stdout | e2 m2 | m2] st2]; cbn [fst snd].
  - destruct (Rclone.strip stdout) as [|c out'];
      [split; [reflexivity | split; [reflexivity | congruence]]|].
    destruct (Rclone._run_rclone run_rclone [lit "deletefile"; old_path] st2)
      as [[o3 | e3 m3 | m3] st3]; cbn [fst snd];
      (split; [reflexivity | split; [reflexivity | congruence]]).
  - split; [reflexivity|]. split; [split; discriminate|].
    intros _. split; [reflexivity|]. now exists e2, m2.
  - split; [reflexivity | split; [reflexivity | congruence]].
Qed.

(** * More of the sanitizer: reserved names, occupied candidates, surrogates *)

Lemma reserved_alnum s : mem_str s RESERVED_NAMES = true -> forallb is_alnum s = true.
Proof.
  intros H.
  assert (Hall : forallb (forallb is_alnum) RESERVED_NAMES = true) by (vm_compute; reflexivity).
  unfold mem_str in H. apply existsb_exists in H. destruct H as [r [Hr E]].
  apply pystr_eqb_eq in E. subst r.
  rewrite forallb_forall in Hall. now apply Hall.
Qed.

(** Truncation comes after the reserved-name check and can undo it. *)
Lemma truncation_leaves_reserved :
  fst (@safe_parts latin1 (lit "con-x." ++ repeat (ord "a") 176)) = lit "con".
Proof. vm_compute. reflexivity. Qed.

(** X24.  The base of a sanitized name is not a reserved device name, as long
    as the name is not truncated: when the base after the reserved-name
    check and the sanitized extension fit in 180 characters together, that
    base is the base of the result, and it is none of [con], [prn], [aux],
    [nul], [com1] to [com9], [lpt1] to [lpt9]. *)
Theorem reserved_base_avoided {U : Unicode} (L : UnicodeLaws U) (x : pystr) :
  let checked := check_reserved_name (sanitize_base_name (fst (split_filename x))) in
  (len checked + len (snd (safe_parts x)) <= MAX_FILENAME_LENGTH)%Z ->
  fst (safe_parts x) = checked /\
  mem_str (str_lower (fst (safe_parts x))) RESERVED_NAMES = false.
Proof.
  cbv zeta. unfold safe_parts. destruct (split_filename x) as [base ext]. cbn [fst snd].
  intros Hlen.
  assert (Hkeep : truncate_if_needed (check_reserved_name (sanitize_base_name base))
                    (sanitize_extension ext)
                  = check_reserved_name (sanitize_base_name base)).
  { unfold truncate_if_needed.
    destruct (MAX_FILENAME_LENGTH - len (sanitize_extension ext)
              <? len (check_reserved_name (sanitize_base_name base)))%Z eqn:E; [|reflexivity].
    apply Z.ltb_lt in E. lia. }
  rewrite Hkeep. split; [reflexivity|].
  pose proof (sanitize_base_name_shaped base) as Hs.
  assert (Hplain : forall c, In c (sanitize_base_name base) -> plain c = true).
  { unfold shaped in Hs. apply andb_true_iff in Hs. destruct Hs as [Hs _].
    exact (shaped_plain is_dash _ is_dash_sep Hs). }
  rewrite check_reserved_name_plain by assumption.
  destruct (mem_str (sanitize_base_name base) RESERVED_NAMES) eqn:Er.
  - rewrite str_lower_plain.
    + destruct (mem_str (lit "file_" ++ sanitize_base_name base) RESERVED_NAMES) eqn:E;
        [|reflexivity].
      apply reserved_alnum in E. rewrite forallb_forall in E.
      specialize (E (ord "_")). discriminate E.
      apply in_or_app. left. vm_compute. tauto.
    + intros c Hc. apply in_app_or in Hc. destruct Hc as [Hc | Hc]; [|now apply Hplain].
      assert (Hf : forallb plain (lit "file_") = true) by (vm_compute; reflexivity).
      rewrite forallb_forall in Hf. now apply Hf.
  - now rewrite str_lower_plain.
Qed.

Lemma reserved_base_avoided_witness :
  fst (@safe_parts latin1 (lit "CON.txt")) = lit "file_con" /\
  mem_str (@str_lower latin1 (fst (@safe_parts latin1 (lit "CON.txt")))) RESERVED_NAMES = false.
Proof.
  apply (@reserved_base_avoided latin1 latin1_laws (lit "CON.txt")).
  vm_compute. discriminate.
Defined.

Lemma sanitized_no_double_hyphen {U : Unicode} x :
  (len (snd (safe_parts x)) < MAX_FILENAME_LENGTH)%Z ->
  contains (lit "--") (sanitize x) = false.
Proof.
  intros H. rewrite sanitize_parts.
  destruct (safe_parts_shape x) as [He [Hlt _]]. destruct (Hlt H) as [Hb _].
  destruct (contains (lit "--") (fst (safe_parts x) ++ snd (safe_parts x))) eqn:E; [|reflexivity].
  apply (contains_two_app (ord "-") (ord "-")) in E. destruct E as [E | E].
  - pose proof (no_pairs _ Hb) as Hp.
    apply orb_false_iff in Hp. destruct Hp as [Hp _].
    apply orb_false_iff in Hp. destruct Hp as [Hp _].
    apply orb_false_iff in Hp. destruct Hp as [Hp _].
    change (lit "--") with [ord "-"; ord "-"] in Hp. congruence.
  - apply ext_shaped_allowed in He. clear Hlt.
    destruct (ext_shaped_inv _ (proj1 (safe_parts_shape x))) as [E0 | [body [E0 [_ Hall]]]];
      rewrite E0 in E.
    + destruct E.
    + destruct E as [E | E]; [discriminate|].
      rewrite forallb_forall in Hall. specialize (Hall _ E). vm_compute in Hall. discriminate.
Qed.

Lemma collision_name_double_hyphen {U : Unicode} filename n :
  collision_name filename = Ok n -> contains (lit "--") n = true.
Proof.
  unfold collision_name. destruct (split_filename (sanitize filename)) as [base ext].
  intros H. apply add_collision_suffix_form in H.
  destruct H as [suffix [kept [d [_ [_ [-> _]]]]]]. apply contains_middle.
Qed.

(** X25.  The rename never goes to the path the probe found occupied.  When the
    probe reports that the candidate exists (and the sanitized extension is
    shorter than 180 characters), every rename call [rename_file] makes,
    and the destination it reports, is another path of the same directory:
    the calls are an initial part of the five-call sequence on a destination
    that is not the candidate. *)
Theorem occupied_candidate_not_overwritten {U : Unicode} {W : Type} (b : Backend W) (p : Path)
    (dry_run : bool) (st : St W) (w : W) :
  is_system_file (name p) = false ->
  is_safe_filename (name p) = false ->
  (len (snd (safe_parts (name p))) < MAX_FILENAME_LENGTH)%Z ->
  let candidate := path_join (parent p) (sanitize (name p)) in
  file_exists b candidate (world st) = (Ok true, w) ->
  exists k target content,
    log (snd (rename_file b p dry_run st)) =
      log st ++ firstn k (protocol p candidate target content) /\
    target <> candidate /\ parent target = parent p /\
    (forall r st', rename_file b p dry_run st = (Ok r, st') -> success r = true ->
                   new_path r = Some target).
Proof.
  intros Hsys Hsafe Hext candidate Hprobe.
  pose proof (sanitized_no_double_hyphen (name p) Hext) as Hno.
  assert (Hdiff : forall n, contains (lit "--") n = true ->
                            path_join (parent p) n <> candidate).
  { intros n Hn E. apply (f_equal name) in E. cbn [name path_join candidate] in E.
    subst n. congruence. }
  assert (Hbody : rename_file_body b p dry_run st =
                  match resolve_target b p st with
                  | (Ok target, st') =>
                      if dry_run
                      then (Ok (result_success p (snd target) (sidecar_of (snd target))), st')
                      else execute b p target st'
                  | (Raise e, st') => (Raise e, st')
                  end) by now apply rename_file_body_unfold.
  assert (Hres : resolve_target b p st =
                 match collision_name (name p) with
                 | Ok n => (Ok (n, path_join (parent p) n), mkSt w (log st ++ [CallExists candidate]))
                 | Raise e => (Raise e, mkSt w (log st ++ [CallExists candidate]))
                 end).
  { unfold resolve_target. fold candidate. now rewrite Hprobe. }
  destruct (collision_name (name p)) as [n | e] eqn:En.
  - pose proof (collision_name_double_hyphen _ _ En) as Hn.
    destruct dry_run.
    + exists 1%nat, (path_join (parent p) n), no_content.
      rewrite rename_file_state, Hbody, Hres. cbn [snd log firstn protocol].
      refine (conj eq_refl (conj (Hdiff n Hn) (conj eq_refl _))).
      intros r st' H _. unfold rename_file, try_except in H. rewrite Hbody, Hres in H.
      apply pair_ok_inv in H. destruct H as [<- _]. reflexivity.
    + destruct (execute_log b p (n, path_join (parent p) n)
                  (mkSt w (log st ++ [CallExists candidate]))) as [k [content Hk]].
      exists (S (S k)), (path_join (parent p) n), content.
      rewrite rename_file_state, Hbody, Hres, Hk. cbn [snd log].
      rewrite <- app_assoc.
      refine (conj eq_refl (conj (Hdiff n Hn) (conj eq_refl _))).
      intros r st' H Hs. unfold rename_file, try_except in H. rewrite Hbody, Hres in H.
      destruct (execute b p (n, path_join (parent p) n)
                  (mkSt w (log st ++ [CallExists candidate]))) as [[r1 | e] st2] eqn:Ex.
      * apply pair_ok_inv in H. destruct H as [<- _].
        exact (execute_new_path b p _ _ _ _ Ex).
      * unfold ret in H. apply pair_ok_inv in H. destruct H as [<- _]. discriminate.
  - exists 1%nat, (path_join (parent p) (lit "--")), no_content.
    rewrite rename_file_state, Hbody, Hres. cbn [snd log firstn protocol].
    refine (conj eq_refl (conj (Hdiff (lit "--") eq_refl) (conj eq_refl _))).
    intros r st' H Hs. unfold rename_file, try_except in H. rewrite Hbody, Hres in H.
    unfold ret in H. apply pair_ok_inv in H. destruct H as [<- _]. discriminate.
Qed.

Lemma occupied_candidate_not_overwritten_witness :
  let b := memfs (fun _ => false) false false demo_files in
  let st := mkSt [demo_second; mkPath demo_dir (lit "a-b.txt")] [] in
  let candidate := mkPath demo_dir (lit "a-b.txt") in
  exists k target content,
    log (snd (@rename_file latin1 _ b demo_second false st)) =
      [] ++ firstn k (protocol demo_second candidate target content) /\
    target <> candidate /\ parent target = demo_dir /\
    (forall r st', @rename_file latin1 _ b demo_second false st = (Ok r, st') ->
                   success r = true -> new_path r = Some target).
Proof.
  apply (@occupied_candidate_not_overwritten latin1 _
           (memfs (fun _ => false) false false demo_files) demo_second false
           (mkSt [demo_second; mkPath demo_dir (lit "a-b.txt")] [])
           [demo_second; mkPath demo_dir (lit "a-b.txt")]);
    vm_compute; reflexivity.
Defined.

Lemma utf8_char_some c :
  (c < 0x110000)%N -> in_range 0xD800 0xDFFF c = false -> exists bs, utf8_char c = Some bs.
Proof.
  intros Hc Hs. unfold utf8_char. rewrite Hs.
  destruct (c <? 0x80)%N; [eexists; reflexivity|].
  destruct (c <? 0x800)%N; [eexists; reflexivity|].
  destruct (c <? 0x10000)%N; [eexists; reflexivity|].
  apply N.ltb_lt in Hc. rewrite Hc. eexists; reflexivity.
Qed.

Lemma utf8_char_surrogate c : in_range 0xD800 0xDFFF c = true -> utf8_char c = None.
Proof.
  intros Hs. unfold utf8_char. rewrite Hs.
  apply in_range_spec in Hs.
  replace (c <? 0x80)%N with false by (symmetry; apply N.ltb_ge; lia).
  replace (c <? 0x800)%N with false by (symmetry; apply N.ltb_ge; lia).
  replace (c <? 0x10000)%N with true by (symmetry; apply N.ltb_lt; lia).
  reflexivity.
Qed.

Lemma utf8_encode_ok s :
  (forall c, In c s -> (c < 0x110000)%N) ->
  ((exists bs, utf8_encode s = Ok bs) <->
   (forall c, In c s -> in_range 0xD800 0xDFFF c = false)).
Proof.
  induction s as [|c s IH]; intros Hv.
  - split; [intros _ c [] | intros _; now exists []].
  - assert (Hv' : forall d, In d s -> (d < 0x110000)%N) by (intros d Hd; apply Hv; now right).
    specialize (IH Hv'). cbn [utf8_encode].
    destruct (in_range 0xD800 0xDFFF c) eqn:Es.
    + rewrite (utf8_char_surrogate c Es). split.
      * intros [bs H]. discriminate.
      * intros H. specialize (H c (or_introl eq_refl)). congruence.
    + destruct (utf8_char_some c (Hv c (or_introl eq_refl)) Es) as [bs ->].
      destruct (utf8_encode s) as [rest | m].
      * split; [|intros _; eexists; reflexivity].
        intros _ d [<- | Hd]; [exact Es|]. now apply (proj1 IH (ex_intro _ rest eq_refl)).
      * split.
        -- intros [bs' H]. discriminate.
        -- intros H. destruct (proj2 IH (fun d Hd => H d (or_intror Hd))) as [bs' Hb].
           discriminate.
Qed.

(** X26.  The collision resolver needs a name that can be encoded.  For an
    original name of Unicode code points, [add_collision_suffix] returns a
    name exactly when the original name holds no surrogate code point
    (U+D800 to U+DFFF, as Python makes of undecodable bytes of a file
    name); otherwise encoding the name raises, whatever the base and the
    extension. *)
Theorem collision_suffix_needs_text (base_name extension original_name : pystr) :
  (forall c, In c original_name -> (c < 0x110000)%N) ->
  ((exists n, add_collision_suffix base_name extension original_name = Ok n) <->
   (forall c, In c original_name -> in_range 0xD800 0xDFFF c = false)).
Proof.
  intros Hv. rewrite <- (utf8_encode_ok original_name Hv).
  unfold add_collision_suffix, hash_suffix.
  destruct (utf8_encode original_name) as [bytes | m].
  - split; intros _; eexists; reflexivity.
  - split; intros [x H]; discriminate.
Qed.

Lemma collision_suffix_needs_text_witness :
  (exists n, add_collision_suffix (lit "a") (lit ".txt") [97; 56448]%N = Ok n) <->
  (forall c, In c [97; 56448]%N -> in_range 0xD800 0xDFFF c = false).
Proof.
  apply (collision_suffix_needs_text (lit "a") (lit ".txt") [97; 56448]%N).
  intros c [<- | [<- | []]]; reflexivity.
Defined.

(** * C7 and C4 on dry and live runs *)

Section Boundary.

Context {U : Unicode} {W : Type}.
Variable b : Backend W.

(** Where [rename_file] stands once the probe has returned and the name is
    settled. *)
Lemma settles_resolve f st safe_name target :
  settles b f st safe_name target ->
  resolve_target b f st =
  (Ok (safe_name, target),
   mkSt (snd (file_exists b (path_join (parent f) (sanitize (name f))) (world st)))
     (log st ++ [CallExists (path_join (parent f) (sanitize (name f)))])).
Proof.
  unfold settles, resolve_target. cbv zeta.
  destruct (file_exists b (path_join (parent f) (sanitize (name f))) (world st)) as [r w].
  cbn [fst snd]. intros [[-> [-> ->]] | [-> [E ->]]]; [reflexivity|].
  now rewrite E.
Qed.

(** The handler of [rename_file]: what the body raises becomes a [Failed]
    outcome with the message of the exception, on the state the body left. *)
Lemma rename_file_raise f dry_run st e st' :
  rename_file_body b f dry_run st = (Raise e, st') ->
  rename_file b f dry_run st = (Ok (result_failure f e), st').
Proof. intros H. unfold rename_file, try_except. now rewrite H. Qed.

(** The body returns successes and skips only. *)
Lemma rename_file_body_success f dry_run st r st' :
  rename_file_body b f dry_run st = (Ok r, st') -> success r = true.
Proof.
  intros H.
  destruct (is_system_file (name f)) eqn:Es.
  { unfold rename_file_body in H. rewrite Es in H. apply pair_ok_inv in H.
    destruct H as [<- _]. reflexivity. }
  destruct (is_safe_filename (name f)) eqn:Ea.
  { unfold rename_file_body in H. rewrite Es, Ea in H. apply pair_ok_inv in H.
    destruct H as [<- _]. reflexivity. }
  rewrite rename_file_body_unfold in H by assumption.
  destruct (resolve_target b f st) as [[[safe_name t] | e] st1].
  - destruct dry_run.
    + apply pair_ok_inv in H. destruct H as [<- _]. reflexivity.
    + apply execute_ok in H.
      destruct H as [? [? [sidecar [? [? [? [_ [_ [_ [_ [_ [-> _]]]]]]]]]]]]. reflexivity.
  - apply pair_equal_spec in H. destruct H; discriminate.
Qed.

End Boundary.

(** C7, amended: when the listing capability raises, [rename_directory]
    returns normally with no outcome at all, and the listing is the only
    call it made; [rename_directory] never raises, whatever the backend
    does, and neither does [rename_file].  Every per-file error becomes a
    [Failed] outcome at the boundary of [rename_file]: whatever the body of
    its [try] block raises is returned as [Failed] with the message of the
    exception, and a [Failed] outcome comes from nothing else.  Capability
    by capability: an exception of the probe, of the resolver, of the rename
    hook, of the hash, of the size, of the metadata check or of the sidecar
    writer gives the [Failed] outcome that carries its message. *)
Theorem listing_failure_swallowed {U : Unicode} {W : Type} (b : Backend W) (directory : Path)
    (recursive dry_run : bool) (st : St W) :
  (forall m, fst (list_files b directory recursive (world st)) = Raise m ->
     rename_directory b directory recursive dry_run st =
     (Ok [], mkSt (snd (list_files b directory recursive (world st)))
               (log st ++ [CallList directory recursive]))) /\
  (exists results st', rename_directory b directory recursive dry_run st = (Ok results, st')) /\
  (forall f st1, exists r st2,
     rename_file b f dry_run st1 = (Ok r, st2) /\ original_path r = f) /\
  (forall f st1 e st2,
     rename_file_body b f dry_run st1 = (Raise e, st2) ->
     rename_file b f dry_run st1 = (Ok (result_failure f e), st2)) /\
  (forall f st1 r st2,
     rename_file b f dry_run st1 = (Ok r, st2) -> success r = false ->
     exists e, rename_file_body b f dry_run st1 = (Raise e, st2) /\ r = result_failure f e) /\
  (forall f st1,
     is_system_file (name f) = false -> is_safe_filename (name f) = false ->
     let candidate := path_join (parent f) (sanitize (name f)) in
     let probe := file_exists b candidate (world st1) in
     let probed := mkSt (snd probe) (log st1 ++ [CallExists candidate]) in
     (forall e, fst probe = Raise e ->
        rename_file b f dry_run st1 = (Ok (result_failure f e), probed)) /\
     (forall e, fst probe = Ok true -> collision_name (name f) = Raise e ->
        rename_file b f dry_run st1 = (Ok (result_failure f e), probed)) /\
     (forall safe_name target, settles b f st1 safe_name target ->
        (forall e w1,
           _perform_rename b f target (snd probe) = (Raise e, w1) ->
           fst (rename_file b f false st1) = Ok (result_failure f e)) /\
        (forall w1 e w2,
           _perform_rename b f target (snd probe) = (Ok tt, w1) ->
           compute_hash b target w1 = (Raise e, w2) ->
           fst (rename_file b f false st1) = Ok (result_failure f e)) /\
        (forall w1 file_hash w2 e w3,
           _perform_rename b f target (snd probe) = (Ok tt, w1) ->
           compute_hash b target w1 = (Ok file_hash, w2) ->
           _get_file_size b target w2 = (Raise e, w3) ->
           fst (rename_file b f false st1) = Ok (result_failure f e)) /\
        (forall w1 file_hash w2 file_size w3 e,
           _perform_rename b f target (snd probe) = (Ok tt, w1) ->
           compute_hash b target w1 = (Ok file_hash, w2) ->
           _get_file_size b target w2 = (Ok file_size, w3) ->
           FileMetadata_init (name f) safe_name file_size file_hash (algorithm_name b)
             (now_isoformat b w3) = Raise e ->
           fst (rename_file b f false st1) = Ok (result_failure f e)) /\
        (forall w1 file_hash w2 file_size w3 metadata e w4,
           _perform_rename b f target (snd probe) = (Ok tt, w1) ->
           compute_hash b target w1 = (Ok file_hash, w2) ->
           _get_file_size b target w2 = (Ok file_size, w3) ->
           FileMetadata_init (name f) safe_name file_size file_hash (algorithm_name b)
             (now_isoformat b w3) = Ok metadata ->
           write_sidecar b target (from_metadata metadata) w3 = (Raise e, w4) ->
           fst (rename_file b f false st1) = Ok (result_failure f e)))).
Proof.
  refine (conj _ (conj _ (conj _ (conj _ (conj _ _))))).
  - intros m H. unfold rename_directory, call.
    destruct (list_files b directory recursive (world st)) as [r w]. cbn [fst snd] in *.
    now subst r.
  - unfold rename_directory, call.
    destruct (list_files b directory recursive (world st)) as [[files | m] w].
    + destruct (rename_loop_chained b dry_run files []
                  (mkSt w (log st ++ [CallList directory recursive]))) as [rs [st2 [E _]]].
      rewrite E. eauto.
    + eauto.
  - intros f st1. apply rename_file_returns.
  - intros f st1 e st2. apply rename_file_raise.
  - intros f st1 r st2 H Hs. unfold rename_file, try_except in H.
    destruct (rename_file_body b f dry_run st1) as [[r1 | e] st3] eqn:Eb.
    + apply pair_ok_inv in H. destruct H as [<- _].
      rewrite (rename_file_body_success b _ _ _ _ _ Eb) in Hs. discriminate.
    + unfold ret in H. apply pair_ok_inv in H. destruct H as [<- <-]. now exists e.
  - intros f st1 Hsys Hsafe candidate probe probed.
    assert (Hbody : forall flag, rename_file_body b f flag st1 =
              match resolve_target b f st1 with
              | (Ok target, st') =>
                  if flag
                  then (Ok (result_success f (snd target) (sidecar_of (snd target))), st')
                  else execute b f target st'
              | (Raise e, st') => (Raise e, st')
              end) by (intros flag; now apply rename_file_body_unfold).
    refine (conj _ (conj _ _)).
    + intros e He. apply rename_file_raise. rewrite Hbody. unfold resolve_target.
      fold candidate. fold probe. destruct probe as [r w] eqn:Ep. cbn [fst] in He. subst r.
      reflexivity.
    + intros e He Hc. apply rename_file_raise. rewrite Hbody. unfold resolve_target.
      fold candidate. fold probe. destruct probe as [r w] eqn:Ep. cbn [fst] in He. subst r.
      rewrite Hc. reflexivity.
    + intros safe_name target Hset.
      pose proof (settles_resolve b f st1 safe_name target Hset) as Hres.
      fold candidate in Hres. fold probe in Hres. fold probed in Hres.
      assert (Hlive : forall e st3, execute b f (safe_name, target) probed = (Raise e, st3) ->
                        fst (rename_file b f false st1) = Ok (result_failure f e)).
      { intros e st3 Hx.
        rewrite (rename_file_raise b f false st1 e st3); [reflexivity|].
        rewrite Hbody, Hres. exact Hx. }
      refine (conj _ (conj _ (conj _ (conj _ _)))).
      * intros e w1 H1. eapply Hlive. rewrite execute_unfold. cbn [world probed].
        rewrite H1. reflexivity.
      * intros w1 e w2 H1 H2. eapply Hlive. rewrite execute_unfold. cbn [world probed].
        rewrite H1, H2. reflexivity.
      * intros w1 file_hash w2 e w3 H1 H2 H3. eapply Hlive. rewrite execute_unfold.
        cbn [world probed]. rewrite H1, H2, H3. reflexivity.
      * intros w1 file_hash w2 file_size w3 e H1 H2 H3 H4. eapply Hlive.
        rewrite execute_unfold. cbn [world probed]. rewrite H1, H2, H3, H4. reflexivity.
      * intros w1 file_hash w2 file_size w3 metadata e w4 H1 H2 H3 H4 H5. eapply Hlive.
        rewrite execute_unfold. cbn [world probed]. rewrite H1, H2, H3, H4, H5. reflexivity.
Qed.

(** The name the resolver returns, in full: what it keeps of the base, two
    hyphens, the first eight hexadecimal digits of the SHA-256 of the UTF-8
    bytes of the original name, the extension. *)
Lemma add_collision_suffix_exact base_name extension original_name n :
  add_collision_suffix base_name extension original_name = Ok n ->
  exists bytes,
    utf8_encode original_name = Ok bytes /\
    length (firstn 8 (Sha256.hexdigest bytes)) = 8%nat /\
    n = kept_base base_name extension ++ lit "--" ++ firstn 8 (Sha256.hexdigest bytes)
        ++ extension.
Proof.
  unfold add_collision_suffix, hash_suffix.
  destruct (utf8_encode original_name) as [bytes | m]; [|discriminate].
  intros H. exists bytes. split; [reflexivity|].
  assert (Hl : length (firstn 8 (Sha256.hexdigest bytes)) = 8%nat).
  { rewrite length_firstn, hexdigest_length. reflexivity. }
  split; [exact Hl|].
  cbv zeta in H. apply Ok_inj in H. rewrite <- H. unfold kept_base. cbv zeta.
  replace (len (lit "--" ++ firstn 8 (Sha256.hexdigest bytes))) with 10%Z.
  - now rewrite <- !app_assoc.
  - rewrite len_app. unfold len at 2. rewrite Hl. reflexivity.
Qed.

Section Collision.

Context {U : Unicode} {W : Type}.
Variable b : Backend W.

(** [rename_file] on a file that is not skipped when the probe finds the
    candidate occupied. *)
Lemma rename_file_body_occupied p dry_run st :
  is_system_file (name p) = false -> is_safe_filename (name p) = false ->
  fst (file_exists b (path_join (parent p) (sanitize (name p))) (world st)) = Ok true ->
  let candidate := path_join (parent p) (sanitize (name p)) in
  let probed := mkSt (snd (file_exists b candidate (world st)))
                  (log st ++ [CallExists candidate]) in
  rename_file_body b p dry_run st =
  match collision_name (name p) with
  | Ok n =>
      if dry_run
      then (Ok (result_success p (path_join (parent p) n)
                  (sidecar_of (path_join (parent p) n))), probed)
      else execute b p (n, path_join (parent p) n) probed
  | Raise e => (Raise e, probed)
  end.
Proof.
  intros Hsys Hsafe Hp candidate probed. rewrite rename_file_body_unfold by assumption.
  unfold resolve_target. fold candidate. fold candidate in Hp. subst probed.
  destruct (file_exists b candidate (world st)) as [r w]. cbn [fst snd] in *. subst r.
  destruct (collision_name (name p)); reflexivity.
Qed.

(** On a collision the destination is that of the resolver's name, on a
    dry run and on a live run. *)
Lemma collision_destination p st n :
  is_system_file (name p) = false -> is_safe_filename (name p) = false ->
  fst (file_exists b (path_join (parent p) (sanitize (name p))) (world st)) = Ok true ->
  collision_name (name p) = Ok n ->
  let candidate := path_join (parent p) (sanitize (name p)) in
  let target := path_join (parent p) n in
  fst (rename_file b p true st) = Ok (result_success p target (sidecar_of target)) /\
  (exists k content,
     log (snd (rename_file b p false st)) =
     log st ++ firstn (S (S k)) (protocol p candidate target content)) /\
  (forall r st', rename_file b p false st = (Ok r, st') -> success r = true ->
                 new_path r = Some target).
Proof.
  intros Hsys Hsafe Hp Hn candidate target.
  pose proof (fun flag => rename_file_body_occupied p flag st Hsys Hsafe Hp) as Hbody.
  cbv zeta in Hbody. fold candidate in Hbody. rewrite Hn in Hbody. fold target in Hbody.
  refine (conj _ (conj _ _)).
  - unfold rename_file, try_except. rewrite Hbody. reflexivity.
  - rewrite rename_file_state, Hbody.
    destruct (execute_log b p (n, target)
                (mkSt (snd (file_exists b candidate (world st)))
                   (log st ++ [CallExists candidate]))) as [k [content Hk]].
    exists k, content. rewrite Hk. cbn [log snd]. now rewrite <- app_assoc.
  - intros r st' H Hs. unfold rename_file, try_except in H. rewrite Hbody in H.
    destruct (execute b p (n, target)
                (mkSt (snd (file_exists b candidate (world st)))
                   (log st ++ [CallExists candidate]))) as [[r1 | e] st2] eqn:Ex.
    + apply pair_ok_inv in H. destruct H as [<- _].
      exact (execute_new_path b p _ _ _ _ Ex).
    + unfold ret in H. apply pair_ok_inv in H. destruct H as [<- _]. discriminate.
Qed.

Lemma collision_failure p dry_run st e :
  is_system_file (name p) = false -> is_safe_filename (name p) = false ->
  fst (file_exists b (path_join (parent p) (sanitize (name p))) (world st)) = Ok true ->
  collision_name (name p) = Raise e ->
  fst (rename_file b p dry_run st) = Ok (result_failure p e).
Proof.
  intros Hsys Hsafe Hp He. unfold rename_file, try_except.
  rewrite (rename_file_body_occupied p dry_run st Hsys Hsafe Hp), He. reflexivity.
Qed.

End Collision.

(** C4, amended: the name the resolver returns is what it keeps of the
    base (the base, or its first 180 - len(ext) - 10 characters without the
    hyphens and underscores that end them), then "--", then the first eight
    hexadecimal digits of the SHA-256 of the original name, then the
    extension.  So the suffix is a function of the original name only, and
    the name depends on the base and the extension passed in as well: with
    one original name and one extension, two calls return the same name
    exactly when they keep the same base.  In [rename_file] the base and
    the extension are those of the sanitized original name, so on a
    collision the destination is a function of the original path only: on
    any two backends in any two states the dry runs return the same
    outcome, whose destination is that name, the live runs call the rename
    hook with that destination after the probe, and a live success reports
    it; when the resolver raises, every run gives the [Failed] outcome with
    its message. *)
Theorem collision_suffix_from_original {U : Unicode} {W1 W2 : Type}
    (b1 : Backend W1) (b2 : Backend W2) :
  (forall original_name base_name extension n,
      add_collision_suffix base_name extension original_name = Ok n ->
      exists bytes,
        utf8_encode original_name = Ok bytes /\
        length (firstn 8 (Sha256.hexdigest bytes)) = 8%nat /\
        n = kept_base base_name extension ++ lit "--"
            ++ firstn 8 (Sha256.hexdigest bytes) ++ extension) /\
  (forall original_name base1 base2 extension n1 n2,
      add_collision_suffix base1 extension original_name = Ok n1 ->
      add_collision_suffix base2 extension original_name = Ok n2 ->
      (n1 = n2 <-> kept_base base1 extension = kept_base base2 extension)) /\
  (forall p st1 st2,
      is_system_file (name p) = false -> is_safe_filename (name p) = false ->
      let candidate := path_join (parent p) (sanitize (name p)) in
      fst (file_exists b1 candidate (world st1)) = Ok true ->
      fst (file_exists b2 candidate (world st2)) = Ok true ->
      fst (rename_file b1 p true st1) = fst (rename_file b2 p true st2) /\
      (forall n, collision_name (name p) = Ok n ->
         let target := path_join (parent p) n in
         fst (rename_file b1 p true st1) = Ok (result_success p target (sidecar_of target)) /\
         (exists k content,
            log (snd (rename_file b1 p false st1)) =
            log st1 ++ firstn (S (S k)) (protocol p candidate target content)) /\
         (exists k content,
            log (snd (rename_file b2 p false st2)) =
            log st2 ++ firstn (S (S k)) (protocol p candidate target content)) /\
         (forall r st', rename_file b1 p false st1 = (Ok r, st') -> success r = true ->
                        new_path r = Some target) /\
         (forall r st', rename_file b2 p false st2 = (Ok r, st') -> success r = true ->
                        new_path r = Some target)) /\
      (forall e dry_run, collision_name (name p) = Raise e ->
         fst (rename_file b1 p dry_run st1) = Ok (result_failure p e) /\
         fst (rename_file b2 p dry_run st2) = Ok (result_failure p e))).
Proof.
  refine (conj _ (conj _ _)).
  - intros original_name base_name extension n. apply add_collision_suffix_exact.
  - intros original_name base1 base2 extension n1 n2 H1 H2.
    destruct (add_collision_suffix_exact _ _ _ _ H1) as [bytes1 [E1 [_ ->]]].
    destruct (add_collision_suffix_exact _ _ _ _ H2) as [bytes2 [E2 [_ ->]]].
    assert (bytes2 = bytes1) by (apply Ok_inj; congruence). subst bytes2.
    split; [apply app_inv_tail | intros ->; reflexivity].
  - intros p st1 st2 Hsys Hsafe candidate Hp1 Hp2.
    refine (conj _ (conj _ _)).
    + destruct (collision_name (name p)) as [n | e] eqn:En.
      * destruct (collision_destination b1 p st1 n Hsys Hsafe Hp1 En) as [-> _].
        destruct (collision_destination b2 p st2 n Hsys Hsafe Hp2 En) as [-> _].
        reflexivity.
      * rewrite (collision_failure b1 p true st1 e Hsys Hsafe Hp1 En).
        rewrite (collision_failure b2 p true st2 e Hsys Hsafe Hp2 En). reflexivity.
    + intros n En target.
      destruct (collision_destination b1 p st1 n Hsys Hsafe Hp1 En) as [Hd1 [Hl1 Hs1]].
      destruct (collision_destination b2 p st2 n Hsys Hsafe Hp2 En) as [_ [Hl2 Hs2]].
      exact (conj Hd1 (conj Hl1 (conj Hl2 (conj Hs1 Hs2)))).
    + intros e dry_run En. split.
      * exact (collision_failure b1 p dry_run st1 e Hsys Hsafe Hp1 En).
      * exact (collision_failure b2 p dry_run st2 e Hsys Hsafe Hp2 En).
Qed.

(** A run of the theorem: "a b.txt" next to an existing "a-b.txt", on a
    backend whose rename works and on one whose rename fails. *)
Lemma collision_suffix_from_original_witness :
  let p := demo_second in
  let occupied := [mkPath demo_dir (lit "a-b.txt"); demo_second] in
  let target := mkPath demo_dir (lit "a-b--cd6c4a05.txt") in
  fst (@rename_file latin1 _ (memfs (fun _ => false) false false []) p true (mkSt occupied [])) =
  Ok (result_success p target (mkPath demo_dir (lit "a-b--cd6c4a05.txt.meta.json"))) /\
  (forall r st',
     @rename_file latin1 _ (memfs (fun _ => true) false false []) p false
       (mkSt (demo_first :: occupied) []) = (Ok r, st') ->
     success r = true -> new_path r = Some target).
Proof.
  intros p occupied target.
  destruct (@collision_suffix_from_original latin1 _ _
              (memfs (fun _ => false) false false [])
              (memfs (fun _ => true) false false [])) as [_ [_ H]].
  destruct (H p (mkSt occupied []) (mkSt (demo_first :: occupied) [])) as [_ [Hn _]];
    [vm_compute; reflexivity .. | ].
  destruct (Hn (lit "a-b--cd6c4a05.txt")) as [Hd [_ [_ [_ Hs]]]]; [vm_compute; reflexivity|].
  split; [exact Hd | exact Hs].
Defined.
